(** * PNICER utility layer: a shallow embedding and its verified properties

    The development follows the two source files of the repository,
    [pnicer/utils.py] (the older, flat module) and [pnicer/utils/gmm.py]
    (the later mixture-model module).  Floating-point numbers are idealised:
    purely arithmetic code is embedded over the rationals [Q] so that it
    computes, code that needs square roots or trigonometry over the reals
    [R].  Integer code is embedded over [Z] and [nat]. *)

From Stdlib Require Import ZArith QArith Qround Qabs Lqa Reals Lra Lia List String.
From stdpp Require Import base option list gmap.

(* ===================================================================== *)
(** * Part I: the embedding                                               *)
(* ===================================================================== *)

(** ** [pnicer/utils.py]: colour covariance *)

Module ColorCovar.

Local Open Scope Q_scope.

(** Band identifiers are documented as [str, int]; in Python a string never
    compares equal to an integer. *)
Inductive band : Type :=
| BandStr (s : string)
| BandInt (z : Z).

Definition band_eqb (a b : band) : bool :=
  match a, b with
  | BandStr s, BandStr t => String.eqb s t
  | BandInt x, BandInt y => Z.eqb x y
  | _, _ => false
  end.

(** [np.sum] and [np.mean] of a one-dimensional array.  (On an empty array
    numpy answers NaN; [Q] answers [0 / 0 = 0].) *)
Definition np_sum (a : list Q) : Q := fold_left Qplus a 0.

Definition np_mean (a : list Q) : Q :=
  np_sum a / inject_Z (Z.of_nat (length a)).

(** The 2x2 array [cmatrix], entry [cij] being [cmatrix[i, j]]. *)
Record cmatrix : Type := CMatrix { c00 : Q; c01 : Q; c10 : Q; c11 : Q }.

(** The running cross term [cov], updated by the four [if] statements. *)
Definition cov_terms (magerr1 magerr2 magerr3 magerr4 : list Q)
           (name1 name2 name3 name4 : band) : Q :=
  let cov := 0 in
  let cov := if band_eqb name1 name3
             then cov + np_mean magerr1 * np_mean magerr3 else cov in
  let cov := if band_eqb name1 name4
             then cov - np_mean magerr1 * np_mean magerr4 else cov in
  let cov := if band_eqb name2 name3
             then cov - np_mean magerr2 * np_mean magerr3 else cov in
  let cov := if band_eqb name2 name4
             then cov + np_mean magerr2 * np_mean magerr4 else cov in
  cov.

Definition get_color_covar (magerr1 magerr2 magerr3 magerr4 : list Q)
           (name1 name2 name3 name4 : band) : cmatrix :=
  let cov := cov_terms magerr1 magerr2 magerr3 magerr4
                       name1 name2 name3 name4 in
  {| c00 := np_mean magerr1 ^ 2 + np_mean magerr2 ^ 2;
     c11 := np_mean magerr3 ^ 2 * np_mean magerr4 ^ 2;
     c10 := cov;
     c01 := cov |}.

End ColorCovar.

(** ** Python exceptions and fallible results *)

Inductive exn : Type :=
| ValueError (msg : string)
| IndexError
| ZeroDivisionError
| NameError
| AttributeError
| LinAlgError.

Inductive result (A : Type) : Type :=
| Ok (a : A)
| Raise (e : exn).

Arguments Ok {A} a.
Arguments Raise {A} e.

(** ** [pnicer/utils.py]: great-circle distance *)

Module Sky.

Local Open Scope R_scope.

(** The test ["deg" in unit]. *)
Definition has_deg (unit : string) : bool :=
  match String.index 0 "deg" unit with
  | Some _ => true
  | None => false
  end.

(** [np.radians] and [np.rad2deg]. *)
Definition np_radians (x : R) : R := x * (PI / 180).
Definition np_rad2deg (x : R) : R := x * (180 / PI).

Definition distance_sky (lon1 lat1 lon2 lat2 : R) (unit : string) : R :=
  let l1 := if has_deg unit then np_radians lon1 else lon1 in
  let l2 := if has_deg unit then np_radians lon2 else lon2 in
  let b1 := if has_deg unit then np_radians lat1 else lat1 in
  let b2 := if has_deg unit then np_radians lat2 else lat2 in
  let dis :=
    2 * asin (sqrt (sin ((b1 - b2) / 2) ^ 2
                    + cos b1 * cos b2 * sin ((l1 - l2) / 2) ^ 2)) in
  if has_deg unit then np_rad2deg dis else dis.

End Sky.

(** ** [pnicer/utils/gmm.py]: the number of mixture components *)

Module Components.

(** [np.round(x, decimals=0)] followed by [.astype(int)]: rounding to the
    nearest integer, halves going to the even neighbour. *)
Definition np_round (x : Q) : Z :=
  let f := Qfloor x in
  match Qcompare (x - inject_Z f) (1 # 2) with
  | Lt => f
  | Gt => (f + 1)%Z
  | Eq => if Z.even f then f else (f + 1)%Z
  end.

(** A data vector is a one-dimensional array, on which [ravel] is the
    identity; an entry of the collection may also be [None]. *)
Definition ravel {A : Type} (data : list A) : list A := data.

Definition gmm_components {A : Type} (data : option (list A))
           (max_components : Z) (n_per_component : Z) : result (option Z) :=
  match data with
  | None => Ok None
  | Some d =>
      if (n_per_component =? 0)%Z then Raise ZeroDivisionError
      else
        let n_components :=
          np_round (inject_Z (Z.of_nat (length (ravel d)))
                    / inject_Z n_per_component) in
        let n_components :=
          if (n_components >? max_components)%Z
          then max_components else n_components in
        let n_components :=
          if (n_components <? 1)%Z then 1%Z else n_components in
        Ok (Some n_components)
  end.

(** The default value of the keyword argument [n_per_component]. *)
Definition n_per_component_default : Z := 20.

(** Clamping [x] into the range [[lo, hi]]. *)
Definition clamp (lo hi x : Z) : Z := Z.max lo (Z.min hi x).

End Components.

(** ** Gaussian mixture models

    A fitted one-dimensional [sklearn.mixture.GaussianMixture] with [k]
    components and the default covariance type carries arrays of shape
    [(k,)], [(k, 1)] and [(k, 1, 1)]; each is represented by the list of its
    [k] scalar entries, in order.  The constructor parameters are what
    [get_params()] returns. *)

Module Mixture.

Record gmm_params : Type := GmmParams {
  n_components : Z;
  other_params : list (string * string)
}.

Record GaussianMixture : Type := Gmm {
  params : gmm_params;
  weights_ : list R;
  means_ : list R;
  covariances_ : list R;
  precisions_ : list R;
  precisions_cholesky_ : list R;
  (** [None] while the attribute does not exist. *)
  converged_ : option bool
}.

End Mixture.

(** ** [pnicer/utils/gmm.py]: batch fitting

    [mp_gmm] receives the caller's list object and assigns to its entries, so
    the list is part of the state the function runs in, next to the state of
    numpy's random generator.  Fitting itself is scikit-learn's and is taken
    as a parameter, as is the generator. *)

Module Fit.
Import Mixture Components.

Section MpGmm.

(** State of numpy's global random generator. *)
Variable rng : Type.

(** [np.random.choice(n, size=k, replace=False)]. *)
Variable np_random_choice : rng -> nat -> nat -> list nat * rng.

(** [GaussianMixture(n_components=n, **kwargs).fit(X=d)] for the keyword
    arguments of the call. *)
Variable fit : Z -> list R -> result GaussianMixture.

Record world : Type := World {
  data : list (option (list R));
  gen : rng
}.

(** Fancy indexing [d[ridx]] with an index array. *)
Fixpoint take_indices (d : list R) (ridx : list nat) : result (list R) :=
  match ridx with
  | [] => Ok []
  | i :: rest =>
      match d !! i, take_indices d rest with
      | Some x, Ok xs => Ok (x :: xs)
      | None, _ => Raise IndexError
      | _, Raise e => Raise e
      end
  end.

(** The list comprehension computing [n_components]. *)
Fixpoint all_components (ds : list (option (list R))) (max_components : Z)
  : result (list (option Z)) :=
  match ds with
  | [] => Ok []
  | d :: rest =>
      match gmm_components d max_components n_per_component_default with
      | Raise e => Raise e
      | Ok n =>
          match all_components rest max_components with
          | Raise e => Raise e
          | Ok ns => Ok (n :: ns)
          end
      end
  end.

(** The loop [for idx in range(len(data))] picking subsets; [idxs] is the
    part of the range still to visit. *)
Fixpoint subsample (ndata_max : Z) (idxs : list nat) (w : world)
  : result unit * world :=
  match idxs with
  | [] => (Ok tt, w)
  | idx :: rest =>
      match data w !! idx with
      | None => (Raise IndexError, w)
      | Some None => subsample ndata_max rest w
      | Some (Some d) =>
          if (Z.of_nat (length d) >? ndata_max)%Z then
            if (ndata_max <? 0)%Z
            then (Raise (ValueError "negative dimensions are not allowed"), w)
            else
              let '(ridx, g) :=
                np_random_choice (gen w) (length d) (Z.to_nat ndata_max) in
              match take_indices d ridx with
              | Raise e => (Raise e, {| data := data w; gen := g |})
              | Ok d' =>
                  subsample ndata_max rest
                    {| data := <[idx := Some d']> (data w); gen := g |}
              end
          else subsample ndata_max rest w
      end
  end.

(** The helper run by the worker processes. *)
Definition _mp_gmm (d : option (list R)) (n : option Z)
  : result (option GaussianMixture) :=
  match d, n with
  | None, _ => Ok None
  | Some x, Some k =>
      match fit k x with
      | Raise e => Raise e
      | Ok gmm =>
          match converged_ gmm with
          | Some true => Ok (Some gmm)
          | _ => Ok None
          end
      end
  | Some _, None => Raise (ValueError "n_components")
  end.

(** The entry of the sequential list comprehension. *)
Definition fit_entry (n : option Z) (d : option (list R))
  : result (option GaussianMixture) :=
  match d, n with
  | None, _ => Ok None
  | Some x, Some k =>
      match fit k x with
      | Raise e => Raise e
      | Ok gmm => Ok (Some gmm)
      end
  | Some _, None => Raise (ValueError "n_components")
  end.

(** Mapping a fallible function over [zip(ns, ds)], in order; the pool's
    [starmap] returns its results in this order too. *)
Fixpoint map_zip {A B C : Type} (f : A -> B -> result C)
         (xs : list A) (ys : list B) : result (list C) :=
  match xs, ys with
  | x :: xs', y :: ys' =>
      match f x y with
      | Raise e => Raise e
      | Ok c =>
          match map_zip f xs' ys' with
          | Raise e => Raise e
          | Ok cs => Ok (c :: cs)
          end
      end
  | _, _ => Ok []
  end.

(** What the loop makes of one entry of the list: an entry longer than
    [ndata_max] becomes a selection of [ndata_max] of its elements at
    distinct positions, any other entry stays. *)
Definition entry_after (ndata_max : Z) (before after : option (list R)) : Prop :=
match before with
| None => after = None
| Some d =>
    if (Z.of_nat (length d) >? ndata_max)%Z
    then exists ridx d',
        NoDup ridx
        /\ Forall (fun i => (i < length d)%nat) ridx
        /\ take_indices d ridx = Ok d'
        /\ length d' = Z.to_nat ndata_max
        /\ after = Some d'
    else after = Some d
end.

Definition mp_gmm (max_components : Z) (parallel : bool)
           (ndata_max : option Z) (w : world)
  : result (list (option GaussianMixture)) * world :=
  match all_components (data w) max_components with
  | Raise e => (Raise e, w)
  | Ok n_components =>
      let '(r, w1) :=
        match ndata_max with
        | None => (Ok tt, w)
        | Some m => subsample m (seq 0 (length (data w))) w
        end in
      match r with
      | Raise e => (Raise e, w1)
      | Ok _ =>
          if (100 <? length (data w1))%nat && parallel
          then (map_zip (fun d n => _mp_gmm d n) (data w1) n_components, w1)
          else (map_zip fit_entry n_components (data w1), w1)
      end
  end.

End MpGmm.

Arguments World {rng} data gen.
Arguments data {rng} w.
Arguments gen {rng} w.

End Fit.

(** ** numpy on one-dimensional arrays of reals *)

Module Np.

Local Open Scope R_scope.

Definition np_sum (a : list R) : R := fold_right Rplus 0 a.

(** [np.min] and [np.max]; numpy raises on an empty array, and every call
    below is on an array already known not to be empty. *)
Definition np_min (a : list R) : R :=
match a with
| [] => 0
| x :: rest => fold_left Rmin rest x
end.

Definition np_max (a : list R) : R :=
match a with
| [] => 0
| x :: rest => fold_left Rmax rest x
end.

(** [int(x)]: truncation towards zero. *)
Definition py_int (x : R) : Z :=
if Rle_dec 0 x then Zfloor x else Zceil x.

(** [np.linspace(start, stop, num)].  The callers hand over a float, which
    the numpy releases the code was written for convert with [int]; that
    conversion is [py_int] and is applied by the callers below. *)
Definition np_linspace (start stop : R) (num : Z) : result (list R) :=
if (num <? 0)%Z
then Raise (ValueError "Number of samples must be non-negative.")
else
  let n := Z.to_nat num in
  let step := (stop - start) / INR (n - 1) in
  Ok (map (fun k => start + INR k * step) (seq 0 n)).

(** The slice [a[i:j]] for indices that are not negative. *)
Definition slice (a : list R) (i j : nat) : list R := take (j - i) (drop i a).

(** [np.trapz(y, dx=dx)]: [(dx * (y[1:] + y[:-1]) / 2).sum()]. *)
Definition np_trapz (y : list R) (dx : R) : R :=
np_sum (zip_with (fun b a => dx * (b + a) / 2) (tail y) y).

(** The first index of the minimum of [x :: rest], [x] sitting at index [i]
    and the current best [(bi, bv)] coming from the indices before [i]. *)
Fixpoint argmin_from (a : list R) (i : nat) (bi : nat) (bv : R) : nat :=
match a with
| [] => bi
| x :: rest =>
    if Rlt_dec x bv then argmin_from rest (S i) i x
    else argmin_from rest (S i) bi bv
end.

(** [np.argmin]. *)
Definition np_argmin (a : list R) : result nat :=
match a with
| [] => Raise (ValueError "attempt to get argmin of an empty sequence")
| x :: rest => Ok (argmin_from rest 1 0 x)
end.

(** [a[i]] for an index that is not negative. *)
Definition getitem (a : list R) (i : nat) : result R :=
match a !! i with
| Some x => Ok x
| None => Raise IndexError
end.

(** [np.linalg.inv] on a stack of 1x1 matrices: fails on a singular one. *)
Definition linalg_inv (a : list R) : result (list R) :=
if forallb (fun c => if Req_dec_T c 0 then false else true) a
then Ok (map Rinv a)
else Raise LinAlgError.

(** [np.linalg.cholesky] on a stack of 1x1 matrices: fails on one that is not
    positive definite. *)
Definition linalg_cholesky (a : list R) : result (list R) :=
if forallb (fun c => if Rlt_dec 0 c then true else false) a
then Ok (map sqrt a)
else Raise LinAlgError.

End Np.

(** ** [pnicer/utils/gmm.py]: sampling a mixture and intervals around a value

    [score_samples] is scikit-learn's log-density of the mixture and is a
    parameter of the embedding. *)

Module Sample.
Import Mixture Np.
Local Open Scope R_scope.

(** The two statements under "Set min/max numer of samples". *)
Definition set_min_max_samples (nmin nmax nsamples : R) : R :=
let nsamples := if Rlt_dec nsamples nmin then 100 else nsamples in
let nsamples := if Rlt_dec nmax nsamples then 100000 else nsamples in
nsamples.

(** The list of pairs that [roptions] is the transpose of. *)
Definition range_options (gmm : GaussianMixture) (kappa : R) : list (R * R) :=
let s := map sqrt (covariances_ gmm) in
let m := means_ gmm in
map (fun sm => (snd sm - kappa * fst sm, snd sm + kappa * fst sm)) (zip s m).

Definition query_min (gmm : GaussianMixture) (kappa : R) : R :=
np_min (map fst (range_options gmm kappa)).

Definition query_max (gmm : GaussianMixture) (kappa : R) : R :=
np_max (map snd (range_options gmm kappa)).

(** [nsamples] as first computed, before the two replacements. *)
Definition computed_nsamples (gmm : GaussianMixture) (kappa sampling : R) : R :=
let s := map sqrt (covariances_ gmm) in
(query_max gmm kappa - query_min gmm kappa) / (np_min s / sampling).

(** [nsamples] as handed to [np.linspace]. *)
Definition used_nsamples (gmm : GaussianMixture) (kappa sampling nmin nmax : R) : R :=
set_min_max_samples nmin nmax (computed_nsamples gmm kappa sampling).

Section Sampling.

Variable score_samples : GaussianMixture -> list R -> list R.

Definition gmm_sample_xy (gmm : GaussianMixture) (kappa sampling nmin nmax : R)
  : result (list R * list R) :=
match range_options gmm kappa with
| [] => Raise IndexError
| _ :: _ =>
    let qmin := query_min gmm kappa in
    let qmax := query_max gmm kappa in
    let nsamples := used_nsamples gmm kappa sampling nmin nmax in
    match np_linspace qmin qmax (py_int nsamples) with
    | Raise e => Raise e
    | Ok xrange => Ok (xrange, map exp (score_samples gmm xrange))
    end
end.

(** The indices [lidx] and [ridx] of iteration [i]. *)
Definition left_index (value_idx i : nat) : nat :=
if (i <=? value_idx)%nat then (value_idx - i)%nat else 0%nat.

Definition right_index (value_idx n i : nat) : nat :=
if (value_idx + i <? n)%nat then (value_idx + i)%nat else (n - 1)%nat.

(** [integral] of iteration [i]. *)
Definition window_integral (gmm_y : list R) (dx : R) (value_idx n i : nat) : R :=
let lidx := left_index value_idx i in
let ridx := right_index value_idx n i in
let lint := np_trapz (slice gmm_y lidx value_idx) dx in
let rint := np_trapz (slice gmm_y value_idx ridx) dx in
lint + rint.

(** The loop [for i in range(len(gmm_x))] with its [break]; the answer holds
    [lidx] and [ridx] as the loop leaves them, and there is none when the
    body never ran. *)
Fixpoint integrate_loop (gmm_y : list R) (dx level : R) (value_idx n : nat)
         (range : list nat) : option (nat * nat) :=
match range with
| [] => None
| i :: rest =>
    let lidx := left_index value_idx i in
    let ridx := right_index value_idx n i in
    if Rlt_dec level (window_integral gmm_y dx value_idx n i)
    then Some (lidx, ridx)
    else
      match rest with
      | [] => Some (lidx, ridx)
      | _ :: _ => integrate_loop gmm_y dx level value_idx n rest
      end
end.

(** The body of [gmm_confidence_interval_value] after the samples are drawn. *)
Definition interval_around (gmm_x gmm_y : list R) (value level : R)
  : result (R * R) :=
match getitem (zip_with Rminus (tail gmm_x) gmm_x) 0 with
| Raise e => Raise e
| Ok dx =>
    match np_argmin (map (fun x => Rabs (x - value)) gmm_x) with
    | Raise e => Raise e
    | Ok value_idx =>
        match integrate_loop gmm_y dx level value_idx (length gmm_x)
                             (seq 0 (length gmm_x)) with
        | None => Raise NameError
        | Some (lidx, ridx) =>
            match getitem gmm_x lidx, getitem gmm_x ridx with
            | Ok xl, Ok xr =>
                let ci_half_size :=
                  if (ridx - value_idx <? value_idx - lidx)%nat
                  then value - xl else xr - value in
                Ok (value - ci_half_size, value + ci_half_size)
            | Raise e, _ => Raise e
            | _, Raise e => Raise e
            end
        end
    end
end.

Definition gmm_confidence_interval_value (gmm : GaussianMixture)
           (value level : R) : result (R * R) :=
match gmm_sample_xy gmm 5 100 1000 100000 with
| Raise e => Raise e
| Ok (gmm_x, gmm_y) => interval_around gmm_x gmm_y value level
end.

End Sampling.

(** A fitted one-dimensional model as the sampling routines need it: at
    least one component, as many means as covariances, positive variances. *)
Definition sampleable (gmm : GaussianMixture) : Prop :=
covariances_ gmm <> []
/\ length (means_ gmm) = length (covariances_ gmm)
/\ Forall (fun c => 0 < c) (covariances_ gmm).

(** Iteration [i] is where the loop over [range(n)] ends: no earlier
    iteration saw an integral above [level], and iteration [i] either sees
    one or is the last. *)
Definition stops_at (gmm_y : list R) (dx level : R) (value_idx n i : nat) : Prop :=
(i < n)%nat
/\ (forall j, (j < i)%nat -> ~ level < window_integral gmm_y dx value_idx n j)
/\ (level < window_integral gmm_y dx value_idx n i \/ i = (n - 1)%nat).

(** [ci_half_size] for the final [lidx] and [ridx]. *)
Definition half_size (gmm_x : list R) (value : R) (value_idx lidx ridx : nat) : R :=
if (ridx - value_idx <? value_idx - lidx)%nat
then value - nth lidx gmm_x 0
else nth ridx gmm_x 0 - value.

(** The density that [np.exp(gmm.score_samples(x))] evaluates for a
    one-dimensional mixture, and its logarithm. *)
Definition gauss_pdf (m c x : R) : R :=
/ sqrt (2 * PI * c) * exp (- ((x - m) ^ 2 / (2 * c))).

Definition mixture_pdf (gmm : GaussianMixture) (x : R) : R :=
np_sum (zip_with (fun w mc => w * gauss_pdf (fst mc) (snd mc) x)
                 (weights_ gmm) (zip (means_ gmm) (covariances_ gmm))).

Definition gaussian_score_samples (gmm : GaussianMixture) (xs : list R) : list R :=
map (fun x => ln (mixture_pdf gmm x)) xs.

End Sample.

(** ** [pnicer/utils.py]: the older sampling routine *)

Module Legacy.
Import Mixture Np.
Local Open Scope R_scope.

Definition computed_nsamples (gmm : GaussianMixture) (kappa sampling : R) : R :=
let s := map sqrt (covariances_ gmm) in
let m := means_ gmm in
let qmin := np_min m - kappa * np_max s in
let qmax := np_max m + kappa * np_max s in
(qmax - qmin) / (np_min s / sampling).

Definition used_nsamples (gmm : GaussianMixture) (kappa sampling nmin nmax : R) : R :=
Sample.set_min_max_samples nmin nmax (computed_nsamples gmm kappa sampling).

Section Sampling.

Variable score_samples : GaussianMixture -> list R -> list R.

Definition gmm_sample_xy (gmm : GaussianMixture) (kappa sampling nmin nmax : R)
  : result (list R * list R) :=
match covariances_ gmm, means_ gmm with
| [], _ | _, [] => Raise (ValueError "zero-size array to reduction operation")
| _ :: _, _ :: _ =>
    let s := map sqrt (covariances_ gmm) in
    let m := means_ gmm in
    let qmin := np_min m - kappa * np_max s in
    let qmax := np_max m + kappa * np_max s in
    let nsamples := used_nsamples gmm kappa sampling nmin nmax in
    match np_linspace qmin qmax (py_int nsamples) with
    | Raise e => Raise e
    | Ok xrange => Ok (xrange, map exp (score_samples gmm xrange))
    end
end.

Definition gmm_confidence_interval_value (gmm : GaussianMixture)
           (value level : R) : result (R * R) :=
match gmm_sample_xy gmm 5 100 1000 100000 with
| Raise e => Raise e
| Ok (gmm_x, gmm_y) => Sample.interval_around gmm_x gmm_y value level
end.

End Sampling.

End Legacy.

(** ** [pnicer/utils/gmm.py]: combining mixtures *)

Module Combine.
Import Mixture Np.
Local Open Scope R_scope.

(** The invariant of a fitted model: weights that are not negative and sum
    to one, and positive definite covariances. *)
Definition fitted (g : GaussianMixture) : Prop :=
Forall (fun w => 0 <= w) (weights_ g)
/\ np_sum (weights_ g) = 1
/\ Forall (fun c => 0 < c) (covariances_ g).

(** The weights of a model multiplied by its combination weight. *)
Definition scaled_weights (g : GaussianMixture) (w : R) : list R :=
map (fun x => x * w) (weights_ g).

(** The arrays of the first model followed by those of the models in [gs]
    that have a partner in [wrest]. *)
Definition combined_means (g0 : GaussianMixture) (gs : list GaussianMixture)
           (wrest : list R) : list R :=
means_ g0 ++ concat (map means_ (take (length wrest) gs)).

Definition combined_covariances (g0 : GaussianMixture)
           (gs : list GaussianMixture) (wrest : list R) : list R :=
covariances_ g0 ++ concat (map covariances_ (take (length wrest) gs)).

Definition combined_weights (g0 : GaussianMixture) (gs : list GaussianMixture)
           (w0 : R) (wrest : list R) : list R :=
scaled_weights g0 w0 ++ concat (zip_with scaled_weights gs wrest).

(** What a caller may put into the list [gmms]. *)
Inductive pyobj : Type :=
| PyGmm (g : GaussianMixture)
| PyOther.

(** What a caller may pass as [gmms]. *)
Inductive pyarg : Type :=
| PyList (l : list pyobj)
| PyNotList.

Definition isinstance_gmm (o : pyobj) : bool :=
match o with
| PyGmm _ => true
| PyOther => false
end.

(** [np.sum] of a list of booleans. *)
Definition count_true (bs : list bool) : nat :=
fold_right (fun (b : bool) n => if b then S n else n) 0%nat bs.

(** [len(gmms)]-many ones, the weights used when none are given. *)
Definition unit_weights (gmms : list pyobj) : list R := repeat 1 (length gmms).

(** The running triple [(gmm_means, gmm_variances, gmm_weights)]. *)
Definition parts : Type := (list R * list R * list R)%type.

(** The loop over [zip(gmms[1:], weights[1:])]: [vstack] and [hstack] append. *)
Fixpoint build_components (acc : parts) (gmms : list pyobj) (weights : list R)
  : parts :=
match gmms, weights with
| PyGmm gmm :: gmms', w :: weights' =>
    let '(gmm_means, gmm_variances, gmm_weights) := acc in
    build_components
      (gmm_means ++ means_ gmm,
       gmm_variances ++ covariances_ gmm,
       gmm_weights ++ map (fun x => x * w) (weights_ gmm))
      gmms' weights'
| _, _ => acc
end.

Definition combine_gmms (gmms : pyarg) (weights : option (list R))
  : result GaussianMixture :=
match gmms with
| PyNotList => Raise (ValueError "Models must be provided in a list")
| PyList l =>
    if negb (count_true (map isinstance_gmm l) =? length l)%nat
    then Raise (ValueError "Must only supply GaussianMixture instances")
    else
      let weights :=
        match weights with
        | None => unit_weights l
        | Some ws => ws
        end in
      match l with
      | PyGmm g0 :: rest =>
          match weights with
          | [] => Raise IndexError
          | w0 :: wrest =>
              let '(gmm_means, gmm_variances, gmm_weights) :=
                build_components
                  (means_ g0, covariances_ g0, map (fun x => x * w0) (weights_ g0))
                  rest wrest in
              match linalg_inv gmm_variances with
              | Raise e => Raise e
              | Ok precisions =>
                  match linalg_cholesky precisions with
                  | Raise e => Raise e
                  | Ok cholesky =>
                      Ok {| params := params g0;
                            means_ := gmm_means;
                            covariances_ := gmm_variances;
                            weights_ :=
                              map (fun x => x / np_sum gmm_weights) gmm_weights;
                            precisions_ := precisions;
                            precisions_cholesky_ := cholesky;
                            converged_ := None |}
                  end
              end
          end
      | _ => Raise IndexError
      end
end.

End Combine.

(** ** [pnicer/utils.py]: kernel density on a grid

    Arrays carry their shape, since the function inspects it.  The density
    itself is scikit-learn's and is a parameter, as is the number of
    processing units.  Next to its result the function yields the grid chunks
    that were handed to workers for evaluation. *)

Module Kde.
Import Np.
Local Open Scope R_scope.

Record ndarray : Type := NdArray { shape : list nat; flat : list R }.

Definition ndim (a : ndarray) : nat := length (shape a).

(** [a[:, np.newaxis]] on a one-dimensional array. *)
Definition newaxis (a : ndarray) : ndarray :=
match shape a with
| [n] => {| shape := [n; 1%nat]; flat := flat a |}
| _ => a
end.

(** Number of scalars in one entry along the first axis. *)
Definition row_size (a : ndarray) : nat := fold_right Nat.mul 1%nat (tail (shape a)).

(** [a.shape[0]]. *)
Definition shape0 (a : ndarray) : nat := hd 0%nat (shape a).

(** The chunk lengths of [np.array_split] for [len] rows and [n] sections. *)
Definition split_sizes (len n : nat) : list nat :=
(repeat (S (len / n)) (len mod n) ++ repeat (len / n) (n - len mod n))%nat.

Fixpoint cut (a : ndarray) (sizes : list nat) (rest : list R) : list ndarray :=
match sizes with
| [] => []
| k :: sizes' =>
    {| shape := k :: tail (shape a); flat := take (k * row_size a)%nat rest |}
    :: cut a sizes' (drop (k * row_size a)%nat rest)
end.

(** [np.array_split(a, n, axis=0)]. *)
Definition array_split (a : ndarray) (n : nat) : result (list ndarray) :=
if (n =? 0)%nat
then Raise (ValueError "number sections must be larger than 0.")
else Ok (cut a (split_sizes (shape0 a) n) (flat a)).

(** The test [not sampling] of a value that is [None] or a number. *)
Definition not_sampling (sampling : option R) : bool :=
match sampling with
| None => true
| Some x => if Req_dec_T x 0 then true else false
end.

Definition config_error : exn :=
ValueError "For absolute values, sampling needs to be specified".

Definition dimension_error : exn :=
ValueError "Data and Grid dimensions must match".

Section MpKde.

Variable cpu_count : nat.

(** [kde.fit(data).score_samples(grid)] for the estimator built from
    [kernel] and [bandwidth]. *)
Variable fit_score_samples : string -> R -> ndarray -> ndarray -> list R.

(** The work of one worker process. *)
Definition _mp_kde (kernel : string) (bandwidth : R) (data grid : ndarray)
  : list R :=
map exp (fit_score_samples kernel bandwidth data grid).

(** The normalisation at the end. *)
Definition normalize (norm : option string) (mp : list R) : result (list R) :=
match norm with
| Some "max"%string =>
    match mp with
    | [] => Raise (ValueError "zero-size array to reduction operation")
    | _ :: _ => Ok (map (fun x => x / np_max mp) mp)
    end
| Some "mean"%string =>
    Ok (map (fun x => x / (np_sum mp / INR (length mp))) mp)
| Some "sum"%string => Ok (map (fun x => x / np_sum mp) mp)
| _ => Ok mp
end.

Definition mp_kde (grid data : ndarray) (bandwidth : R) (kernel : string)
           (norm : option string) (absolute : bool) (sampling : option R)
  : result (list R) * list ndarray :=
if absolute && not_sampling sampling then (Raise config_error, [])
else if negb (ndim grid =? ndim data)%nat then (Raise dimension_error, [])
else
  let one_dim := (ndim grid =? 1)%nat in
  let grid := if one_dim then newaxis grid else grid in
  let data := if one_dim then newaxis data else data in
  match array_split grid cpu_count with
  | Raise e => (Raise e, [])
  | Ok grid_split =>
      let mp := concat (map (_mp_kde kernel bandwidth data) grid_split) in
      let mp :=
        match absolute, sampling with
        | true, Some f =>
            map (fun x => x * (INR (shape0 data) / np_sum mp * f)) mp
        | _, _ => mp
        end in
      (normalize norm mp, grid_split)
  end.

End MpKde.

End Kde.

(** ** [gmm_scale], on a store of arrays

    [gmm_scale] assigns arrays of the model it is given to attributes of the
    model it builds, and then updates some attributes in place.  Arrays
    therefore live in a store and a model holds their addresses: two models
    may hold the same address. *)

Module Scale.
Import Mixture Np.
Local Open Scope R_scope.

(** An address is the position of the array in the store. *)
Abbreviation loc := nat.
Abbreviation store := (list (list R)).

(** How the constructor of the new model was called: with the parameters as
    keyword arguments, or with the dictionary as its first positional
    argument. *)
Inductive init_args : Type :=
| Keywords (p : gmm_params)
| Positional (p : gmm_params).

Record gmm_object : Type := GmmObject {
  init : init_args;
  weights_at : loc;
  means_at : loc;
  covariances_at : loc;
  precisions_at : loc;
  precisions_cholesky_at : loc;
  converged_attr : option bool
}.

(** [get_params()] of a model. *)
Definition get_params (gmm : gmm_object) : gmm_params :=
match init gmm with
| Keywords p => p
| Positional p => p
end.

(** Computations that read and write the store and may raise; the store
    survives an exception. *)
Definition M (A : Type) : Type := store -> result A * store.

Definition ret {A : Type} (a : A) : M A := fun h => (Ok a, h).

Definition bind {A B : Type} (m : M A) (f : A -> M B) : M B :=
fun h =>
  match m h with
  | (Ok a, h') => f a h'
  | (Raise e, h') => (Raise e, h')
  end.

Definition lift {A : Type} (r : result A) : M A := fun h => (r, h).

(** A new array object. *)
Definition alloc (a : list R) : M loc := fun h => (Ok (length h), h ++ [a]).

Definition load (l : loc) : M (list R) :=
fun h =>
  match h !! l with
  | Some a => (Ok a, h)
  | None => (Raise NameError, h)
  end.

(** An update of the array object at [l], in place. *)
Definition update (l : loc) (f : list R -> list R) : M unit :=
fun h =>
  match h !! l with
  | Some a => (Ok tt, <[l := f a]> h)
  | None => (Raise NameError, h)
  end.

(** An array built elementwise from the one at [l]. *)
Definition fresh_from (l : loc) (f : list R -> list R) : M loc :=
bind (load l) (fun a => alloc (f a)).

Definition fresh_from_result (l : loc) (f : list R -> result (list R)) : M loc :=
bind (load l) (fun a => bind (lift (f a)) alloc).

(** [pnicer/utils/gmm.py]. *)
Definition gmm_scale (gmm : gmm_object) (shift scale : option R)
           (reverse : bool) (params : option gmm_params) : M gmm_object :=
let params := match params with None => get_params gmm | Some p => p end in
let new_weights := weights_at gmm in
bind (match shift with
      | Some d => fresh_from (means_at gmm) (map (fun x => x + d))
      | None => ret (means_at gmm)
      end) (fun new_means =>
bind (match scale with
      | Some c => update new_means (map (fun x => x / c))
      | None => ret tt
      end) (fun _ =>
bind (match scale with
      | Some c => fresh_from (covariances_at gmm) (map (fun x => x / c ^ 2))
      | None => ret (covariances_at gmm)
      end) (fun new_covariances =>
bind (match scale with
      | Some _ => fresh_from_result new_covariances linalg_inv
      | None => ret (precisions_at gmm)
      end) (fun new_precisions =>
bind (match scale with
      | Some _ => fresh_from_result new_precisions linalg_cholesky
      | None => ret (precisions_cholesky_at gmm)
      end) (fun new_cholesky =>
bind (if reverse then update new_means (map (fun x => x * -1)) else ret tt)
     (fun _ =>
bind (match converged_attr gmm with
      | Some b => ret (if b then Some b else None)
      | None => lift (Raise AttributeError)
      end) (fun new_converged =>
ret {| init := Keywords params;
       weights_at := new_weights;
       means_at := new_means;
       covariances_at := new_covariances;
       precisions_at := new_precisions;
       precisions_cholesky_at := new_cholesky;
       converged_attr := new_converged |}))))))).

(** [pnicer/utils.py]: shift and scale are always numbers there. *)
Definition gmm_scale_legacy (gmm : gmm_object) (shift scale : R)
           (reverse : bool) (params : option gmm_params) : M gmm_object :=
let params := match params with None => get_params gmm | Some p => p end in
let new_weights := weights_at gmm in
bind (fresh_from (means_at gmm) (map (fun x => x + shift))) (fun new_means =>
bind (update new_means (map (fun x => x / scale))) (fun _ =>
bind (if reverse then update new_means (map (fun x => x * -1)) else ret tt)
     (fun _ =>
bind (fresh_from (covariances_at gmm) (map (fun x => x / scale ^ 2)))
     (fun new_covariances =>
bind (fresh_from_result new_covariances linalg_inv) (fun new_precisions =>
bind (fresh_from_result new_precisions linalg_cholesky) (fun new_cholesky =>
ret {| init := Positional params;
       weights_at := new_weights;
       means_at := new_means;
       covariances_at := new_covariances;
       precisions_at := new_precisions;
       precisions_cholesky_at := new_cholesky;
       converged_attr := None |})))))).

(** All addresses of a model point into the store. *)
Definition valid (h : store) (gmm : gmm_object) : Prop :=
(weights_at gmm < length h)%nat
/\ (means_at gmm < length h)%nat
/\ (covariances_at gmm < length h)%nat
/\ (precisions_at gmm < length h)%nat
/\ (precisions_cholesky_at gmm < length h)%nat.

(** [h'] still holds, at every address of [h], what [h] holds there. *)
Definition extends (h h' : store) : Prop :=
(length h <= length h')%nat
/\ forall l, (l < length h)%nat -> h' !! l = h !! l.

(** [m] keeps the arrays of [h0] as they are, from any store that has kept
    them so far, and its answers satisfy [Q]. *)
Definition keeps {A : Type} (h0 : store) (m : M A) (Q : A -> Prop) : Prop :=
forall h, extends h0 h ->
  extends h0 (snd (m h)) /\ forall a, fst (m h) = Ok a -> Q a.

(** The five fitted arrays of a model, as the store holds them. *)
Definition fitted_arrays (h : store) (gmm : gmm_object)
  : list (option (list R)) :=
[ h !! weights_at gmm; h !! means_at gmm; h !! covariances_at gmm;
  h !! precisions_at gmm; h !! precisions_cholesky_at gmm ].

End Scale.

(** ** [pnicer/utils.py]: rounding, covariance and weighted averages

    These routines are arithmetic only and are embedded over [Q].  An array
    entry that numpy would not call finite is kept apart from the rationals. *)

Module Stats.
Local Open Scope Q_scope.

(** [np.around(data / precision) * precision] on scalars; numpy yields NaN or
    an infinity for [precision = 0], where [Q] answers [0]. *)
Definition round_partial (data precision : Q) : Q :=
inject_Z (Components.np_round (data / precision)) * precision.

(** [[item for sublist in lst for item in sublist]]. *)
Fixpoint flatten_lol {A : Type} (lst : list (list A)) : list A :=
match lst with
| [] => []
| sublist :: rest => sublist ++ flatten_lol rest
end.

(** An entry of a sample: a finite number, or NaN or an infinity. *)
Inductive sample : Type :=
| Finite (q : Q)
| NonFinite.

(** [np.sum(~np.isfinite(a))]. *)
Definition count_nonfinite (a : list sample) : nat :=
length (List.filter (fun s => match s with Finite _ => false | NonFinite => true end) a).

(** The numbers of an array that holds finite entries only. *)
Definition finite_values (a : list sample) : list Q :=
flat_map (fun s => match s with Finite q => [q] | NonFinite => [] end) a.

(** [np.sum((xi - np.mean(xi)) * (yi - np.mean(yi))) / len(xi)] for arrays of
    one length. *)
Definition covar (xs ys : list Q) : Q :=
ColorCovar.np_sum
  (zip_with (fun x y => (x - ColorCovar.np_mean xs) * (y - ColorCovar.np_mean ys))
            xs ys)
/ inject_Z (Z.of_nat (length xs)).

(** The answer is [None] where numpy answers NaN: on two empty arrays. *)
Definition get_sample_covar (xi yi : list sample) : result (option Q) :=
if negb (length xi =? length yi)%nat
then Raise (ValueError "X and Y sample size must be equal.")
else if (0 <? count_nonfinite xi)%nat || (0 <? count_nonfinite yi)%nat
then Raise (ValueError "Sample contains NaN entries")
else
  match xi with
  | [] => Ok None
  | _ :: _ => Ok (Some (covar (finite_values xi) (finite_values yi)))
  end.

(** Entries of the arrays given to [weighted_avg]: a number, or NaN ([None]). *)
Definition nan_mul (a b : option Q) : option Q :=
match a, b with
| Some x, Some y => Some (x * y)
| _, _ => None
end.

(** [np.nansum]: NaN entries count as zero. *)
Definition nansum (a : list (option Q)) : Q :=
fold_right (fun e acc => match e with Some x => x + acc | None => acc end) 0 a.

(** [(values - average) ** 2 * weights], entry by entry. *)
Definition squared_deviation (average : Q) (v w : option Q) : option Q :=
nan_mul (option_map (fun x => (x - average) ^ 2) v) w.

(** numpy's broadcasting of two one-dimensional arrays: arrays of one length
    stay, an array of length one is repeated, anything else is refused. *)
Definition broadcast {A : Type} (a b : list A) : result (list A * list A) :=
if (length a =? length b)%nat then Ok (a, b)
else
  match a, b with
  | [x], _ => Ok (repeat x (length b), b)
  | _, [y] => Ok (a, repeat y (length a))
  | _, _ => Raise (ValueError "operands could not be broadcast together")
  end.

(** The answer is [None] where numpy answers NaN or an infinity: when the
    weights that are not NaN sum to zero. *)
Definition weighted_avg (values weights : list (option Q)) : result (option (Q * Q)) :=
match broadcast values weights with
| Raise e => Raise e
| Ok (vs, ws) =>
    if Qeq_bool (nansum weights) 0 then Ok None
    else
      let average := nansum (zip_with nan_mul vs ws) / nansum weights in
      let variance :=
        nansum (zip_with (squared_deviation average) vs ws) / nansum weights in
      Ok (Some (average, variance))
end.

End Stats.

(** ** [pnicer/utils.py]: the term under the square root of [distance_sky] *)

Module SkyTerm.
Local Open Scope R_scope.

(** The sum whose square root [distance_sky] hands to [np.arcsin], for
    coordinates in radians. *)
Definition haversine (l1 b1 l2 b2 : R) : R :=
sin ((b1 - b2) / 2) ^ 2 + cos b1 * cos b2 * sin ((l1 - l2) / 2) ^ 2.

(** A full turn in the unit of the coordinates. *)
Definition full_turn (unit : string) : R :=
if Sky.has_deg unit then 360 else 2 * PI.

(** Half a turn, the largest distance on the sphere, in that unit. *)
Definition half_turn (unit : string) : R :=
if Sky.has_deg unit then 180 else PI.

End SkyTerm.

(** ** [pnicer/utils.py]: the older batch fit

    Every vector is fitted by a worker; a fit that raises [ValueError] or does
    not converge yields NaN, here [None]. *)

Module LegacyFit.
Import Mixture.

Section MpGmm.

(** The fit of a [GaussianMixture] built from the keyword arguments of the
    call to the data. *)
Variable fit : list R -> result GaussianMixture.

Definition _mp_gmm (data : list R) : result (option GaussianMixture) :=
match fit data with
| Ok gmm =>
    match converged_ gmm with
    | Some true => Ok (Some gmm)
    | Some false => Ok None
    | None => Raise AttributeError
    end
| Raise (ValueError _) => Ok None
| Raise e => Raise e
end.

(** [pool.starmap(_mp_gmm, zip(data, repeat(kwargs)))], in order. *)
Fixpoint mp_gmm (data : list (list R)) : result (list (option GaussianMixture)) :=
match data with
| [] => Ok []
| d :: rest =>
    match _mp_gmm d with
    | Raise e => Raise e
    | Ok r =>
        match mp_gmm rest with
        | Raise e => Raise e
        | Ok rs => Ok (r :: rs)
        end
    end
end.

End MpGmm.

End LegacyFit.

(** ** The number of components [mp_gmm] fits a vector with *)

Module FitCount.

Definition component_count (max_components : Z) (d : list R) : Z :=
Components.clamp 1 max_components
  (Components.np_round (inject_Z (Z.of_nat (length d)) / 20)).

(** Whether [mp_gmm] takes the branch with the pool of workers. *)
Definition uses_pool (parallel : bool) (data : list (option (list R))) : bool :=
(100 <? length data)%nat && parallel.

End FitCount.

(** ** [mp_kde]: rows of an array and the scores of the workers *)

Module KdeParts.
Import Np Kde.
Local Open Scope R_scope.

(** An array with at least one axis whose data fill its shape. *)
Definition well_shaped (a : ndarray) : Prop :=
shape a = shape0 a :: tail (shape a)
/\ length (flat a) = (shape0 a * row_size a)%nat.

(** The first [k] entries along the first axis, and the others. *)
Definition rows_take (k : nat) (a : ndarray) : ndarray :=
{| shape := k :: tail (shape a); flat := take (k * row_size a)%nat (flat a) |}.

Definition rows_drop (k : nat) (a : ndarray) : ndarray :=
{| shape := (shape0 a - k)%nat :: tail (shape a);
   flat := drop (k * row_size a)%nat (flat a) |}.

(** The grid and the data as [mp_kde] hands them on: one-dimensional input is
    extended by an axis. *)
Definition promoted (grid a : ndarray) : ndarray :=
if (ndim grid =? 1)%nat then newaxis a else a.

(** The array [mp] right after [np.concatenate]. *)
Definition kde_scores (cpu_count : nat)
           (fit_score_samples : string -> R -> ndarray -> ndarray -> list R)
           (grid data : ndarray) (bandwidth : R) (kernel : string) : list R :=
match array_split (promoted grid grid) cpu_count with
| Ok grid_split =>
    concat (map (_mp_kde fit_score_samples kernel bandwidth (promoted grid data))
                grid_split)
| Raise _ => []
end.

End KdeParts.

(** ** [pnicer/utils/gmm.py]: maximum, expected value and variance *)

Module Moments.
Import Mixture Np Sample.
Local Open Scope R_scope.

(** The product [a * b] of two one-dimensional arrays. *)
Definition np_mul (a b : list R) : result (list R) :=
match Stats.broadcast a b with
| Ok (a', b') => Ok (zip_with Rmult a' b')
| Raise e => Raise e
end.

(** The sum [a + b] of two one-dimensional arrays. *)
Definition np_add (a b : list R) : result (list R) :=
match Stats.broadcast a b with
| Ok (a', b') => Ok (zip_with Rplus a' b')
| Raise e => Raise e
end.

(** [np.power(a, 2)]. *)
Definition np_square (a : list R) : list R := map (fun x => x ^ 2) a.

(** [a[:-1]]. *)
Definition but_last (a : list R) : list R := take (length a - 1) a.

(** [np.trapz(y, x)]: [(diff(x) * (y[1:] + y[:-1]) / 2).sum()]. *)
Definition np_trapz_x (y x : list R) : result R :=
match np_add (tail y) (but_last y) with
| Raise e => Raise e
| Ok s =>
    match np_mul (zip_with Rminus (tail x) (but_last x)) s with
    | Raise e => Raise e
    | Ok p => Ok (np_sum (map (fun v => v / 2) p))
    end
end.

(** The first index of the maximum, as [argmin_from] finds the minimum. *)
Fixpoint argmax_from (a : list R) (i : nat) (bi : nat) (bv : R) : nat :=
match a with
| [] => bi
| x :: rest =>
    if Rlt_dec bv x then argmax_from rest (S i) i x
    else argmax_from rest (S i) bi bv
end.

(** [np.argmax]. *)
Definition np_argmax (a : list R) : result nat :=
match a with
| [] => Raise (ValueError "attempt to get argmax of an empty sequence")
| x :: rest => Ok (argmax_from rest 1 0 x)
end.

(** The message of the error for a method that is not known. *)
Definition unknown_method (method : string) : exn :=
ValueError ("Method " ++ method ++ " not known. Use either 'weighted' or integral").

(** The closed form of the expected value, [np.sum(means * weights)]. *)
Definition weighted_expected_value (gmm : GaussianMixture) : result R :=
match np_mul (means_ gmm) (weights_ gmm) with
| Raise e => Raise e
| Ok p => Ok (np_sum p)
end.

(** The closed form of the variance:
    [np.sum(w * c) + np.sum(w * np.power(m, 2)) - np.power(np.sum(w * m), 2)]. *)
Definition weighted_variance (gmm : GaussianMixture) : result R :=
let m := means_ gmm in
let c := covariances_ gmm in
let w := weights_ gmm in
match np_mul w c with
| Raise e => Raise e
| Ok wc =>
    match np_mul w (np_square m) with
    | Raise e => Raise e
    | Ok wm2 =>
        match np_mul w m with
        | Raise e => Raise e
        | Ok wm => Ok (np_sum wc + np_sum wm2 - np_sum wm ^ 2)
        end
    end
end.

Section Sampling.

Variable score_samples : GaussianMixture -> list R -> list R.

Definition gmm_max (gmm : GaussianMixture) (sampling : R) : result R :=
match gmm_sample_xy score_samples gmm 1 sampling 100 100000 with
| Raise e => Raise e
| Ok (x, y) =>
    match np_argmax y with
    | Raise e => Raise e
    | Ok i => getitem x i
    end
end.

Definition gmm_expected_value (gmm : GaussianMixture) (method : string)
           (sampling : R) : result R :=
if String.eqb method "weighted" then weighted_expected_value gmm
else if String.eqb method "integral" then
  match gmm_sample_xy score_samples gmm 10 sampling 100 100000 with
  | Raise e => Raise e
  | Ok (xrange, yrange) =>
      match np_mul xrange yrange with
      | Raise e => Raise e
      | Ok xy => np_trapz_x xy xrange
      end
  end
else Raise (unknown_method method).

Definition gmm_population_variance (gmm : GaussianMixture) (method : string)
           (sampling : R) : result R :=
if String.eqb method "weighted" then weighted_variance gmm
else if String.eqb method "integral" then
  match gmm_expected_value gmm "weighted" 50 with
  | Raise e => Raise e
  | Ok ev =>
      match gmm_sample_xy score_samples gmm 10 sampling 100 100000 with
      | Raise e => Raise e
      | Ok (xrange, yrange) =>
          match np_mul (np_square xrange) yrange with
          | Raise e => Raise e
          | Ok x2y =>
              match np_trapz_x x2y xrange with
              | Raise e => Raise e
              | Ok t => Ok (t - ev ^ 2)
              end
          end
      end
  end
else Raise (unknown_method method).

End Sampling.

(** A model whose arrays have one length. *)
Definition aligned (gmm : GaussianMixture) : Prop :=
length (means_ gmm) = length (weights_ gmm)
/\ length (covariances_ gmm) = length (weights_ gmm).

(** The sum of the means of a model, each times its weight. *)
Definition mean_of (gmm : GaussianMixture) : R :=
np_sum (zip_with Rmult (means_ gmm) (weights_ gmm)).

End Moments.

(** ** [pnicer/utils.py]: the centroid on the sphere *)

Module Centroid.
Import Np Sky Moments.
Local Open Scope R_scope.

(** [str.lower] on the letters A to Z. *)
Definition lower_ascii (c : Ascii.ascii) : Ascii.ascii :=
let n := Ascii.nat_of_ascii c in
if ((65 <=? n) && (n <=? 90))%nat then Ascii.ascii_of_nat (n + 32) else c.

Fixpoint lower (s : string) : string :=
match s with
| EmptyString => EmptyString
| String c rest => String (lower_ascii c) (lower rest)
end.

(** [np.arctan2(y, x)]: the angle of the point [(x, y)], in [(-PI, PI]]. *)
Definition np_arctan2 (y x : R) : R :=
if Rlt_dec 0 x then atan (y / x)
else if Rlt_dec x 0 then
  (if Rle_dec 0 y then atan (y / x) + PI else atan (y / x) - PI)
else if Rlt_dec 0 y then PI / 2
else if Rlt_dec y 0 then - (PI / 2)
else 0.

(** The length [cenlen] of the centroid in space. *)
Definition centroid_length (xcen ycen zcen : R) : R :=
sqrt (xcen ^ 2 + ycen ^ 2 + zcen ^ 2).

(** The answer is [None] where numpy answers NaN for both coordinates:
    for empty arrays and for a centroid at the centre of the sphere. *)
Definition centroid_sphere (lon lat : list R) (units : string)
  : result (option (R * R)) :=
let deg := has_deg (lower units) in
let mlon := if deg then map np_radians lon else lon in
let mlat := if deg then map np_radians lat else lat in
match np_mul (map cos mlat) (map cos mlon) with
| Raise e => Raise e
| Ok x =>
    match np_mul (map cos mlat) (map sin mlon) with
    | Raise e => Raise e
    | Ok y =>
        let z := map sin mlat in
        if ((length x =? 0) || (length y =? 0) || (length z =? 0))%nat
        then Ok None
        else
          let xcen := np_sum x / INR (length x) in
          let ycen := np_sum y / INR (length y) in
          let zcen := np_sum z / INR (length z) in
          let cenlen := centroid_length xcen ycen zcen in
          if Req_dec_T cenlen 0 then Ok None
          else
            let xsur := xcen / cenlen in
            let ysur := ycen / cenlen in
            let zsur := zcen / cenlen in
            let outlon := np_arctan2 ysur xsur in
            let outlon := if Rlt_dec outlon 0 then outlon + 2 * PI else outlon in
            let outlat := asin zsur in
            if deg then Ok (Some (np_rad2deg outlon, np_rad2deg outlat))
            else Ok (Some (outlon, outlat))
    end
end.

End Centroid.

(** ** Concrete inputs for the examples *)

Module Inputs.
Import Mixture.
Local Open Scope R_scope.

(** A one-dimensional grid and a two-dimensional data array. *)
Definition grid_1d : Kde.ndarray := {| Kde.shape := [1%nat]; Kde.flat := [0] |}.
Definition data_2d : Kde.ndarray :=
{| Kde.shape := [1%nat; 1%nat]; Kde.flat := [0] |}.

(** A density that is constant, standing in for scikit-learn's where its
    values do not matter. *)
Definition flat_score : string -> R -> Kde.ndarray -> Kde.ndarray -> list R :=
fun _ _ _ grid => map (fun _ => 0) (Kde.flat grid).

(** Two fitted models of one and of two components, and a third one. *)
Definition sk_params (n : Z) : gmm_params :=
{| n_components := n; other_params := [] |}.

Definition gmm_a : GaussianMixture :=
{| params := sk_params 1; weights_ := [1]; means_ := [0]; covariances_ := [1];
   precisions_ := [1]; precisions_cholesky_ := [1]; converged_ := Some true |}.

Definition gmm_b : GaussianMixture :=
{| params := sk_params 2; weights_ := [1 / 2; 1 / 2]; means_ := [1; 3];
   covariances_ := [4; 1]; precisions_ := [1 / 4; 1];
   precisions_cholesky_ := [1 / 2; 1]; converged_ := Some true |}.

Definition gmm_c : GaussianMixture :=
{| params := sk_params 1; weights_ := [1]; means_ := [7]; covariances_ := [9];
   precisions_ := [1 / 9]; precisions_cholesky_ := [1 / 3];
   converged_ := Some true |}.

(** A generator without state whose draw is the first [k] indices, one of
    the draws [np.random.choice] may return. *)
Definition first_indices : unit -> nat -> nat -> list nat * unit :=
fun g _ k => (seq 0 k, g).

(** A fit that answers [gmm_a] whatever it is given. *)
Definition fit_gmm_a : Z -> list R -> result GaussianMixture :=
fun _ _ => Ok gmm_a.

(** The caller's list: a long vector, a missing one and a short one. *)
Definition three_entries : list (option (list R)) :=
[Some [1; 2; 3]; None; Some [4]].

(** A store holding the five arrays of a fitted model of one component with
    mean [2], and the model. *)
Definition store0 : Scale.store := [[1]; [2]; [1]; [1]; [1]].

Definition model0 : Scale.gmm_object :=
{| Scale.init := Scale.Keywords (sk_params 1);
   Scale.weights_at := 0%nat;
   Scale.means_at := 1%nat;
   Scale.covariances_at := 2%nat;
   Scale.precisions_at := 3%nat;
   Scale.precisions_cholesky_at := 4%nat;
   Scale.converged_attr := Some true |}.

(** The samples drawn for [gmm_a] around a value: [1000] points from [-5]
    to [5]. *)
Definition grid_x (k : nat) : R := -5 + INR k * (10 / 999).
Definition grid : list R := map grid_x (seq 0 (Z.to_nat 1000)).

(** The density of [gmm_a] as [np.exp(gmm.score_samples(...))] yields it at
    the grid point [k]. *)
Definition grid_y (k : nat) : R :=
exp (ln (Sample.mixture_pdf gmm_a (grid_x k))).

End Inputs.

(** ** More inputs for the examples *)

Module MoreInputs.
Import Mixture Inputs.
Local Open Scope R_scope.

(** A fitted model whose fit did not converge. *)
Definition gmm_unconverged : GaussianMixture :=
{| params := sk_params 1; weights_ := [1]; means_ := [0]; covariances_ := [1];
   precisions_ := [1]; precisions_cholesky_ := [1]; converged_ := Some false |}.

(** A fit that never converges. *)
Definition fit_unconverged : Z -> list R -> result GaussianMixture :=
fun _ _ => Ok gmm_unconverged.

(** A fit that refuses a vector of fewer than two points, as scikit-learn
    does with [ValueError]. *)
Definition fit_two_points : Z -> list R -> result GaussianMixture :=
fun _ d =>
  match d with
  | _ :: _ :: _ => Ok gmm_a
  | _ => Raise (ValueError "Expected n_samples >= n_components")
  end.

Definition legacy_fit_two_points : list R -> result GaussianMixture :=
fit_two_points 1.

(** A column of five grid points. *)
Definition column5 : Kde.ndarray :=
{| Kde.shape := [5%nat; 1%nat]; Kde.flat := [1; 2; 3; 4; 5] |}.

(** A log-density that is zero at every row of the grid. *)
Definition zero_score : string -> R -> Kde.ndarray -> Kde.ndarray -> list R :=
fun _ _ _ grid => repeat 0 (Kde.shape0 grid).

(** [model0] as a fit that did not converge leaves it. *)
Definition model_unconverged : Scale.gmm_object :=
{| Scale.init := Scale.Keywords (sk_params 1);
   Scale.weights_at := 0%nat;
   Scale.means_at := 1%nat;
   Scale.covariances_at := 2%nat;
   Scale.precisions_at := 3%nat;
   Scale.precisions_cholesky_at := 4%nat;
   Scale.converged_attr := Some false |}.

(** The store of [model0] with a variance of zero. *)
Definition store_flat : Scale.store := [[1]; [2]; [0]; [1]; [1]].

End MoreInputs.

(** Goals [Forall P [x1; ...; xn]] on explicit lists, split into the [P xi]. *)
Ltac forall_list :=
  repeat match goal with
         | |- Forall _ (_ :: _) => constructor
         | |- Forall _ [] => constructor
         end.

(* ===================================================================== *)
(** * Part II: the properties                                             *)
(* ===================================================================== *)

Module ColorCovarFacts.
Import ColorCovar.
Local Open Scope Q_scope.

Lemma get_color_covar_c00 m1 m2 m3 m4 n1 n2 n3 n4 :
  c00 (get_color_covar m1 m2 m3 m4 n1 n2 n3 n4)
  == np_mean m1 ^ 2 + np_mean m2 ^ 2.
Proof. reflexivity. Qed.

Lemma get_color_covar_c11 m1 m2 m3 m4 n1 n2 n3 n4 :
  c11 (get_color_covar m1 m2 m3 m4 n1 n2 n3 n4)
  == np_mean m3 ^ 2 * np_mean m4 ^ 2.
Proof. reflexivity. Qed.

Lemma get_color_covar_symmetric m1 m2 m3 m4 n1 n2 n3 n4 :
  c01 (get_color_covar m1 m2 m3 m4 n1 n2 n3 n4)
  = c10 (get_color_covar m1 m2 m3 m4 n1 n2 n3 n4).
Proof. reflexivity. Qed.

(** C1: the first diagonal entry is the sum of the squared means of the
    first colour, but at the error arrays [[1]], [[1]], [[1]], [[1]] the
    last diagonal entry is [1], the product of the squared means of the
    second colour, and not their sum [2]. *)
Theorem get_color_covar_c11_is_product_at_ones :
  let m := get_color_covar [1] [1] [1] [1]
             (BandStr "J") (BandStr "H") (BandStr "H") (BandStr "K") in
  c00 m == np_mean [1] ^ 2 + np_mean [1] ^ 2 /\
  c00 m == 2 /\
  c11 m == 1 /\
  ~ c11 m == np_mean [1] ^ 2 + np_mean [1] ^ 2.
Proof.
  cbv zeta. repeat split; try reflexivity.
  vm_compute. discriminate.
Qed.

End ColorCovarFacts.

Module SkyFacts.
Import Sky.
Local Open Scope R_scope.

Lemma haversine_swap (b1 b2 : R) :
  sin ((b1 - b2) / 2) ^ 2 = sin ((b2 - b1) / 2) ^ 2.
Proof.
  replace ((b1 - b2) / 2) with (- ((b2 - b1) / 2)) by lra.
  rewrite sin_neg. ring.
Qed.

Lemma haversine_self (b : R) : sin ((b - b) / 2) ^ 2 = 0.
Proof.
  replace ((b - b) / 2) with 0 by lra. rewrite sin_0. ring.
Qed.

Lemma distance_sky_sym lon1 lat1 lon2 lat2 unit :
  distance_sky lon1 lat1 lon2 lat2 unit = distance_sky lon2 lat2 lon1 lat1 unit.
Proof.
  unfold distance_sky. cbv zeta.
  destruct (has_deg unit).
  - rewrite (haversine_swap (np_radians lat1)),
            (haversine_swap (np_radians lon1)),
            (Rmult_comm (cos (np_radians lat1))). reflexivity.
  - rewrite (haversine_swap lat1), (haversine_swap lon1),
            (Rmult_comm (cos lat1)). reflexivity.
Qed.

Lemma distance_sky_self lon lat unit : distance_sky lon lat lon lat unit = 0.
Proof.
  unfold distance_sky. cbv zeta.
  destruct (has_deg unit); rewrite !haversine_self;
    rewrite Rmult_0_r, Rplus_0_r, sqrt_0, asin_0;
    unfold np_rad2deg; ring.
Qed.

(** C8: [distance_sky] is symmetric in its two points and the distance of
    a point to itself is zero, whatever the unit string. *)
Theorem distance_sky_symmetric_and_zero_on_self :
  forall (lon1 lat1 lon2 lat2 : R) (unit : string),
    distance_sky lon1 lat1 lon2 lat2 unit
    = distance_sky lon2 lat2 lon1 lat1 unit
    /\ distance_sky lon1 lat1 lon1 lat1 unit = 0.
Proof.
  intros. split; [apply distance_sky_sym | apply distance_sky_self].
Qed.

Example has_deg_degrees : has_deg "degrees" = true.
Proof. reflexivity. Qed.

Example has_deg_radians : has_deg "radians" = false.
Proof. reflexivity. Qed.

End SkyFacts.

Module ComponentsFacts.
Import Components.

Lemma clamp_in_range lo hi x : (lo <= hi)%Z -> (lo <= clamp lo hi x <= hi)%Z.
Proof. unfold clamp. lia. Qed.

Lemma clamp_min_max lo hi x :
  (lo <= hi)%Z -> clamp lo hi x = Z.min hi (Z.max lo x).
Proof. unfold clamp. lia. Qed.

Lemma gmm_components_some {A} (d : list A) (max_components npc : Z) :
  npc <> 0%Z ->
  gmm_components (Some d) max_components npc
  = Ok (Some (clamp 1 max_components
                (np_round (inject_Z (Z.of_nat (length d)) / inject_Z npc)))).
Proof.
  intros Hn. unfold gmm_components, ravel, clamp.
  destruct (Z.eqb_spec npc 0) as [|_]; [contradiction|].
  set (n := np_round _). do 2 f_equal.
  destruct (Z.gtb_spec n max_components);
    [destruct (Z.ltb_spec max_components 1)|destruct (Z.ltb_spec n 1)]; lia.
Qed.

Example np_round_half_down : np_round (10 # 20) = 0%Z.
Proof. reflexivity. Qed.

Example np_round_half_up : np_round (30 # 20) = 2%Z.
Proof. reflexivity. Qed.

Example np_round_half_even : np_round (50 # 20) = 2%Z.
Proof. reflexivity. Qed.

Example np_round_above : np_round (51 # 20) = 3%Z.
Proof. reflexivity. Qed.

Lemma all_components_map (ds : list (option (list R))) (max_components : Z) :
  Fit.all_components ds max_components
  = Ok (map (fun d =>
               match d with
               | None => None
               | Some v =>
                   Some (clamp 1 max_components
                           (np_round (inject_Z (Z.of_nat (length v)) / 20)))
               end) ds).
Proof.
  induction ds as [|[v|] ds IH]; cbn [Fit.all_components]; [reflexivity| |].
  - rewrite gmm_components_some by discriminate. rewrite IH. reflexivity.
  - rewrite IH. reflexivity.
Qed.

(** C5: for a data vector [d] that is not [None], [gmm_components] with the
    default [n_per_component = 20] returns [round(len(d) / 20)] (halves to
    even, as numpy and Python round) clamped into [[1, max_components]];
    for [None] it returns [None]; and the list of component counts that
    [mp_gmm] computes holds exactly these values, entry by entry. *)
Theorem gmm_components_round_clamped :
  (forall (d : list R) (max_components : Z),
      gmm_components (Some d) max_components n_per_component_default
      = Ok (Some (clamp 1 max_components
                    (np_round (inject_Z (Z.of_nat (length d)) / 20)))))
  /\ (forall max_components : Z,
         gmm_components (@None (list R)) max_components n_per_component_default
         = Ok None)
  /\ (forall (ds : list (option (list R))) (max_components : Z),
         Fit.all_components ds max_components
         = Ok (map (fun d =>
                      match d with
                      | None => None
                      | Some v =>
                          Some (clamp 1 max_components
                                  (np_round
                                     (inject_Z (Z.of_nat (length v)) / 20)))
                      end) ds)).
Proof.
  split; [|split].
  - intros d mc. apply gmm_components_some. discriminate.
  - reflexivity.
  - apply all_components_map.
Qed.

Example gmm_components_50 :
  gmm_components (Some (repeat 0%R 50)) 5 n_per_component_default = Ok (Some 2%Z).
Proof. reflexivity. Qed.

Example gmm_components_max_zero :
  gmm_components (Some (repeat 0%R 50)) 0 n_per_component_default = Ok (Some 1%Z).
Proof. reflexivity. Qed.

End ComponentsFacts.

Module KdeFacts.
Import Np Kde Inputs.
Local Open Scope R_scope.

Section Validation.

Variable cpu_count : nat.
Variable fit_score_samples : string -> R -> ndarray -> ndarray -> list R.

Lemma mp_kde_config_error grid data bandwidth kernel norm sampling :
  not_sampling sampling = true ->
  mp_kde cpu_count fit_score_samples grid data bandwidth kernel norm true sampling = (Raise config_error, []).
Proof. intros H. unfold mp_kde. rewrite H. reflexivity. Qed.

Lemma mp_kde_dimension_error grid data bandwidth kernel norm absolute sampling :
  absolute && not_sampling sampling = false ->
  ndim grid <> ndim data ->
  mp_kde cpu_count fit_score_samples grid data bandwidth kernel norm absolute sampling
  = (Raise dimension_error, []).
Proof.
  intros H Hd. unfold mp_kde. rewrite H.
  destruct (Nat.eqb_spec (ndim grid) (ndim data)); [contradiction|reflexivity].
Qed.

Lemma normalize_not_validation_error norm mp :
  normalize norm mp <> Raise config_error
  /\ normalize norm mp <> Raise dimension_error.
Proof.
  unfold normalize.
  destruct norm as [nm|]; [|split; discriminate].
  repeat (lazymatch goal with
          | |- context [match ?x with _ => _ end] => destruct x
          end; try (split; discriminate)).
Qed.

Lemma mp_kde_no_validation_error grid data bandwidth kernel norm sampling :
  ndim grid = ndim data ->
  fst (mp_kde cpu_count fit_score_samples grid data bandwidth kernel norm false sampling) <> Raise config_error
  /\ fst (mp_kde cpu_count fit_score_samples grid data bandwidth kernel norm false sampling)
     <> Raise dimension_error.
Proof.
  intros Hd. unfold mp_kde. cbn [andb].
  rewrite Hd, Nat.eqb_refl. cbn [negb].
  unfold array_split.
  destruct (cpu_count =? 0)%nat; cbn [fst]; [split; discriminate|].
  apply normalize_not_validation_error.
Qed.

End Validation.

(** C7, as stated, fails: with [absolute=True], no sampling factor, a grid
    of one axis and data of two axes, the call fails with the configuration
    error and not with the dimensionality error. *)
Lemma mp_kde_mismatch_reports_config_error :
  ndim grid_1d <> ndim data_2d
  /\ fst (mp_kde 2 flat_score grid_1d data_2d 1 "gaussian"%string None true None)
     = Raise config_error
  /\ fst (mp_kde 2 flat_score grid_1d data_2d 1 "gaussian"%string None true None)
     <> Raise dimension_error.
Proof.
  split; [discriminate|]. split; [reflexivity|]. discriminate.
Qed.

(** C7, amended: a call with [absolute=True] and a sampling factor that is
    missing (or zero) fails with the configuration error before any chunk is
    evaluated; any other call whose grid and data differ in their numbers of
    axes fails with the dimensionality error, again before any evaluation;
    and a call with [absolute=False] and equal numbers of axes raises neither
    of the two errors. *)
Theorem mp_kde_validation :
  forall cpu_count fit_score_samples grid data bandwidth kernel norm
         absolute sampling,
    (absolute = true -> not_sampling sampling = true ->
     mp_kde cpu_count fit_score_samples grid data bandwidth kernel norm
            absolute sampling
     = (Raise config_error, []))
    /\ (absolute && not_sampling sampling = false ->
        ndim grid <> ndim data ->
        mp_kde cpu_count fit_score_samples grid data bandwidth kernel norm
               absolute sampling
        = (Raise dimension_error, []))
    /\ (absolute = false -> ndim grid = ndim data ->
        fst (mp_kde cpu_count fit_score_samples grid data bandwidth kernel norm
                    absolute sampling) <> Raise config_error
        /\ fst (mp_kde cpu_count fit_score_samples grid data bandwidth kernel
                       norm absolute sampling) <> Raise dimension_error).
Proof.
  intros. split; [|split].
  - intros -> Hs. apply mp_kde_config_error, Hs.
  - apply mp_kde_dimension_error.
  - intros -> Hd. apply mp_kde_no_validation_error, Hd.
Qed.

Lemma mp_kde_validation_witness :
  mp_kde 2 flat_score grid_1d data_2d 1
         "gaussian"%string None true None
  = (Raise config_error, [])
  /\ mp_kde 2 flat_score grid_1d data_2d 1
            "gaussian"%string None false None
     = (Raise dimension_error, [])
  /\ fst (mp_kde 2 flat_score grid_1d grid_1d 1
              "gaussian"%string None false None) <> Raise config_error.
Proof.
  split; [|split].
  - apply (mp_kde_validation 2 flat_score
             grid_1d data_2d 1 "gaussian"%string None true None);
      reflexivity.
  - apply (mp_kde_validation 2 flat_score
             grid_1d data_2d 1 "gaussian"%string None false None);
      [reflexivity | discriminate].
  - apply (mp_kde_validation 2 flat_score
             grid_1d grid_1d 1 "gaussian"%string None false None);
      reflexivity.
Defined.

End KdeFacts.

Module NpFacts.
Import Np.
Local Open Scope R_scope.

Lemma np_sum_nil : np_sum [] = 0.
Proof. reflexivity. Qed.

Lemma np_sum_cons x a : np_sum (x :: a) = x + np_sum a.
Proof. reflexivity. Qed.

Lemma np_sum_app a b : np_sum (a ++ b) = np_sum a + np_sum b.
Proof.
  induction a as [|x a IH].
  - rewrite app_nil_l, np_sum_nil. lra.
  - rewrite <- app_comm_cons, !np_sum_cons, IH. lra.
Qed.

Lemma np_sum_scale a w : np_sum (map (fun x => x * w) a) = np_sum a * w.
Proof.
  induction a as [|x a IH]; [cbn; lra|].
  cbn [map]. rewrite !np_sum_cons, IH. lra.
Qed.

Lemma np_sum_divide a d : np_sum (map (fun x => x / d) a) = np_sum a / d.
Proof.
  induction a as [|x a IH]; [cbn; lra|].
  cbn [map]. rewrite !np_sum_cons, IH. lra.
Qed.

Lemma np_sum_nonneg a : Forall (fun x => 0 <= x) a -> 0 <= np_sum a.
Proof.
  induction 1 as [|x a Hx _ IH]; [cbn; lra|]. rewrite np_sum_cons. lra.
Qed.

Lemma linalg_inv_ok a :
  Forall (fun c => c <> 0) a -> linalg_inv a = Ok (map Rinv a).
Proof.
  intros H. unfold linalg_inv.
  replace (forallb _ a) with true; [reflexivity|].
  symmetry. induction H as [|c a Hc _ IH]; [reflexivity|].
  cbn [forallb]. destruct (Req_dec_T c 0); [contradiction|exact IH].
Qed.

Lemma linalg_cholesky_ok a :
  Forall (fun c => 0 < c) a -> linalg_cholesky a = Ok (map sqrt a).
Proof.
  intros H. unfold linalg_cholesky.
  replace (forallb _ a) with true; [reflexivity|].
  symmetry. induction H as [|c a Hc _ IH]; [reflexivity|].
  cbn [forallb]. destruct (Rlt_dec 0 c); [exact IH|contradiction].
Qed.

Lemma linalg_inv_cholesky_ok a :
  Forall (fun c => 0 < c) a ->
  linalg_inv a = Ok (map Rinv a)
  /\ linalg_cholesky (map Rinv a) = Ok (map sqrt (map Rinv a)).
Proof.
  intros H. split.
  - apply linalg_inv_ok. eapply Forall_impl; [exact H|].
    cbn. intros c Hc. lra.
  - apply linalg_cholesky_ok. apply Forall_map.
    eapply Forall_impl; [exact H|].
    cbn. intros c Hc. apply Rinv_0_lt_compat, Hc.
Qed.

End NpFacts.

Module CombineFacts.
Import Mixture Np NpFacts Combine Inputs.
Local Open Scope R_scope.

Lemma all_instances gs :
  (count_true (map isinstance_gmm (map PyGmm gs))
   =? length (map PyGmm gs))%nat = true.
Proof.
  apply Nat.eqb_eq. induction gs as [|g gs IH]; [reflexivity|].
  cbn. f_equal. exact IH.
Qed.

(** The loop appends the arrays of as many models as there are weights. *)
Lemma build_components_eq gs : forall ws m v w,
  build_components (m, v, w) (map PyGmm gs) ws
  = (m ++ concat (map means_ (take (length ws) gs)),
     v ++ concat (map covariances_ (take (length ws) gs)),
     w ++ concat (zip_with scaled_weights gs ws)).
Proof.
  induction gs as [|g gs IH]; intros ws m v w.
  - cbn. destruct ws; cbn; rewrite !app_nil_r; reflexivity.
  - destruct ws as [|w1 ws]; cbn [map build_components].
    + cbn. rewrite !app_nil_r. reflexivity.
    + rewrite IH. cbn [length take map concat zip_with].
      rewrite <- !app_assoc. reflexivity.
Qed.

Lemma combine_gmms_ok g0 gs w0 wrest :
  Forall (fun c => 0 < c) (combined_covariances g0 gs wrest) ->
  combine_gmms (PyList (map PyGmm (g0 :: gs))) (Some (w0 :: wrest))
  = Ok {| params := params g0;
          means_ := combined_means g0 gs wrest;
          covariances_ := combined_covariances g0 gs wrest;
          weights_ :=
            map (fun x => x / np_sum (combined_weights g0 gs w0 wrest))
                (combined_weights g0 gs w0 wrest);
          precisions_ := map Rinv (combined_covariances g0 gs wrest);
          precisions_cholesky_ :=
            map sqrt (map Rinv (combined_covariances g0 gs wrest));
          converged_ := None |}.
Proof.
  intros Hc. unfold combine_gmms.
  rewrite all_instances. cbn [negb map].
  fold (scaled_weights g0 w0). rewrite build_components_eq.
  fold (combined_means g0 gs wrest) (combined_covariances g0 gs wrest)
       (combined_weights g0 gs w0 wrest).
  destruct (linalg_inv_cholesky_ok _ Hc) as [-> ->]. reflexivity.
Qed.

Lemma positive_covariances_take gs n :
  Forall fitted gs ->
  Forall (fun c => 0 < c) (concat (map covariances_ (take n gs))).
Proof.
  intros H. revert n. induction H as [|g gs Hg _ IH]; intros [|n]; cbn;
    try constructor.
  apply Forall_app. split; [apply Hg|apply IH].
Qed.

Lemma scaled_weights_nonneg g w :
  fitted g -> 0 < w -> Forall (fun x => 0 <= x) (scaled_weights g w).
Proof.
  intros (Hw & _ & _) Hpos. unfold scaled_weights. apply Forall_map.
  eapply Forall_impl; [exact Hw|]. cbn. intros x Hx. nra.
Qed.

Lemma scaled_weights_sum g w : fitted g -> np_sum (scaled_weights g w) = w.
Proof.
  intros (_ & Hs & _). unfold scaled_weights. rewrite np_sum_scale, Hs. lra.
Qed.

Lemma zipped_weights_nonneg gs : forall ws,
  Forall fitted gs -> Forall (fun w => 0 < w) ws ->
  Forall (fun x => 0 <= x) (concat (zip_with scaled_weights gs ws)).
Proof.
  induction gs as [|g gs IH]; intros ws Hg Hw; [constructor|].
  destruct ws as [|w ws]; [constructor|].
  inversion Hg; inversion Hw; subst. cbn. apply Forall_app. split.
  - apply scaled_weights_nonneg; assumption.
  - apply IH; assumption.
Qed.

Lemma combined_weights_nonneg g0 gs w0 wrest :
  Forall fitted (g0 :: gs) -> Forall (fun w => 0 < w) (w0 :: wrest) ->
  Forall (fun x => 0 <= x) (combined_weights g0 gs w0 wrest)
  /\ 0 < np_sum (combined_weights g0 gs w0 wrest).
Proof.
  intros Hg Hw. inversion Hg; inversion Hw; subst.
  assert (Hz := zipped_weights_nonneg gs wrest ltac:(assumption) ltac:(assumption)).
  split.
  - apply Forall_app. split; [apply scaled_weights_nonneg; assumption|exact Hz].
  - unfold combined_weights. rewrite np_sum_app, scaled_weights_sum by assumption.
    apply np_sum_nonneg in Hz. lra.
Qed.

Lemma normalized_weights ws :
  Forall (fun x => 0 <= x) ws -> 0 < np_sum ws ->
  Forall (fun x => 0 <= x) (map (fun x => x / np_sum ws) ws)
  /\ np_sum (map (fun x => x / np_sum ws) ws) = 1.
Proof.
  intros Hn Hs. split.
  - apply Forall_map. eapply Forall_impl; [exact Hn|]. cbn. intros x Hx.
    apply Rmult_le_pos; [exact Hx|]. left. apply Rinv_0_lt_compat, Hs.
  - rewrite np_sum_divide. field. lra.
Qed.

Lemma combine_gmms_fitted g0 gs w0 wrest :
  Forall fitted (g0 :: gs) -> Forall (fun w => 0 < w) (w0 :: wrest) ->
  exists g,
    combine_gmms (PyList (map PyGmm (g0 :: gs))) (Some (w0 :: wrest)) = Ok g
    /\ Forall (fun x => 0 <= x) (weights_ g)
    /\ np_sum (weights_ g) = 1.
Proof.
  intros Hg Hw. eexists. split.
  - apply combine_gmms_ok. inversion Hg; subst.
    apply Forall_app. split; [apply H1|].
    apply positive_covariances_take. assumption.
  - cbn [weights_]. apply normalized_weights;
      apply (combined_weights_nonneg g0 gs w0 wrest Hg Hw).
Qed.

Lemma unit_weights_positive {A} (l : list A) :
  Forall (fun w => 0 < w) (repeat 1 (length l)).
Proof. induction l; cbn; constructor; [lra|assumption]. Qed.

Lemma map_identity (f : R -> R) l : (forall x, f x = x) -> map f l = l.
Proof.
  intros H. induction l as [|x l IH]; [reflexivity|].
  cbn. rewrite H, IH. reflexivity.
Qed.

Lemma combine_gmms_single m :
  fitted m ->
  exists g,
    combine_gmms (PyList [PyGmm m]) None = Ok g
    /\ n_components (params g) = n_components (params m)
    /\ length (weights_ g) = length (weights_ m)
    /\ weights_ g = weights_ m
    /\ means_ g = means_ m
    /\ covariances_ g = covariances_ m.
Proof.
  intros Hm.
  assert (Hw : weights_ m
               = map (fun x => x / np_sum (combined_weights m [] 1 []))
                     (combined_weights m [] 1 [])).
  { unfold combined_weights. cbn [zip_with concat]. rewrite app_nil_r.
    rewrite scaled_weights_sum by exact Hm.
    unfold scaled_weights. rewrite map_map. symmetry.
    apply map_identity. intros x. field. }
  eexists. split.
  - unfold unit_weights. change (PyList [PyGmm m]) with (PyList (map PyGmm [m])).
    unfold combine_gmms at 1. cbn [unit_weights length map repeat].
    apply (combine_gmms_ok m [] 1 []).
    unfold combined_covariances. cbn. rewrite app_nil_r. apply Hm.
  - cbn [params weights_ means_ covariances_]. rewrite <- Hw.
    unfold combined_means, combined_covariances. cbn. rewrite !app_nil_r.
    repeat split; reflexivity.
Qed.

Lemma combine_gmms_default_weights l :
  combine_gmms (PyList l) None = combine_gmms (PyList l) (Some (unit_weights l)).
Proof. reflexivity. Qed.

(** C6: for a non-empty list of fitted models and positive combination
    weights covering all of them (given, or the default ones), [combine_gmms]
    returns a model whose weights are not negative and sum to one; and
    [combine_gmms([m], weights=None)] returns a model with the component
    count, weights, means and covariances of [m]. *)
Theorem combine_gmms_weights_normalized :
  (forall g0 gs ws,
      Forall fitted (g0 :: gs) -> Forall (fun w => 0 < w) ws ->
      (length (g0 :: gs) <= length ws)%nat ->
      exists g,
        combine_gmms (PyList (map PyGmm (g0 :: gs))) (Some ws) = Ok g
        /\ Forall (fun x => 0 <= x) (weights_ g)
        /\ np_sum (weights_ g) = 1)
  /\ (forall g0 gs,
         Forall fitted (g0 :: gs) ->
         exists g,
           combine_gmms (PyList (map PyGmm (g0 :: gs))) None = Ok g
           /\ Forall (fun x => 0 <= x) (weights_ g)
           /\ np_sum (weights_ g) = 1)
  /\ (forall m,
         fitted m ->
         exists g,
           combine_gmms (PyList [PyGmm m]) None = Ok g
           /\ n_components (params g) = n_components (params m)
           /\ length (weights_ g) = length (weights_ m)
           /\ weights_ g = weights_ m
           /\ means_ g = means_ m
           /\ covariances_ g = covariances_ m).
Proof.
  split; [|split].
  - intros g0 gs [|w0 wrest] Hg Hw Hlen; [cbn in Hlen; lia|].
    apply combine_gmms_fitted; assumption.
  - intros g0 gs Hg. rewrite combine_gmms_default_weights.
    unfold unit_weights. cbn [map length repeat].
    apply (combine_gmms_fitted g0 gs 1 (repeat 1 (length (map PyGmm gs))) Hg).
    apply (unit_weights_positive (PyGmm g0 :: map PyGmm gs)).
  - apply combine_gmms_single.
Qed.

Lemma fitted_gmm_a : fitted gmm_a.
Proof.
  unfold fitted, gmm_a; cbn. repeat split; forall_list; lra.
Qed.

Lemma fitted_gmm_b : fitted gmm_b.
Proof.
  unfold fitted, gmm_b; cbn. repeat split; forall_list; lra.
Qed.

Lemma combine_gmms_weights_normalized_witness :
  (exists g,
      combine_gmms (PyList (map PyGmm [gmm_a; gmm_b])) (Some [2; 3]) = Ok g
      /\ Forall (fun x => 0 <= x) (weights_ g)
      /\ np_sum (weights_ g) = 1)
  /\ (exists g,
         combine_gmms (PyList [PyGmm gmm_b]) None = Ok g
         /\ n_components (params g) = n_components (params gmm_b)
         /\ length (weights_ g) = length (weights_ gmm_b)
         /\ weights_ g = weights_ gmm_b
         /\ means_ g = means_ gmm_b
         /\ covariances_ g = covariances_ gmm_b).
Proof.
  split.
  - apply (proj1 combine_gmms_weights_normalized gmm_a [gmm_b] [2; 3]).
    + forall_list; [apply fitted_gmm_a | apply fitted_gmm_b].
    + forall_list; lra.
    + cbn. lia.
  - apply (proj2 (proj2 combine_gmms_weights_normalized) gmm_b).
    apply fitted_gmm_b.
Defined.

Lemma zip_with_take_weights gs : forall ws : list R,
  zip_with scaled_weights (take (length ws) gs) ws
  = zip_with scaled_weights gs ws.
Proof.
  induction gs as [|g gs IH]; intros [|w ws]; cbn; try reflexivity.
  rewrite IH. reflexivity.
Qed.

Lemma zipped_weights_length gs : forall ws : list R,
  length (concat (zip_with scaled_weights gs ws))
  = length (concat (map weights_ (take (length ws) gs))).
Proof.
  induction gs as [|g gs IH]; intros [|w ws]; cbn; try reflexivity.
  rewrite !length_app, IH. unfold scaled_weights. rewrite length_map.
  reflexivity.
Qed.

(** C10: with [n >= 2] models and an explicit list of [k] weights,
    [1 <= k < n], [combine_gmms] raises nothing and returns a model whose
    arrays are those of the first [k] models only: it answers what it
    answers on the first [k] models alone. *)
Theorem combine_gmms_short_weights_truncate :
  forall gs ws,
    (2 <= length gs)%nat ->
    (1 <= length ws < length gs)%nat ->
    Forall (fun g => Forall (fun c => 0 < c) (covariances_ g))
           (take (length ws) gs) ->
    exists g,
      combine_gmms (PyList (map PyGmm gs)) (Some ws) = Ok g
      /\ combine_gmms (PyList (map PyGmm (take (length ws) gs))) (Some ws) = Ok g
      /\ means_ g = concat (map means_ (take (length ws) gs))
      /\ covariances_ g = concat (map covariances_ (take (length ws) gs))
      /\ length (weights_ g)
         = length (concat (map weights_ (take (length ws) gs))).
Proof.
  intros [|g0 gs] [|w0 wrest] Hn Hk Hc; cbn [length] in *; try lia.
  cbn [take] in *. inversion Hc as [|? ? Hc0 Hcs]; subst.
  assert (Hpos : Forall (fun c => 0 < c) (combined_covariances g0 gs wrest)).
  { apply Forall_app. split; [exact Hc0|].
    clear -Hcs. induction Hcs as [|g l Hg _ IH]; cbn; [constructor|].
    apply Forall_app. split; assumption. }
  assert (Htake : take (length wrest) (take (length wrest) gs)
                  = take (length wrest) gs).
  { rewrite take_take. f_equal. lia. }
  eexists. split; [apply combine_gmms_ok, Hpos|]. split.
  - rewrite combine_gmms_ok.
    + unfold combined_means, combined_covariances, combined_weights.
      rewrite Htake, zip_with_take_weights. reflexivity.
    + unfold combined_covariances. rewrite Htake. exact Hpos.
  - cbn [means_ covariances_ weights_].
    unfold combined_means, combined_covariances, combined_weights.
    cbn [map concat]. repeat split; try reflexivity.
    rewrite length_map, !length_app. unfold scaled_weights at 1.
    rewrite length_map. f_equal. apply zipped_weights_length.
Qed.

Lemma combine_gmms_short_weights_truncate_witness :
  exists g,
    combine_gmms (PyList (map PyGmm [gmm_a; gmm_b; gmm_c])) (Some [2; 3]) = Ok g
    /\ combine_gmms (PyList (map PyGmm [gmm_a; gmm_b])) (Some [2; 3]) = Ok g
    /\ means_ g = [0; 1; 3]
    /\ covariances_ g = [1; 4; 1]
    /\ length (weights_ g) = 3%nat.
Proof.
  apply (combine_gmms_short_weights_truncate [gmm_a; gmm_b; gmm_c] [2; 3]).
  - cbn. lia.
  - cbn. lia.
  - cbn [length take]. forall_list; unfold gmm_a, gmm_b; cbn [covariances_];
      forall_list; lra.
Defined.

End CombineFacts.

Module FitFacts.
Import Mixture Components Fit Inputs.

Section Subsampling.

Variable rng : Type.
Variable np_random_choice : rng -> nat -> nat -> list nat * rng.
Variable fit : Z -> list R -> result GaussianMixture.

(** Drawing [k <= n] indices without replacement yields [k] distinct indices
    below [n]. *)
Hypothesis choice_spec : forall g n k,
  (k <= n)%nat ->
  length (fst (np_random_choice g n k)) = k
  /\ NoDup (fst (np_random_choice g n k))
  /\ Forall (fun i => (i < n)%nat) (fst (np_random_choice g n k)).

Lemma take_indices_ok (d : list R) ridx :
  Forall (fun i => (i < length d)%nat) ridx ->
  exists d', take_indices d ridx = Ok d' /\ length d' = length ridx.
Proof.
  induction 1 as [|i ridx Hi _ (d' & Hd & Hl)]; [exists []; split; reflexivity|].
  destruct (lookup_lt_is_Some_2 d i Hi) as [x Hx].
  exists (x :: d'). cbn [take_indices]. rewrite Hx, Hd. split; [reflexivity|].
  cbn. rewrite Hl. reflexivity.
Qed.

Lemma subsample_spec (m : Z) : forall idxs (w : world rng),
  (0 <= m)%Z ->
  NoDup idxs ->
  Forall (fun i => (i < length (data w))%nat) idxs ->
  exists w',
    subsample rng np_random_choice m idxs w = (Ok tt, w')
    /\ length (data w') = length (data w)
    /\ (forall i, i ∉ idxs -> data w' !! i = data w !! i)
    /\ (forall i e, i ∈ idxs -> data w !! i = Some e ->
        exists e', data w' !! i = Some e' /\ entry_after m e e').
Proof.
  intros idxs w Hm. revert w.
  induction idxs as [|idx rest IH]; intros w Hnd Hlt.
  - exists w. cbn. repeat split; try reflexivity.
    intros i e Hi. inversion Hi.
  - apply NoDup_cons in Hnd as [Hnotin Hnd].
    apply Forall_cons in Hlt as [Hidx Hlt].
    destruct (lookup_lt_is_Some_2 _ _ Hidx) as [e He].
    cbn [subsample]. rewrite He.
    (* the state after the body of iteration [idx], and its entry there *)
    assert (Hstep : exists w1 e1,
               length (data w1) = length (data w)
               /\ (forall i, i <> idx -> data w1 !! i = data w !! i)
               /\ data w1 !! idx = Some e1 /\ entry_after m e e1
               /\ match e with
                  | None => subsample rng np_random_choice m rest w
                  | Some d =>
                      if (Z.of_nat (length d) >? m)%Z
                      then
                        if (m <? 0)%Z
                        then (Raise (ValueError "negative dimensions are not allowed"), w)
                        else
                          let '(ridx, g) :=
                            np_random_choice (gen w) (length d) (Z.to_nat m) in
                          match take_indices d ridx with
                          | Raise e' => (Raise e', {| data := data w; gen := g |})
                          | Ok d' =>
                              subsample rng np_random_choice m rest
                                {| data := <[idx := Some d']> (data w); gen := g |}
                          end
                      else subsample rng np_random_choice m rest w
                  end = subsample rng np_random_choice m rest w1).
    { destruct e as [d|].
      - destruct (Z.gtb_spec (Z.of_nat (length d)) m) as [Hgt|Hle].
        + destruct (Z.ltb_spec m 0) as [|_]; [lia|].
          destruct (choice_spec (gen w) (length d) (Z.to_nat m) ltac:(lia))
            as (Hlen & Hdup & Hrange).
          destruct (np_random_choice (gen w) (length d) (Z.to_nat m))
            as [ridx g] eqn:Hch. cbn [fst] in *.
          destruct (take_indices_ok d ridx Hrange) as (d' & Hd' & Hl').
          rewrite Hd'.
          exists {| data := <[idx := Some d']> (data w); gen := g |}, (Some d').
          cbn [data]. split; [apply length_insert|].
          split; [intros i Hi; apply list_lookup_insert_ne; congruence|].
          split; [apply list_lookup_insert_eq; exact Hidx|].
          split; [|reflexivity].
          unfold entry_after.
          destruct (Z.gtb_spec (Z.of_nat (length d)) m); [|lia].
          exists ridx, d'. repeat split; try assumption. lia.
        + exists w, (Some d). repeat split; try assumption.
          unfold entry_after.
          destruct (Z.gtb_spec (Z.of_nat (length d)) m); [lia|reflexivity].
      - exists w, None. repeat split; try assumption. }
    destruct Hstep as (w1 & e1 & Hlen1 & Hother1 & Hat1 & Hentry1 & ->).
    destruct (IH w1 Hnd) as (w' & Hrun & Hlen' & Hout & Hin).
    { rewrite Hlen1. exact Hlt. }
    exists w'. split; [exact Hrun|]. split; [congruence|]. split.
    + intros i Hi. apply not_elem_of_cons in Hi as [Hne Hi].
      rewrite (Hout i Hi). apply Hother1, Hne.
    + intros i e0 Hi Hlook. apply elem_of_cons in Hi as [->|Hi].
      * rewrite (Hout idx Hnotin), Hat1. exists e1. split; [reflexivity|].
        congruence.
      * assert (Hne : i <> idx) by (intros ->; contradiction).
        apply (Hin i e0 Hi). rewrite Hother1 by exact Hne. exact Hlook.
Qed.

Lemma mp_gmm_final_world max_components parallel (m : Z) (w : world rng) :
  (0 <= m)%Z ->
  exists w',
    subsample rng np_random_choice m (seq 0 (length (data w))) w = (Ok tt, w')
    /\ snd (mp_gmm rng np_random_choice fit max_components parallel (Some m) w)
       = w'.
Proof.
  intros Hm.
  destruct (subsample_spec m (seq 0 (length (data w))) w Hm) as (w' & Hrun & _).
  { apply NoDup_seq. }
  { apply Forall_seq. intros j Hj. lia. }
  exists w'. split; [exact Hrun|].
  unfold mp_gmm. rewrite ComponentsFacts.all_components_map, Hrun.
  destruct (_ && _); reflexivity.
Qed.

Lemma mp_gmm_mutates max_components parallel (m : Z) (w : world rng) :
  (0 <= m)%Z ->
  let w' := snd (mp_gmm rng np_random_choice fit max_components parallel
                        (Some m) w) in
  length (data w') = length (data w)
  /\ forall idx e, data w !! idx = Some e ->
       exists e', data w' !! idx = Some e' /\ entry_after m e e'.
Proof.
  intros Hm.
  destruct (mp_gmm_final_world max_components parallel m w Hm)
    as (w' & Hrun & Hsnd).
  cbv zeta. rewrite Hsnd.
  destruct (subsample_spec m (seq 0 (length (data w))) w Hm)
    as (w2 & Hrun2 & Hlen & _ & Hin).
  { apply NoDup_seq. }
  { apply Forall_seq. intros j Hj. lia. }
  rewrite Hrun in Hrun2. injection Hrun2 as <-.
  split; [exact Hlen|].
  intros idx e He. apply Hin; [|exact He].
  apply elem_of_seq. apply lookup_lt_Some in He. lia.
Qed.

(** C9: [mp_gmm] assigns to the entries of the list it is given.  After the
    call (with a subset size [ndata_max >= 0]) the caller's list has its old
    length; an entry longer than [ndata_max] has been replaced by exactly
    [ndata_max] of its elements, taken at distinct random positions; an entry
    of at most [ndata_max] elements and a [None] entry are what they were. *)
Theorem mp_gmm_subsamples_caller_list :
  forall max_components parallel (m : Z) (w : world rng),
    (0 <= m)%Z ->
    let w' := snd (mp_gmm rng np_random_choice fit max_components parallel
                          (Some m) w) in
    length (data w') = length (data w)
    /\ (forall idx d,
          data w !! idx = Some (Some d) -> (Z.of_nat (length d) > m)%Z ->
          exists ridx d',
            NoDup ridx
            /\ Forall (fun i => (i < length d)%nat) ridx
            /\ take_indices d ridx = Ok d'
            /\ length d' = Z.to_nat m
            /\ data w' !! idx = Some (Some d'))
    /\ (forall idx d,
          data w !! idx = Some (Some d) -> (Z.of_nat (length d) <= m)%Z ->
          data w' !! idx = Some (Some d))
    /\ (forall idx, data w !! idx = Some None -> data w' !! idx = Some None).
Proof.
  intros mc parallel m w Hm.
  destruct (mp_gmm_mutates mc parallel m w Hm) as [Hlen Hall].
  cbv zeta. split; [exact Hlen|]. split; [|split].
  - intros idx d Hd Hgt.
    destruct (Hall idx _ Hd) as (e' & He' & Hentry).
    unfold entry_after in Hentry.
    destruct (Z.gtb_spec (Z.of_nat (length d)) m); [|lia].
    destruct Hentry as (ridx & d' & H1 & H2 & H3 & H4 & ->).
    exists ridx, d'. repeat split; assumption.
  - intros idx d Hd Hle.
    destruct (Hall idx _ Hd) as (e' & He' & Hentry).
    unfold entry_after in Hentry.
    destruct (Z.gtb_spec (Z.of_nat (length d)) m); [lia|]. congruence.
  - intros idx Hd.
    destruct (Hall idx _ Hd) as (e' & He' & Hentry).
    cbn in Hentry. congruence.
Qed.

End Subsampling.

Lemma first_indices_spec : forall (g : unit) n k,
  (k <= n)%nat ->
  length (fst (first_indices g n k)) = k
  /\ NoDup (fst (first_indices g n k))
  /\ Forall (fun i => (i < n)%nat) (fst (first_indices g n k)).
Proof.
  intros g n k Hk. cbn [first_indices fst]. split; [apply length_seq|].
  split; [apply NoDup_seq|]. apply Forall_seq. intros j Hj. lia.
Qed.

Lemma mp_gmm_subsamples_caller_list_witness :
  let w' := snd (mp_gmm unit first_indices fit_gmm_a 3 false (Some 2%Z)
                        (World three_entries tt)) in
  length (data w') = 3%nat
  /\ (exists ridx d',
         NoDup ridx
         /\ Forall (fun i => (i < 3)%nat) ridx
         /\ take_indices [1; 2; 3]%R ridx = Ok d'
         /\ length d' = 2%nat
         /\ data w' !! 0%nat = Some (Some d'))
  /\ data w' !! 2%nat = Some (Some [4%R])
  /\ data w' !! 1%nat = Some None.
Proof.
  destruct (mp_gmm_subsamples_caller_list unit first_indices fit_gmm_a
              first_indices_spec 3 false 2 (World three_entries tt)
              ltac:(lia)) as (Hlen & Hlong & Hshort & Hnone).
  cbv zeta. split; [exact Hlen|]. split; [|split].
  - apply (Hlong 0%nat [1; 2; 3]%R); [reflexivity|cbn; lia].
  - apply (Hshort 2%nat [4%R]); [reflexivity|cbn; lia].
  - apply (Hnone 1%nat). reflexivity.
Defined.

Example mp_gmm_three_entries :
  data (snd (mp_gmm unit first_indices fit_gmm_a 3 false (Some 2%Z)
                    (World three_entries tt)))
  = [Some [1; 2]%R; None; Some [4%R]].
Proof. reflexivity. Qed.

End FitFacts.

Module ScaleFacts.
Import Mixture Np Scale Inputs.
Local Open Scope R_scope.

(** *** Rules for [keeps] *)

Lemma extends_refl h : extends h h.
Proof. split; [lia|reflexivity]. Qed.

Lemma keeps_ret {A} h0 (a : A) (Q : A -> Prop) : Q a -> keeps h0 (ret a) Q.
Proof.
  intros HQ h Hh. cbn. split; [exact Hh|]. intros a' [= <-]. exact HQ.
Qed.

Lemma keeps_lift {A} h0 (r : result A) : keeps h0 (lift r) (fun _ => True).
Proof. intros h Hh. cbn. split; [exact Hh|]. intros; exact I. Qed.

Lemma keeps_bind {A B} h0 (m : M A) (f : A -> M B) (P : A -> Prop)
      (Q : B -> Prop) :
  keeps h0 m P -> (forall a, P a -> keeps h0 (f a) Q) -> keeps h0 (bind m f) Q.
Proof.
  intros Hm Hf h Hh. unfold bind.
  destruct (Hm h Hh) as [Hext HP].
  destruct (m h) as [[a|e] h'] eqn:Hmh; cbn [fst snd] in *.
  - apply (Hf a (HP a eq_refl) h' Hext).
  - split; [exact Hext|]. intros a [=].
Qed.

Lemma keeps_weaken {A} h0 (m : M A) (P Q : A -> Prop) :
  keeps h0 m P -> (forall a, P a -> Q a) -> keeps h0 m Q.
Proof.
  intros Hm HPQ h Hh. destruct (Hm h Hh) as [Hext HP].
  split; [exact Hext|]. intros a Ha. apply HPQ, HP, Ha.
Qed.

(** A new array lies beyond the arrays of [h0]. *)
Lemma keeps_alloc h0 (a : list R) :
  keeps h0 (alloc a) (fun l => (length h0 <= l)%nat).
Proof.
  intros h [Hlen Hsame]. cbn [alloc fst snd]. split.
  - split; [rewrite length_app; lia|].
    intros l Hl. rewrite lookup_app_l by lia. apply Hsame, Hl.
  - intros l [= <-]. exact Hlen.
Qed.

Lemma keeps_load h0 l : keeps h0 (load l) (fun _ => True).
Proof.
  intros h Hh. unfold load. destruct (h !! l); cbn; split; auto.
Qed.

(** An update in place is harmless beyond the arrays of [h0]. *)
Lemma keeps_update h0 l f :
  (length h0 <= l)%nat -> keeps h0 (update l f) (fun _ => True).
Proof.
  intros Hl h [Hlen Hsame]. unfold update.
  destruct (h !! l) as [a|]; cbn [fst snd]; (split; [|auto]).
  - split; [rewrite length_insert; exact Hlen|].
    intros l' Hl'. rewrite list_lookup_insert_ne by lia. apply Hsame, Hl'.
  - split; assumption.
Qed.

Lemma keeps_fresh_from h0 l f :
  keeps h0 (fresh_from l f) (fun l' => (length h0 <= l')%nat).
Proof.
  unfold fresh_from. eapply keeps_bind; [apply keeps_load|].
  intros a _. apply keeps_alloc.
Qed.

Lemma keeps_fresh_from_result h0 l f :
  keeps h0 (fresh_from_result l f) (fun l' => (length h0 <= l')%nat).
Proof.
  unfold fresh_from_result. eapply keeps_bind; [apply keeps_load|].
  intros a _. eapply keeps_bind; [apply keeps_lift|].
  intros a' _. apply keeps_alloc.
Qed.

(** Any answer will do. *)
Lemma keeps_any {A} h0 (m : M A) (P : A -> Prop) :
  keeps h0 m P -> keeps h0 m (fun _ => True).
Proof. intros H. eapply keeps_weaken; [exact H|]. intros; exact I. Qed.

Lemma extends_fitted_arrays h h' gmm :
  valid h gmm -> extends h h' -> fitted_arrays h' gmm = fitted_arrays h gmm.
Proof.
  intros (H1 & H2 & H3 & H4 & H5) [_ Hsame]. unfold fitted_arrays.
  rewrite !Hsame by assumption. reflexivity.
Qed.

(** With a shift given, [gmm_scale] works on arrays of its own. *)
Lemma gmm_scale_shifted_keeps h0 gmm d scale reverse params :
  keeps h0 (gmm_scale gmm (Some d) scale reverse params) (fun _ => True).
Proof.
  unfold gmm_scale.
  eapply keeps_bind; [apply keeps_fresh_from|]. intros new_means Hm.
  apply keeps_bind with (P := fun _ => True);
    [destruct scale; [apply keeps_update, Hm|apply keeps_ret, I]|].
  intros _ _.
  apply keeps_bind with (P := fun _ => True);
    [destruct scale;
     [eapply keeps_any, keeps_fresh_from|apply keeps_ret, I]|].
  intros new_cov _.
  apply keeps_bind with (P := fun _ => True);
    [destruct scale;
     [eapply keeps_any, keeps_fresh_from_result|apply keeps_ret, I]|].
  intros new_prec _.
  apply keeps_bind with (P := fun _ => True);
    [destruct scale;
     [eapply keeps_any, keeps_fresh_from_result|apply keeps_ret, I]|].
  intros new_chol _.
  apply keeps_bind with (P := fun _ => True);
    [destruct reverse; [apply keeps_update, Hm|apply keeps_ret, I]|].
  intros _ _.
  apply keeps_bind with (P := fun _ => True);
    [destruct (converged_attr gmm); [apply keeps_ret, I|apply keeps_lift]|].
  intros c _. apply keeps_ret, I.
Qed.

Lemma gmm_scale_shifted_leaves_input h gmm d scale reverse params :
  valid h gmm ->
  fitted_arrays (snd (gmm_scale gmm (Some d) scale reverse params h)) gmm
  = fitted_arrays h gmm.
Proof.
  intros Hv. apply extends_fitted_arrays; [exact Hv|].
  apply (gmm_scale_shifted_keeps h gmm d scale reverse params h),
        extends_refl.
Qed.

(** The routine of [utils.py] always works on arrays of its own. *)
Lemma gmm_scale_legacy_keeps h0 gmm shift scale reverse params :
  keeps h0 (gmm_scale_legacy gmm shift scale reverse params) (fun _ => True).
Proof.
  unfold gmm_scale_legacy.
  eapply keeps_bind; [apply keeps_fresh_from|]. intros new_means Hm.
  eapply keeps_bind; [apply keeps_update, Hm|]. intros _ _.
  eapply keeps_bind;
    [destruct reverse; [apply keeps_update, Hm|apply keeps_ret, I]|].
  intros _ _.
  eapply keeps_bind; [apply keeps_fresh_from|]. intros new_cov _.
  eapply keeps_bind; [apply keeps_fresh_from_result|]. intros new_prec _.
  eapply keeps_bind; [apply keeps_fresh_from_result|]. intros new_chol _.
  apply keeps_ret, I.
Qed.

Lemma gmm_scale_legacy_leaves_input h gmm shift scale reverse params :
  valid h gmm ->
  fitted_arrays (snd (gmm_scale_legacy gmm shift scale reverse params h)) gmm
  = fitted_arrays h gmm.
Proof.
  intros Hv. apply extends_fitted_arrays; [exact Hv|].
  apply (gmm_scale_legacy_keeps h gmm shift scale reverse params h),
        extends_refl.
Qed.

(** C2: the routine of [gmm.py] changes the model it is given.  Called on
    [model0] without shift and scale and with [reverse=True], it answers a
    model that shares the array of means with [model0] and negates that array
    in place: the means of [model0] are [2] before the call and [2 * -1]
    after it. *)
Theorem gmm_scale_reverse_changes_input :
  valid store0 model0
  /\ (exists new,
         fst (gmm_scale model0 None None true None store0) = Ok new
         /\ means_at new = means_at model0)
  /\ store0 !! means_at model0 = Some [2]
  /\ snd (gmm_scale model0 None None true None store0) !! means_at model0
     = Some [2 * -1]
  /\ fitted_arrays (snd (gmm_scale model0 None None true None store0)) model0
     <> fitted_arrays store0 model0.
Proof.
  split; [cbv; repeat split; lia|].
  split; [eexists; split; reflexivity|].
  split; [reflexivity|]. split; [reflexivity|].
  intros H. apply (f_equal (fun l => l !! 1%nat)) in H.
  injection H as H. lra.
Qed.

(** Without a shift the new model shares the means with the old one, and
    what is done to them in place is done to the old model: a reversal negates
    its means and a scale divides them. *)
Lemma gmm_scale_unshifted_reverse h gmm params a b :
  h !! means_at gmm = Some a -> converged_attr gmm = Some b ->
  snd (gmm_scale gmm None None true params h) !! means_at gmm
  = Some (map (fun x => x * -1) a).
Proof.
  intros Ha Hb. unfold gmm_scale, bind, ret, update. rewrite Ha, Hb.
  cbn [fst snd]. apply list_lookup_insert_eq.
  apply lookup_lt_Some in Ha. exact Ha.
Qed.

Lemma gmm_scale_unshifted_scale h gmm c params a :
  h !! means_at gmm = Some a ->
  snd (gmm_scale gmm None (Some c) false params h) !! means_at gmm
  = Some (map (fun x => x / c) a).
Proof.
  intros Ha. unfold gmm_scale.
  unfold bind at 1. cbn [ret].
  unfold bind at 1. unfold update at 1. rewrite Ha.
  set (h1 := <[means_at gmm := map (fun x => x / c) a]> h).
  match goal with |- snd (?k h1) !! _ = _ => set (rest := k) end.
  assert (Hk : keeps h1 rest (fun _ => True)).
  { subst rest.
    apply keeps_bind with (P := fun _ => True);
      [eapply keeps_any, keeps_fresh_from|]. intros new_cov _.
    apply keeps_bind with (P := fun _ => True);
      [eapply keeps_any, keeps_fresh_from_result|]. intros new_prec _.
    apply keeps_bind with (P := fun _ => True);
      [eapply keeps_any, keeps_fresh_from_result|]. intros new_chol _.
    apply keeps_bind with (P := fun _ => True); [apply keeps_ret, I|].
    intros _ _.
    apply keeps_bind with (P := fun _ => True);
      [destruct (converged_attr gmm); [apply keeps_ret, I|apply keeps_lift]|].
    intros conv _. apply keeps_ret, I. }
  destruct (Hk h1 (extends_refl h1)) as [[_ Hsame] _].
  apply lookup_lt_Some in Ha.
  rewrite Hsame by (subst h1; rewrite length_insert; exact Ha).
  subst h1. apply list_lookup_insert_eq, Ha.
Qed.

Example gmm_scale_scale_changes_input :
  snd (gmm_scale model0 None (Some 2) false None store0) !! means_at model0
  = Some [2 / 2].
Proof. apply (gmm_scale_unshifted_scale store0 model0 2 None [2]). reflexivity. Qed.

End ScaleFacts.

Module SampleFacts.
Import Mixture Np NpFacts Sample Inputs.
Local Open Scope R_scope.

(** *** The number of samples *)

(** The two replacements, case by case. *)
Lemma set_min_max_samples_cases nmin nmax c :
  (c < nmin -> 100 <= nmax -> set_min_max_samples nmin nmax c = 100)
  /\ (c < nmin -> nmax < 100 -> set_min_max_samples nmin nmax c = 100000)
  /\ (~ c < nmin -> nmax < c -> set_min_max_samples nmin nmax c = 100000)
  /\ (~ c < nmin -> ~ nmax < c -> set_min_max_samples nmin nmax c = c).
Proof.
  unfold set_min_max_samples.
  repeat split; intros H1 H2;
    destruct (Rlt_dec c nmin); try contradiction;
    match goal with |- context [Rlt_dec ?a ?b] => destruct (Rlt_dec a b) end;
    try reflexivity; try contradiction; lra.
Qed.

Lemma py_int_IZR (z : Z) : py_int (IZR z) = z.
Proof.
  unfold py_int. destruct (Rle_dec 0 (IZR z)).
  - apply Zfloor_eq. lra.
  - apply Zceil_eq. lra.
Qed.

Lemma np_linspace_length start stop num xs :
  np_linspace start stop num = Ok xs -> length xs = Z.to_nat num.
Proof.
  unfold np_linspace. destruct (num <? 0)%Z; [discriminate|].
  intros [= <-]. rewrite length_map, length_seq. reflexivity.
Qed.

Section Sampling.

Variable score_samples : GaussianMixture -> list R -> list R.

(** With at least one component and a number of samples that is not
    negative, the samples are drawn, as many as [nsamples] says. *)
Lemma gmm_sample_xy_ok gmm kappa sampling nmin nmax :
  range_options gmm kappa <> [] ->
  (0 <= py_int (used_nsamples gmm kappa sampling nmin nmax))%Z ->
  exists xrange,
    gmm_sample_xy score_samples gmm kappa sampling nmin nmax
    = Ok (xrange, map exp (score_samples gmm xrange))
    /\ np_linspace (query_min gmm kappa) (query_max gmm kappa)
         (py_int (used_nsamples gmm kappa sampling nmin nmax)) = Ok xrange
    /\ length xrange
       = Z.to_nat (py_int (used_nsamples gmm kappa sampling nmin nmax)).
Proof.
  intros Hne Hpos. unfold gmm_sample_xy.
  destruct (range_options gmm kappa) as [|o os]; [contradiction|].
  destruct (np_linspace _ _ _) as [xs|e] eqn:Hl.
  - exists xs. split; [reflexivity|]. split; [reflexivity|].
    apply (np_linspace_length _ _ _ _ Hl).
  - unfold np_linspace in Hl.
    destruct (Z.ltb_spec (py_int (used_nsamples gmm kappa sampling nmin nmax)) 0);
      [lia|discriminate].
Qed.

Lemma gmm_sample_xy_replaced gmm kappa sampling nmin nmax (z : Z) :
  range_options gmm kappa <> [] ->
  (0 <= z)%Z ->
  used_nsamples gmm kappa sampling nmin nmax = IZR z ->
  exists xrange yrange,
    gmm_sample_xy score_samples gmm kappa sampling nmin nmax
    = Ok (xrange, yrange)
    /\ length xrange = Z.to_nat z.
Proof.
  intros Hne Hz Hu.
  destruct (gmm_sample_xy_ok gmm kappa sampling nmin nmax Hne)
    as (xs & Hrun & _ & Hlen).
  { rewrite Hu, py_int_IZR. exact Hz. }
  exists xs, (map exp (score_samples gmm xs)). split; [exact Hrun|].
  rewrite Hlen, Hu, py_int_IZR. reflexivity.
Qed.

End Sampling.

(** The older routine of [utils.py] replaces the number in the same way. *)
Lemma legacy_used_nsamples_cases gmm kappa sampling nmin nmax :
  (Legacy.computed_nsamples gmm kappa sampling < nmin -> 100 <= nmax ->
   Legacy.used_nsamples gmm kappa sampling nmin nmax = 100)
  /\ (nmax < Legacy.computed_nsamples gmm kappa sampling ->
      ~ Legacy.computed_nsamples gmm kappa sampling < nmin ->
      Legacy.used_nsamples gmm kappa sampling nmin nmax = 100000).
Proof.
  unfold Legacy.used_nsamples.
  destruct (set_min_max_samples_cases nmin nmax
              (Legacy.computed_nsamples gmm kappa sampling)) as (H1 & _ & H3 & _).
  split; [exact H1|]. intros Hgt Hge. apply H3; assumption.
Qed.

(** The model [gmm_a] has one component of mean [0] and variance [1]. *)
Lemma range_options_gmm_a kappa :
  range_options gmm_a kappa = [(0 - kappa * sqrt 1, 0 + kappa * sqrt 1)].
Proof. reflexivity. Qed.

Lemma query_range_gmm_a kappa :
  query_min gmm_a kappa = - kappa /\ query_max gmm_a kappa = kappa.
Proof.
  unfold query_min, query_max. rewrite range_options_gmm_a.
  cbn [map fst snd np_min np_max fold_left]. rewrite sqrt_1. split; lra.
Qed.

Lemma computed_nsamples_gmm_a kappa sampling :
  sampling <> 0 -> computed_nsamples gmm_a kappa sampling = 2 * kappa * sampling.
Proof.
  intros Hs. unfold computed_nsamples.
  destruct (query_range_gmm_a kappa) as [-> ->].
  cbn [gmm_a covariances_ map np_min fold_left]. rewrite sqrt_1.
  field. exact Hs.
Qed.

(** C4, as stated, fails on both counts.  For [gmm_a] with [kappa = 3]: with
    [sampling = 10], [nmin = 80] and [nmax = 90] the computed number [60] is
    below [nmin], yet [100000] samples are used, since the [100] put in its
    place exceeds [nmax]; with [sampling = 100], [nmin = 1000] and
    [nmax = 200] the computed number [600] exceeds [nmax], yet [100] samples
    are used. *)
Lemma gmm_sample_xy_replacements_interact :
  (computed_nsamples gmm_a 3 10 < 80
   /\ used_nsamples gmm_a 3 10 80 90 = 100000
   /\ used_nsamples gmm_a 3 10 80 90 <> 100)
  /\ (computed_nsamples gmm_a 3 100 > 200
      /\ used_nsamples gmm_a 3 100 1000 200 = 100
      /\ used_nsamples gmm_a 3 100 1000 200 <> 100000).
Proof.
  assert (H60 : computed_nsamples gmm_a 3 10 = 60)
    by (rewrite computed_nsamples_gmm_a; lra).
  assert (H600 : computed_nsamples gmm_a 3 100 = 600)
    by (rewrite computed_nsamples_gmm_a; lra).
  assert (Ha : used_nsamples gmm_a 3 10 80 90 = 100000).
  { unfold used_nsamples. rewrite H60.
    destruct (set_min_max_samples_cases 80 90 60) as (_ & H & _).
    apply H; lra. }
  assert (Hb : used_nsamples gmm_a 3 100 1000 200 = 100).
  { unfold used_nsamples. rewrite H600.
    destruct (set_min_max_samples_cases 1000 200 600) as (H & _).
    apply H; lra. }
  split; (split; [lra|]); (split; [assumption|]); lra.
Qed.

(** C4, amended: a computed number of samples below [nmin] is replaced by
    the fixed [100] (not by [nmin]) whenever [100 <= nmax]; a computed number
    above [nmax] that is not below [nmin] is replaced by the fixed [100000]
    (not by [nmax]); and in both cases [gmm_sample_xy], on a model with at
    least one component, evaluates exactly that many points. *)
Theorem gmm_sample_xy_replaces_nsamples :
  forall score_samples gmm kappa sampling nmin nmax,
    range_options gmm kappa <> [] ->
    (computed_nsamples gmm kappa sampling < nmin -> 100 <= nmax ->
     used_nsamples gmm kappa sampling nmin nmax = 100
     /\ exists xrange yrange,
         gmm_sample_xy score_samples gmm kappa sampling nmin nmax
         = Ok (xrange, yrange)
         /\ length xrange = Z.to_nat 100)
    /\ (nmax < computed_nsamples gmm kappa sampling ->
        ~ computed_nsamples gmm kappa sampling < nmin ->
        used_nsamples gmm kappa sampling nmin nmax = 100000
        /\ exists xrange yrange,
            gmm_sample_xy score_samples gmm kappa sampling nmin nmax
            = Ok (xrange, yrange)
            /\ length xrange = Z.to_nat 100000).
Proof.
  intros score gmm kappa sampling nmin nmax Hne.
  destruct (set_min_max_samples_cases nmin nmax
              (computed_nsamples gmm kappa sampling)) as (H1 & _ & H3 & _).
  split.
  - intros Hlt Hmax.
    assert (Hu : used_nsamples gmm kappa sampling nmin nmax = 100)
      by (apply H1; assumption).
    split; [exact Hu|].
    apply gmm_sample_xy_replaced; [exact Hne|lia|exact Hu].
  - intros Hgt Hge.
    assert (Hu : used_nsamples gmm kappa sampling nmin nmax = 100000)
      by (apply H3; assumption).
    split; [exact Hu|].
    apply gmm_sample_xy_replaced; [exact Hne|lia|exact Hu].
Qed.

Lemma gmm_sample_xy_replaces_nsamples_witness :
  (used_nsamples gmm_a 3 10 1000 100000 = 100
   /\ exists xrange yrange,
       gmm_sample_xy gaussian_score_samples gmm_a 3 10 1000 100000
       = Ok (xrange, yrange)
       /\ length xrange = Z.to_nat 100)
  /\ (used_nsamples gmm_a 3 10 20 50 = 100000
      /\ exists xrange yrange,
          gmm_sample_xy gaussian_score_samples gmm_a 3 10 20 50
          = Ok (xrange, yrange)
          /\ length xrange = Z.to_nat 100000).
Proof.
  assert (H60 : computed_nsamples gmm_a 3 10 = 60)
    by (rewrite computed_nsamples_gmm_a; lra).
  split.
  - apply (gmm_sample_xy_replaces_nsamples gaussian_score_samples gmm_a
             3 10 1000 100000).
    + rewrite range_options_gmm_a. discriminate.
    + rewrite H60. lra.
    + lra.
  - apply (gmm_sample_xy_replaces_nsamples gaussian_score_samples gmm_a
             3 10 20 50).
    + rewrite range_options_gmm_a. discriminate.
    + rewrite H60. lra.
    + rewrite H60. lra.
Defined.

(** *** Minimum and maximum *)

Lemma fold_left_Rmin_le l : forall a,
  fold_left Rmin l a <= a /\ Forall (fun x => fold_left Rmin l a <= x) l.
Proof.
  induction l as [|x l IH]; intros a; cbn [fold_left].
  - split; [lra|constructor].
  - destruct (IH (Rmin a x)) as [H1 H2].
    pose proof (Rmin_l a x). pose proof (Rmin_r a x).
    split; [lra|]. constructor; [lra|exact H2].
Qed.

Lemma fold_left_Rmin_In l : forall a, In (fold_left Rmin l a) (a :: l).
Proof.
  induction l as [|x l IH]; intros a; cbn [fold_left]; [left; reflexivity|].
  destruct (IH (Rmin a x)) as [H|H].
  - rewrite <- H. unfold Rmin. destruct (Rle_dec a x);
      [left; reflexivity|right; left; reflexivity].
  - right; right; exact H.
Qed.

Lemma fold_left_Rmax_ge l : forall a,
  a <= fold_left Rmax l a /\ Forall (fun x => x <= fold_left Rmax l a) l.
Proof.
  induction l as [|x l IH]; intros a; cbn [fold_left].
  - split; [lra|constructor].
  - destruct (IH (Rmax a x)) as [H1 H2].
    pose proof (Rmax_l a x). pose proof (Rmax_r a x).
    split; [lra|]. constructor; [lra|exact H2].
Qed.

Lemma np_min_le l x : In x l -> np_min l <= x.
Proof.
  destruct l as [|a l]; [intros []|]. cbn [np_min].
  destruct (fold_left_Rmin_le l a) as [H1 H2].
  intros [<-|Hin]; [exact H1|].
  rewrite Forall_forall in H2. apply H2, list_elem_of_In, Hin.
Qed.

Lemma np_min_In l : l <> [] -> In (np_min l) l.
Proof.
  destruct l as [|a l]; [congruence|]. intros _. apply fold_left_Rmin_In.
Qed.

Lemma np_max_ge l x : In x l -> x <= np_max l.
Proof.
  destruct l as [|a l]; [intros []|]. cbn [np_max].
  destruct (fold_left_Rmax_ge l a) as [H1 H2].
  intros [<-|Hin]; [exact H1|].
  rewrite Forall_forall in H2. apply H2, list_elem_of_In, Hin.
Qed.

(** *** The sampled range of a fitted model *)

Lemma range_options_In gmm kappa j c m :
  covariances_ gmm !! j = Some c -> means_ gmm !! j = Some m ->
  In (m - kappa * sqrt c, m + kappa * sqrt c) (range_options gmm kappa).
Proof.
  intros Hc Hm. unfold range_options. apply in_map_iff.
  exists (sqrt c, m). split; [reflexivity|].
  apply list_elem_of_In, list_elem_of_lookup. exists j.
  apply lookup_zip_with_Some. exists (sqrt c), m.
  split; [reflexivity|]. split; [|exact Hm].
  rewrite list_lookup_fmap, Hc. reflexivity.
Qed.

Lemma sampleable_range_options gmm kappa :
  sampleable gmm -> range_options gmm kappa <> [].
Proof.
  intros (Hne & Hlen & _) H.
  apply (f_equal length) in H. unfold range_options in H.
  rewrite length_map, length_zip, length_map, Hlen in H.
  destruct (covariances_ gmm); [congruence|cbn in H; lia].
Qed.

(** The range spans at least twice [kappa] of the smallest deviation. *)
Lemma sampleable_span gmm kappa :
  sampleable gmm ->
  0 < np_min (map sqrt (covariances_ gmm))
  /\ 2 * kappa * np_min (map sqrt (covariances_ gmm))
     <= query_max gmm kappa - query_min gmm kappa.
Proof.
  intros (Hne & Hlen & Hpos).
  assert (Hs : In (np_min (map sqrt (covariances_ gmm)))
                  (map sqrt (covariances_ gmm))).
  { apply np_min_In. destruct (covariances_ gmm); [congruence|discriminate]. }
  apply in_map_iff in Hs as (c & Hc & Hin).
  apply list_elem_of_In, list_elem_of_lookup in Hin as [j Hj].
  destruct (lookup_lt_is_Some_2 (means_ gmm) j) as [m Hm].
  { rewrite Hlen. apply lookup_lt_Some in Hj. exact Hj. }
  pose proof (range_options_In gmm kappa j c m Hj Hm) as Hopt.
  rewrite <- Hc. split.
  - apply sqrt_lt_R0. rewrite Forall_forall in Hpos.
    apply Hpos, list_elem_of_lookup. exists j. exact Hj.
  - assert (H1 : query_min gmm kappa <= m - kappa * sqrt c).
    { apply np_min_le. apply in_map_iff.
      exists (m - kappa * sqrt c, m + kappa * sqrt c). split; [reflexivity|].
      exact Hopt. }
    assert (H2 : m + kappa * sqrt c <= query_max gmm kappa).
    { apply np_max_ge. apply in_map_iff.
      exists (m - kappa * sqrt c, m + kappa * sqrt c). split; [reflexivity|].
      exact Hopt. }
    lra.
Qed.

Lemma sampleable_computed_nsamples gmm :
  sampleable gmm -> 1000 <= computed_nsamples gmm 5 100.
Proof.
  intros Hg. destruct (sampleable_span gmm 5 Hg) as [Hpos Hspan].
  unfold computed_nsamples. cbv zeta.
  set (smin := np_min (map sqrt (covariances_ gmm))) in *.
  set (w := query_max gmm 5 - query_min gmm 5) in *.
  replace (w / (smin / 100)) with (100 * w * / smin) by (field; lra).
  apply Rmult_le_reg_r with (r := smin); [exact Hpos|].
  rewrite Rmult_assoc, Rinv_l by lra. lra.
Qed.

Lemma sampleable_used_nsamples gmm :
  sampleable gmm ->
  (1000 <= py_int (used_nsamples gmm 5 100 1000 100000))%Z.
Proof.
  intros Hg. pose proof (sampleable_computed_nsamples gmm Hg) as Hc.
  assert (Hu : 1000 <= used_nsamples gmm 5 100 1000 100000).
  { unfold used_nsamples, set_min_max_samples.
    destruct (Rlt_dec _ 1000); [lra|].
    destruct (Rlt_dec 100000 _); lra. }
  unfold py_int. destruct (Rle_dec 0 _); [|lra].
  apply Zfloor_lub. exact Hu.
Qed.

(** *** The interval around a value *)

Lemma first_difference x0 x1 (rest : list R) :
  getitem (zip_with Rminus (tail (x0 :: x1 :: rest)) (x0 :: x1 :: rest)) 0
  = Ok (x1 - x0).
Proof. reflexivity. Qed.

Lemma argmin_from_lt l : forall i bi bv,
  (bi < i)%nat -> (argmin_from l i bi bv < i + length l)%nat.
Proof.
  induction l as [|x l IH]; intros i bi bv Hb; cbn [argmin_from length].
  - lia.
  - destruct (Rlt_dec x bv).
    + specialize (IH (S i) i x ltac:(lia)). lia.
    + specialize (IH (S i) bi bv ltac:(lia)). lia.
Qed.

Lemma np_argmin_lt l :
  l <> [] -> exists i, np_argmin l = Ok i /\ (i < length l)%nat.
Proof.
  destruct l as [|x l]; [congruence|]. intros _.
  exists (argmin_from l 1 0 x). split; [reflexivity|].
  pose proof (argmin_from_lt l 1 0 x ltac:(lia)). cbn [length]. lia.
Qed.

Lemma left_index_le value_idx i : (left_index value_idx i <= value_idx)%nat.
Proof. unfold left_index. destruct (Nat.leb_spec i value_idx); lia. Qed.

Lemma right_index_lt value_idx n i :
  (1 <= n)%nat -> (right_index value_idx n i < n)%nat.
Proof.
  intros Hn. unfold right_index.
  destruct (Nat.ltb_spec (value_idx + i) n); lia.
Qed.

(** The loop over [range(a, a + k)] ends at some iteration, as [stops_at]
    describes it. *)
Lemma integrate_loop_spec gmm_y dx level value_idx n : forall k a,
  exists i,
    (a <= i < a + S k)%nat
    /\ (forall j, (a <= j < i)%nat ->
        ~ level < window_integral gmm_y dx value_idx n j)
    /\ (level < window_integral gmm_y dx value_idx n i \/ i = (a + k)%nat)
    /\ integrate_loop gmm_y dx level value_idx n (seq a (S k))
       = Some (left_index value_idx i, right_index value_idx n i).
Proof.
  induction k as [|k IH]; intros a.
  - exists a. cbn [seq integrate_loop].
    split; [lia|]. split; [intros j Hj; lia|].
    destruct (Rlt_dec level _) as [Hl|Hl].
    + split; [left; exact Hl|reflexivity].
    + split; [right; lia|reflexivity].
  - change (seq a (S (S k))) with (a :: seq (S a) (S k)).
    cbn [integrate_loop].
    destruct (Rlt_dec level (window_integral gmm_y dx value_idx n a)) as [Hl|Hl].
    + exists a. split; [lia|]. split; [intros j Hj; lia|].
      split; [left; exact Hl|reflexivity].
    + destruct (IH (S a)) as (i & Hi & Hbefore & Hstop & Hrun).
      exists i. split; [lia|]. split.
      * intros j Hj. destruct (Nat.eq_dec j a) as [->|Hne]; [exact Hl|].
        apply Hbefore. lia.
      * split; [destruct Hstop as [H|H]; [left; exact H|right; lia]|].
        rewrite <- Hrun. reflexivity.
Qed.

Lemma integrate_loop_stops gmm_y dx level value_idx n :
  (1 <= n)%nat ->
  exists i,
    stops_at gmm_y dx level value_idx n i
    /\ integrate_loop gmm_y dx level value_idx n (seq 0 n)
       = Some (left_index value_idx i, right_index value_idx n i).
Proof.
  intros Hn. destruct n as [|k]; [lia|].
  destruct (integrate_loop_spec gmm_y dx level value_idx (S k) k 0%nat)
    as (i & Hi & Hbefore & Hstop & Hrun).
  exists i. split; [|exact Hrun].
  split; [lia|]. split.
  - intros j Hj. apply Hbefore. lia.
  - destruct Hstop as [H|H]; [left; exact H|right; lia].
Qed.

Lemma getitem_nth (a : list R) i :
  (i < length a)%nat -> getitem a i = Ok (nth i a 0).
Proof.
  intros Hi. unfold getitem.
  destruct (lookup_lt_is_Some_2 a i Hi) as [x Hx]. rewrite Hx.
  f_equal. symmetry. apply nth_lookup_Some with (d := 0) in Hx. exact Hx.
Qed.

(** On at least two samples the routine answers an interval that is
    symmetric around [value]; its half-width is read off at the iteration
    where the loop ends. *)
Lemma interval_around_spec gmm_x gmm_y value level :
  (2 <= length gmm_x)%nat ->
  exists dx value_idx i,
    getitem (zip_with Rminus (tail gmm_x) gmm_x) 0 = Ok dx
    /\ np_argmin (map (fun x => Rabs (x - value)) gmm_x) = Ok value_idx
    /\ (value_idx < length gmm_x)%nat
    /\ stops_at gmm_y dx level value_idx (length gmm_x) i
    /\ interval_around gmm_x gmm_y value level
       = Ok (value
             - half_size gmm_x value value_idx (left_index value_idx i)
                 (right_index value_idx (length gmm_x) i),
             value
             + half_size gmm_x value value_idx (left_index value_idx i)
                 (right_index value_idx (length gmm_x) i)).
Proof.
  intros Hlen.
  destruct gmm_x as [|x0 [|x1 rest]]; cbn [length] in Hlen; try lia.
  set (gmm_x := x0 :: x1 :: rest) in *.
  destruct (np_argmin_lt (map (fun x => Rabs (x - value)) gmm_x))
    as (value_idx & Harg & Hidx); [discriminate|].
  rewrite length_map in Hidx.
  destruct (integrate_loop_stops gmm_y (x1 - x0) level value_idx (length gmm_x))
    as (i & Hstop & Hrun); [cbn; lia|].
  exists (x1 - x0), value_idx, i.
  split; [reflexivity|]. split; [exact Harg|]. split; [exact Hidx|].
  split; [exact Hstop|].
  unfold interval_around.
  change (getitem (zip_with Rminus (tail gmm_x) gmm_x) 0) with (Ok (x1 - x0)).
  cbv iota beta. rewrite Harg. cbv iota beta. rewrite Hrun. cbv iota beta.
  rewrite !getitem_nth.
  - reflexivity.
  - apply right_index_lt. cbn; lia.
  - pose proof (left_index_le value_idx i). lia.
Qed.

(** C3, amended: for a fitted one-dimensional model, any query value and any
    level, [gmm_confidence_interval_value] returns [(value - h, value + h)],
    an interval symmetric around [value].  The loop ends at the first window
    whose summed left and right trapezoid mass exceeds [level], or at the last
    window when none does; [h] is [value - gmm_x[lidx]] when that window
    reaches strictly more indices to the left of [value_idx] than to the
    right, and [gmm_x[ridx] - value] otherwise. *)
Theorem gmm_confidence_interval_value_symmetric :
  forall score_samples gmm value level,
    sampleable gmm ->
    exists gmm_x gmm_y dx value_idx i,
      gmm_sample_xy score_samples gmm 5 100 1000 100000 = Ok (gmm_x, gmm_y)
      /\ getitem (zip_with Rminus (tail gmm_x) gmm_x) 0 = Ok dx
      /\ np_argmin (map (fun x => Rabs (x - value)) gmm_x) = Ok value_idx
      /\ stops_at gmm_y dx level value_idx (length gmm_x) i
      /\ gmm_confidence_interval_value score_samples gmm value level
         = Ok (value
               - half_size gmm_x value value_idx (left_index value_idx i)
                   (right_index value_idx (length gmm_x) i),
               value
               + half_size gmm_x value value_idx (left_index value_idx i)
                   (right_index value_idx (length gmm_x) i)).
Proof.
  intros score gmm value level Hg.
  pose proof (sampleable_used_nsamples gmm Hg) as Hn.
  destruct (gmm_sample_xy_ok score gmm 5 100 1000 100000)
    as (gmm_x & Hrun & _ & Hlen).
  { apply sampleable_range_options, Hg. }
  { lia. }
  destruct (interval_around_spec gmm_x (map exp (score gmm gmm_x)) value level)
    as (dx & value_idx & i & Hdx & Harg & _ & Hstop & Hres).
  { rewrite Hlen. lia. }
  exists gmm_x, (map exp (score gmm gmm_x)), dx, value_idx, i.
  split; [exact Hrun|]. split; [exact Hdx|]. split; [exact Harg|].
  split; [exact Hstop|].
  unfold gmm_confidence_interval_value. rewrite Hrun. exact Hres.
Qed.

Lemma sampleable_gmm_a : sampleable gmm_a.
Proof.
  unfold sampleable, gmm_a; cbn [covariances_ means_ length].
  split; [discriminate|]. split; [reflexivity|]. forall_list. lra.
Qed.

Lemma gmm_confidence_interval_value_symmetric_witness :
  exists gmm_x gmm_y dx value_idx i,
    gmm_sample_xy gaussian_score_samples gmm_a 5 100 1000 100000
    = Ok (gmm_x, gmm_y)
    /\ getitem (zip_with Rminus (tail gmm_x) gmm_x) 0 = Ok dx
    /\ np_argmin (map (fun x => Rabs (x - 1)) gmm_x) = Ok value_idx
    /\ stops_at gmm_y dx (95 / 100) value_idx (length gmm_x) i
    /\ gmm_confidence_interval_value gaussian_score_samples gmm_a 1 (95 / 100)
       = Ok (1 - half_size gmm_x 1 value_idx (left_index value_idx i)
                   (right_index value_idx (length gmm_x) i),
             1 + half_size gmm_x 1 value_idx (left_index value_idx i)
                   (right_index value_idx (length gmm_x) i)).
Proof.
  apply (gmm_confidence_interval_value_symmetric gaussian_score_samples gmm_a
           1 (95 / 100)).
  apply sampleable_gmm_a.
Defined.

(** *** The standard normal model, sampled *)

Lemma INR_literal n z : Z.of_nat n = z -> INR n = IZR z.
Proof. intros <-. apply INR_IZR_INZ. Qed.

Lemma argmin_from_keep l : forall i bi bv,
  Forall (fun x => ~ x < bv) l -> argmin_from l i bi bv = bi.
Proof.
  induction l as [|x l IH]; intros i bi bv H; [reflexivity|].
  apply Forall_cons in H as [Hx Hl]. cbn [argmin_from].
  destruct (Rlt_dec x bv); [contradiction|]. apply IH, Hl.
Qed.

(** A value below all the others is found where it stands. *)
Lemma argmin_from_found l : forall j i bi bv tv,
  l !! j = Some tv -> tv < bv ->
  (forall j' x, l !! j' = Some x -> j' <> j -> tv < x) ->
  argmin_from l i bi bv = (i + j)%nat.
Proof.
  induction l as [|x l IH]; intros j i bi bv tv Hj Hlt Hmin; [discriminate|].
  cbn [argmin_from]. destruct j as [|j].
  - injection Hj as ->. destruct (Rlt_dec tv bv); [|contradiction].
    rewrite argmin_from_keep; [lia|].
    apply Forall_forall. intros y Hy.
    apply list_elem_of_lookup in Hy as [k Hk].
    specialize (Hmin (S k) y Hk ltac:(lia)). lra.
  - assert (Hx : tv < x) by (apply (Hmin 0%nat x); [reflexivity|lia]).
    assert (Hrest : forall j' y, l !! j' = Some y -> j' <> j -> tv < y).
    { intros j' y Hy Hne. apply (Hmin (S j') y); [exact Hy|lia]. }
    destruct (Rlt_dec x bv).
    + rewrite (IH j (S i) i x tv Hj Hx Hrest). lia.
    + rewrite (IH j (S i) bi bv tv Hj Hlt Hrest). lia.
Qed.

Lemma np_argmin_strict l i v :
  l !! i = Some v ->
  (forall j x, l !! j = Some x -> j <> i -> v < x) ->
  np_argmin l = Ok i.
Proof.
  intros Hi Hmin. destruct l as [|x0 l]; [discriminate|].
  cbn [np_argmin]. f_equal. destruct i as [|i].
  - injection Hi as ->. apply argmin_from_keep.
    apply Forall_forall. intros y Hy.
    apply list_elem_of_lookup in Hy as [k Hk].
    specialize (Hmin (S k) y Hk ltac:(lia)). lra.
  - rewrite (argmin_from_found l i 1 0%nat x0 v Hi).
    + reflexivity.
    + apply (Hmin 0%nat x0); [reflexivity|lia].
    + intros j' y Hy Hne. apply (Hmin (S j') y); [exact Hy|lia].
Qed.

Lemma grid_lookup k : (k < 1000)%nat -> grid !! k = Some (grid_x k).
Proof.
  intros Hk. unfold grid.
  change (map grid_x (seq 0 (Z.to_nat 1000)))
    with (grid_x <$> seq 0 (Z.to_nat 1000)).
  rewrite list_lookup_fmap, lookup_seq_lt by lia. reflexivity.
Qed.

Lemma grid_length : length grid = Z.to_nat 1000.
Proof. unfold grid. rewrite length_map, length_seq. reflexivity. Qed.

Lemma grid_nth k : (k < 1000)%nat -> nth k grid 0 = grid_x k.
Proof.
  intros Hk. apply nth_lookup_Some with (d := 0). apply grid_lookup, Hk.
Qed.

Lemma np_linspace_ok start stop num :
  (0 <= num)%Z ->
  np_linspace start stop num
  = Ok (map (fun k => start + INR k * ((stop - start) / INR (Z.to_nat num - 1)))
            (seq 0 (Z.to_nat num))).
Proof.
  intros Hn. unfold np_linspace.
  destruct (Z.ltb_spec num 0); [lia|reflexivity].
Qed.

(** The samples drawn for [gmm_a] are the grid. *)
Lemma gmm_sample_xy_gmm_a score_samples :
  gmm_sample_xy score_samples gmm_a 5 100 1000 100000
  = Ok (grid, map exp (score_samples gmm_a grid)).
Proof.
  assert (Hu : used_nsamples gmm_a 5 100 1000 100000 = 1000).
  { unfold used_nsamples. rewrite computed_nsamples_gmm_a by lra.
    destruct (set_min_max_samples_cases 1000 100000 (2 * 5 * 100))
      as (_ & _ & _ & H). rewrite H; lra. }
  assert (Hlin : np_linspace (query_min gmm_a 5) (query_max gmm_a 5)
                   (py_int (used_nsamples gmm_a 5 100 1000 100000)) = Ok grid).
  { rewrite Hu, py_int_IZR.
    destruct (query_range_gmm_a 5) as [-> ->].
    rewrite np_linspace_ok by lia.
    assert (H999 : INR (Z.to_nat 1000 - 1) = 999).
    { apply INR_literal. lia. }
    rewrite H999. unfold grid. f_equal. apply map_ext.
    intros k. unfold grid_x. lra. }
  unfold gmm_sample_xy. rewrite range_options_gmm_a. cbv beta iota zeta.
  rewrite Hlin. reflexivity.
Qed.

Lemma sampled_density_gmm_a :
  map exp (gaussian_score_samples gmm_a grid)
  = map grid_y (seq 0 (Z.to_nat 1000)).
Proof.
  unfold gaussian_score_samples, grid. rewrite !map_map. reflexivity.
Qed.

Lemma slice_map_seq (g : nat -> R) n a k :
  (a + k <= n)%nat -> slice (map g (seq 0 n)) a (a + k) = map g (seq a k).
Proof.
  intros H. unfold slice.
  rewrite skipn_map, firstn_map, drop_seq, take_seq.
  f_equal. f_equal; lia.
Qed.

Lemma np_trapz_nil dx : np_trapz [] dx = 0.
Proof. reflexivity. Qed.

Lemma np_trapz_one a dx : np_trapz [a] dx = 0.
Proof. reflexivity. Qed.

Lemma np_trapz_two a b dx : np_trapz [a; b] dx = dx * (b + a) / 2.
Proof. unfold np_trapz. cbn [tail zip_with]. rewrite np_sum_cons, np_sum_nil. lra. Qed.

(** The integral of iteration [i] while neither side is clipped. *)
Lemma window_integral_unclipped g n dx value_idx i :
  (i <= value_idx)%nat -> (value_idx + i < n)%nat ->
  window_integral (map g (seq 0 n)) dx value_idx n i
  = np_trapz (map g (seq (value_idx - i) i)) dx
    + np_trapz (map g (seq value_idx i)) dx.
Proof.
  intros Hl Hr. unfold window_integral, left_index, right_index. cbv zeta.
  destruct (Nat.leb_spec i value_idx); [|lia].
  destruct (Nat.ltb_spec (value_idx + i) n); [|lia].
  replace value_idx with (value_idx - i + i)%nat at 2 by lia.
  rewrite !slice_map_seq by lia. reflexivity.
Qed.

(** *** A lower bound on the standard normal density *)

Lemma sqrt_two_pi_bounds : 0 < sqrt (2 * PI * 1) <= 3.
Proof.
  pose proof PI_RGT_0. pose proof PI_4.
  split.
  - apply sqrt_lt_R0. lra.
  - replace 3 with (sqrt (3 * 3)) by (apply sqrt_square; lra).
    apply sqrt_le_1_alt. lra.
Qed.

Lemma gauss_pdf_lower x : x ^ 2 <= 1 -> 1 / 6 <= gauss_pdf 0 1 x.
Proof.
  intros Hx. unfold gauss_pdf.
  destruct sqrt_two_pi_bounds as [Hpos Hle].
  assert (Hinv : 1 / 3 <= / sqrt (2 * PI * 1)).
  { replace (1 / 3) with (/ 3) by lra. apply Rinv_le_contravar; assumption. }
  pose proof (exp_ineq1_le (- ((x - 0) ^ 2 / (2 * 1)))) as Hexp.
  assert (Hhalf : 1 / 2 <= exp (- ((x - 0) ^ 2 / (2 * 1)))).
  { replace ((x - 0) ^ 2) with (x ^ 2) in * by ring. lra. }
  replace (1 / 6) with (1 / 3 * (1 / 2)) by lra.
  apply Rmult_le_compat; lra.
Qed.

Lemma mixture_pdf_gmm_a x : mixture_pdf gmm_a x = gauss_pdf 0 1 x.
Proof.
  unfold mixture_pdf, gmm_a.
  cbn [weights_ means_ covariances_ zip zip_with fst snd].
  rewrite np_sum_cons, np_sum_nil. lra.
Qed.

Lemma grid_y_lower k : grid_x k ^ 2 <= 1 -> 1 / 6 <= grid_y k.
Proof.
  intros Hk. unfold grid_y. rewrite mixture_pdf_gmm_a.
  pose proof (gauss_pdf_lower (grid_x k) Hk) as Hp.
  rewrite exp_ln by lra. exact Hp.
Qed.

Lemma grid_x_literal k z : Z.of_nat k = z -> grid_x k = -5 + IZR z * (10 / 999).
Proof. intros H. unfold grid_x. rewrite (INR_literal k z H). reflexivity. Qed.

Lemma grid_first_difference :
  getitem (zip_with Rminus (tail grid) grid) 0 = Ok (10 / 999).
Proof.
  unfold getitem.
  rewrite lookup_zip_with, lookup_tail, !grid_lookup by lia.
  cbn [mbind option_bind]. f_equal.
  rewrite (grid_x_literal 1 1 eq_refl), (grid_x_literal 0 0 eq_refl). lra.
Qed.

Lemma grid_x_bounds k :
  ((k <= 498)%nat -> grid_x k <= -15 / 999)
  /\ ((500 <= k)%nat -> 5 / 999 <= grid_x k).
Proof.
  unfold grid_x. split; intros Hk.
  - apply le_INR in Hk. rewrite (INR_literal 498 498 eq_refl) in Hk. lra.
  - apply le_INR in Hk. rewrite (INR_literal 500 500 eq_refl) in Hk. lra.
Qed.

(** The grid point nearest to [-1/1000] is the one at index [499]. *)
Lemma grid_argmin :
  np_argmin (map (fun x => Rabs (x - -1 / 1000)) grid) = Ok 499%nat.
Proof.
  change (map (fun x => Rabs (x - -1 / 1000)) grid)
    with ((fun x => Rabs (x - -1 / 1000)) <$> grid).
  apply np_argmin_strict with (v := Rabs (grid_x 499 - -1 / 1000)).
  - rewrite list_lookup_fmap, grid_lookup by lia. reflexivity.
  - intros j x Hj Hne.
    assert (Hlt : (j < 1000)%nat).
    { apply lookup_lt_Some in Hj. rewrite length_fmap, grid_length in Hj. lia. }
    rewrite list_lookup_fmap, grid_lookup in Hj by exact Hlt.
    injection Hj as <-.
    rewrite (grid_x_literal 499 499 eq_refl).
    destruct (grid_x_bounds j) as [Hlow Hhigh].
    destruct (Nat.le_gt_cases j 498) as [Hj|Hj].
    + specialize (Hlow Hj). unfold Rabs.
      repeat destruct (Rcase_abs _); lra.
    + specialize (Hhigh ltac:(lia)). unfold Rabs.
      repeat destruct (Rcase_abs _); lra.
Qed.

(** Around index [499] the first two windows hold no mass and the third
    holds more than [1/1000]. *)
Lemma grid_windows :
  window_integral (map grid_y (seq 0 (Z.to_nat 1000))) (10 / 999) 499
                  (Z.to_nat 1000) 0 = 0
  /\ window_integral (map grid_y (seq 0 (Z.to_nat 1000))) (10 / 999) 499
                     (Z.to_nat 1000) 1 = 0
  /\ 1 / 1000 < window_integral (map grid_y (seq 0 (Z.to_nat 1000))) (10 / 999)
                                499 (Z.to_nat 1000) 2.
Proof.
  rewrite !window_integral_unclipped by lia.
  replace (499 - 0)%nat with 499%nat by lia.
  replace (499 - 1)%nat with 498%nat by lia.
  replace (499 - 2)%nat with 497%nat by lia.
  cbn [seq map]. rewrite !np_trapz_nil, !np_trapz_one, !np_trapz_two.
  split; [lra|]. split; [lra|].
  assert (H497 : 1 / 6 <= grid_y 497).
  { apply grid_y_lower. rewrite (grid_x_literal 497 497 eq_refl). nra. }
  assert (H498 : 1 / 6 <= grid_y 498).
  { apply grid_y_lower. rewrite (grid_x_literal 498 498 eq_refl). nra. }
  assert (H499 : 1 / 6 <= grid_y 499).
  { apply grid_y_lower. rewrite (grid_x_literal 499 499 eq_refl). nra. }
  assert (H500 : 1 / 6 <= grid_y 500).
  { apply grid_y_lower. rewrite (grid_x_literal 500 500 eq_refl). nra. }
  lra.
Qed.

(** On the grid the loop ends at iteration [2]. *)
Lemma grid_stops_at i :
  stops_at (map grid_y (seq 0 (Z.to_nat 1000))) (10 / 999) (1 / 1000) 499
           (length grid) i <-> i = 2%nat.
Proof.
  rewrite grid_length. destruct grid_windows as (H0 & H1 & H2).
  unfold stops_at. split.
  - intros (Hi & Hbefore & Hstop).
    destruct i as [|[|[|i]]]; [| |reflexivity|].
    + destruct Hstop as [H|H]; [lra|lia].
    + destruct Hstop as [H|H]; [lra|lia].
    + exfalso. apply (Hbefore 2%nat); [lia|exact H2].
  - intros ->. split; [lia|]. split; [|left; exact H2].
    intros j Hj. destruct j as [|[|j]]; [lra|lra|lia].
Qed.

Lemma grid_interval :
  interval_around grid (map grid_y (seq 0 (Z.to_nat 1000))) (-1 / 1000) (1 / 1000)
  = Ok (-1 / 1000 - (grid_x 501 - -1 / 1000),
        -1 / 1000 + (grid_x 501 - -1 / 1000)).
Proof.
  destruct (interval_around_spec grid (map grid_y (seq 0 (Z.to_nat 1000)))
              (-1 / 1000) (1 / 1000))
    as (dx & value_idx & i & Hdx & Harg & _ & Hstop & Hres).
  { rewrite grid_length. lia. }
  rewrite grid_first_difference in Hdx. injection Hdx as <-.
  rewrite grid_argmin in Harg. injection Harg as <-.
  apply grid_stops_at in Hstop. subst i.
  rewrite Hres. clear Hres.
  assert (Hr : right_index 499 (length grid) 2 = 501%nat).
  { rewrite grid_length. unfold right_index.
    destruct (Nat.ltb_spec (499 + 2) (Z.to_nat 1000)); lia. }
  assert (Hl : left_index 499 2 = 497%nat) by reflexivity.
  rewrite Hr, Hl. unfold half_size.
  replace (501 - 499 <? 499 - 497)%nat with false by reflexivity.
  rewrite grid_nth by lia. reflexivity.
Qed.

(** C3, as stated, fails.  For the standard normal model [gmm_a], the value
    [-1/1000] and the level [1/1000], the first window whose mass exceeds the
    level is the one of iteration [2], from index [497] to index [501] around
    index [499].  The half-width returned is the distance to the right end,
    [gmm_x[501] - value], which is the smaller of the two side-distances: the
    returned pair is not [(value - h, value + h)] for [h] the larger one. *)
Lemma gmm_confidence_interval_value_not_larger_distance :
  0 < 1 / 1000 < 1
  /\ gmm_sample_xy gaussian_score_samples gmm_a 5 100 1000 100000
     = Ok (grid, map grid_y (seq 0 (Z.to_nat 1000)))
  /\ getitem (zip_with Rminus (tail grid) grid) 0 = Ok (10 / 999)
  /\ np_argmin (map (fun x => Rabs (x - -1 / 1000)) grid) = Ok 499%nat
  /\ stops_at (map grid_y (seq 0 (Z.to_nat 1000))) (10 / 999) (1 / 1000) 499
              (length grid) 2
  /\ 1 / 1000 < window_integral (map grid_y (seq 0 (Z.to_nat 1000))) (10 / 999)
                                499 (length grid) 2
  /\ left_index 499 2 = 497%nat
  /\ right_index 499 (length grid) 2 = 501%nat
  /\ gmm_confidence_interval_value gaussian_score_samples gmm_a
       (-1 / 1000) (1 / 1000)
     = Ok (-1 / 1000 - (nth 501 grid 0 - -1 / 1000),
           -1 / 1000 + (nth 501 grid 0 - -1 / 1000))
  /\ nth 501 grid 0 - -1 / 1000 < -1 / 1000 - nth 497 grid 0
  /\ gmm_confidence_interval_value gaussian_score_samples gmm_a
       (-1 / 1000) (1 / 1000)
     <> Ok (-1 / 1000
            - Rmax (-1 / 1000 - nth 497 grid 0) (nth 501 grid 0 - -1 / 1000),
            -1 / 1000
            + Rmax (-1 / 1000 - nth 497 grid 0) (nth 501 grid 0 - -1 / 1000)).
Proof.
  assert (Hrun : gmm_sample_xy gaussian_score_samples gmm_a 5 100 1000 100000
                 = Ok (grid, map grid_y (seq 0 (Z.to_nat 1000)))).
  { rewrite gmm_sample_xy_gmm_a, sampled_density_gmm_a. reflexivity. }
  assert (Hres : gmm_confidence_interval_value gaussian_score_samples gmm_a
                   (-1 / 1000) (1 / 1000)
                 = Ok (-1 / 1000 - (grid_x 501 - -1 / 1000),
                       -1 / 1000 + (grid_x 501 - -1 / 1000))).
  { unfold gmm_confidence_interval_value. rewrite Hrun. apply grid_interval. }
  assert (Hstop : stops_at (map grid_y (seq 0 (Z.to_nat 1000))) (10 / 999)
                           (1 / 1000) 499 (length grid) 2)
    by (apply grid_stops_at; reflexivity).
  assert (Hr : right_index 499 (length grid) 2 = 501%nat).
  { rewrite grid_length. unfold right_index.
    destruct (Nat.ltb_spec (499 + 2) (Z.to_nat 1000)); lia. }
  assert (H501 : nth 501 grid 0 = -5 + 501 * (10 / 999)).
  { rewrite grid_nth by lia. apply (grid_x_literal 501 501 eq_refl). }
  assert (H497 : nth 497 grid 0 = -5 + 497 * (10 / 999)).
  { rewrite grid_nth by lia. apply (grid_x_literal 497 497 eq_refl). }
  split; [lra|]. split; [exact Hrun|].
  split; [exact grid_first_difference|]. split; [exact grid_argmin|].
  split; [exact Hstop|].
  split; [rewrite grid_length; apply grid_windows|].
  split; [reflexivity|]. split; [exact Hr|].
  split; [rewrite Hres, grid_nth by lia; reflexivity|].
  split; [rewrite H501, H497; lra|].
  rewrite Hres, (grid_x_literal 501 501 eq_refl), H501, H497.
  intros Heq.
  assert (Hsnd : -1 / 1000 + (-5 + 501 * (10 / 999) - -1 / 1000)
                 = -1 / 1000
                   + Rmax (-1 / 1000 - (-5 + 497 * (10 / 999)))
                          (-5 + 501 * (10 / 999) - -1 / 1000))
    by congruence.
  rewrite Rmax_left in Hsnd by lra. lra.
Qed.

End SampleFacts.

Module StatsFacts.
Import Components Stats.
Local Open Scope Q_scope.

(** *** Rounding *)

Lemma np_round_proper x y : x == y -> np_round x = np_round y.
Proof.
  intros H. unfold np_round.
  rewrite (Qfloor_comp x y H).
  assert (Hc : (x - inject_Z (Qfloor y) ?= 1 # 2)
               = (y - inject_Z (Qfloor y) ?= 1 # 2)).
  { apply Qcompare_comp; [rewrite H; reflexivity|reflexivity]. }
  rewrite Hc. reflexivity.
Qed.

Lemma np_round_inject_Z z : np_round (inject_Z z) = z.
Proof.
  unfold np_round. rewrite Qfloor_Z.
  assert (Hc : (inject_Z z - inject_Z z ?= 1 # 2) = Lt).
  { apply Qlt_alt.
    assert (H0 : inject_Z z - inject_Z z == 0) by ring.
    rewrite H0. reflexivity. }
  rewrite Hc. reflexivity.
Qed.

Lemma np_round_bound x : Qabs (inject_Z (np_round x) - x) <= 1 # 2.
Proof.
  unfold np_round.
  pose proof (Qfloor_le x) as Hlo. pose proof (Qlt_floor x) as Hhi.
  rewrite inject_Z_plus in Hhi. change (inject_Z 1) with 1 in Hhi.
  destruct (x - inject_Z (Qfloor x) ?= 1 # 2) eqn:Hc;
    [apply Qeq_alt in Hc; destruct (Z.even (Qfloor x))
    |apply Qlt_alt in Hc|apply Qgt_alt in Hc];
    rewrite ?inject_Z_plus; change (inject_Z 1) with 1;
    set (f := inject_Z (Qfloor x)) in *; clearbody f;
    apply Qabs_Qle_condition; split; Lqa.lra.
Qed.

(** X1: for a precision that is not zero, [round_partial] moves its argument
    by at most half the precision. *)
Theorem round_partial_within_half_precision :
  forall data precision,
    ~ precision == 0 ->
    Qabs (round_partial data precision - data) <= Qabs precision * (1 # 2).
Proof.
  intros d p Hp. unfold round_partial.
  set (k := inject_Z (np_round (d / p))).
  assert (Heq : k * p - d == (k - d / p) * p) by (field; exact Hp).
  rewrite Heq, Qabs_Qmult, (Qmult_comm (Qabs p)).
  apply Qmult_le_compat_r; [apply np_round_bound|apply Qabs_nonneg].
Qed.

Lemma round_partial_within_half_precision_witness :
  Qabs (round_partial (7 # 10) (2 # 10) - (7 # 10)) <= Qabs (2 # 10) * (1 # 2).
Proof.
  apply (round_partial_within_half_precision (7 # 10) (2 # 10)).
  intros H. discriminate H.
Defined.

(** X2: for a precision that is not zero, rounding a rounded number again
    changes nothing. *)
Theorem round_partial_idempotent :
  forall data precision,
    ~ precision == 0 ->
    round_partial (round_partial data precision) precision
    == round_partial data precision.
Proof.
  intros d p Hp. unfold round_partial.
  assert (Heq : inject_Z (np_round (d / p)) * p / p == inject_Z (np_round (d / p)))
    by (field; exact Hp).
  rewrite (np_round_proper _ _ Heq), np_round_inject_Z. reflexivity.
Qed.

Lemma round_partial_idempotent_witness :
  round_partial (round_partial (7 # 10) (2 # 10)) (2 # 10)
  == round_partial (7 # 10) (2 # 10).
Proof.
  apply (round_partial_idempotent (7 # 10) (2 # 10)).
  intros H. discriminate H.
Defined.

Example round_partial_half_to_even :
  round_partial (5 # 10) 1 == 0 /\ round_partial (15 # 10) 1 == 2
  /\ round_partial (7 # 10) (2 # 10) == 8 # 10.
Proof. repeat split; reflexivity. Qed.

(** *** Sums of rationals *)

Lemma fold_left_Qplus_acc a : forall acc,
  fold_left Qplus a acc == acc + fold_left Qplus a 0.
Proof.
  induction a as [|x a IH]; intros acc; cbn [fold_left]; [ring|].
  rewrite (IH (acc + x)), (IH (0 + x)). ring.
Qed.

Lemma q_sum_cons x a : ColorCovar.np_sum (x :: a) == x + ColorCovar.np_sum a.
Proof.
  unfold ColorCovar.np_sum. cbn [fold_left].
  rewrite fold_left_Qplus_acc. ring.
Qed.

Lemma q_sum_nonneg a : Forall (fun x => 0 <= x) a -> 0 <= ColorCovar.np_sum a.
Proof.
  induction 1 as [|x a Hx _ IH]; [apply Qle_refl|].
  rewrite q_sum_cons. Lqa.lra.
Qed.

Lemma q_sum_zip_swap (f g : Q -> Q -> Q) xs : forall ys,
  (forall x y, f x y == g y x) ->
  ColorCovar.np_sum (zip_with f xs ys) == ColorCovar.np_sum (zip_with g ys xs).
Proof.
  induction xs as [|x xs IH]; intros [|y ys] H; cbn [zip_with];
    try reflexivity.
  rewrite !q_sum_cons, (IH ys H), (H x y). reflexivity.
Qed.

(** *** Sample covariance *)

Lemma finite_values_map xs : finite_values (map Finite xs) = xs.
Proof. induction xs as [|x xs IH]; [reflexivity|]. cbn. f_equal. exact IH. Qed.

Lemma count_nonfinite_map xs : count_nonfinite (map Finite xs) = 0%nat.
Proof. induction xs as [|x xs IH]; [reflexivity|]. exact IH. Qed.

Lemma count_nonfinite_In a : In NonFinite a -> (0 < count_nonfinite a)%nat.
Proof.
  induction a as [|s a IH]; [intros []|].
  intros [->|Hin]; unfold count_nonfinite in *; cbn [List.filter].
  - cbn. lia.
  - specialize (IH Hin). destruct s; cbn [length]; lia.
Qed.

Lemma get_sample_covar_finite x xs ys :
  length (x :: xs) = length ys ->
  get_sample_covar (map Finite (x :: xs)) (map Finite ys)
  = Ok (Some (covar (x :: xs) ys)).
Proof.
  intros Hlen. unfold get_sample_covar.
  rewrite !length_map, Hlen, Nat.eqb_refl, !count_nonfinite_map.
  cbn [negb Nat.ltb Nat.leb orb].
  rewrite !finite_values_map. reflexivity.
Qed.

(** X3: [get_sample_covar] checks the sizes first: arrays of different
    lengths are refused with the size error whatever they hold; arrays of one
    length holding an entry that is not finite are refused with the NaN
    error; and two empty arrays raise nothing (the answer is NaN). *)
Theorem get_sample_covar_errors :
  forall xi yi,
    (length xi <> length yi ->
     get_sample_covar xi yi
     = Raise (ValueError "X and Y sample size must be equal."))
    /\ (length xi = length yi -> In NonFinite xi \/ In NonFinite yi ->
        get_sample_covar xi yi = Raise (ValueError "Sample contains NaN entries"))
    /\ get_sample_covar [] [] = Ok None.
Proof.
  intros xi yi. split; [|split; [|reflexivity]].
  - intros Hne. unfold get_sample_covar.
    destruct (Nat.eqb_spec (length xi) (length yi)); [contradiction|reflexivity].
  - intros Heq Hin. unfold get_sample_covar.
    rewrite Heq, Nat.eqb_refl. cbn [negb].
    replace ((0 <? count_nonfinite xi)%nat || (0 <? count_nonfinite yi)%nat)
      with true; [reflexivity|].
    symmetry. apply orb_true_iff.
    destruct Hin as [H|H]; [left|right];
      apply Nat.ltb_lt, count_nonfinite_In, H.
Qed.

Lemma get_sample_covar_errors_witness :
  get_sample_covar [Finite 1; NonFinite] [Finite 2]
  = Raise (ValueError "X and Y sample size must be equal.")
  /\ get_sample_covar [Finite 1; NonFinite] [Finite 2; Finite 3]
     = Raise (ValueError "Sample contains NaN entries").
Proof.
  split.
  - apply (get_sample_covar_errors [Finite 1; NonFinite] [Finite 2]).
    cbn. lia.
  - apply (get_sample_covar_errors [Finite 1; NonFinite] [Finite 2; Finite 3]).
    + reflexivity.
    + left. right. left. reflexivity.
Defined.

Lemma covar_sym xs ys : length xs = length ys -> covar xs ys == covar ys xs.
Proof.
  intros Hlen. unfold covar. rewrite Hlen.
  rewrite (q_sum_zip_swap
             (fun x y => (x - ColorCovar.np_mean xs) * (y - ColorCovar.np_mean ys))
             (fun y x => (y - ColorCovar.np_mean ys) * (x - ColorCovar.np_mean xs))).
  - reflexivity.
  - intros x y. ring.
Qed.

Lemma zip_with_self {A B} (f : A -> A -> B) xs :
  zip_with f xs xs = map (fun x => f x x) xs.
Proof. induction xs as [|x xs IH]; [reflexivity|]. cbn. f_equal. exact IH. Qed.

Lemma Qdiv_nonneg a b : 0 <= a -> 0 <= b -> 0 <= a / b.
Proof.
  intros Ha Hb. unfold Qdiv. apply Qmult_le_0_compat; [exact Ha|].
  apply Qinv_le_0_compat, Hb.
Qed.

Lemma length_nonneg_Q {A} (l : list A) : 0 <= inject_Z (Z.of_nat (length l)).
Proof.
  change 0 with (inject_Z 0). rewrite <- Zle_Qle. lia.
Qed.

Lemma covar_self_nonneg xs : 0 <= covar xs xs.
Proof.
  unfold covar. apply Qdiv_nonneg; [|apply length_nonneg_Q].
  apply q_sum_nonneg. rewrite zip_with_self. apply Forall_map.
  apply Forall_forall. intros x _. cbn beta.
  set (d := x - ColorCovar.np_mean xs). Lqa.nra.
Qed.

(** X4: on finite samples of one length the sample covariance of [x] and [y]
    is that of [y] and [x]. *)
Theorem get_sample_covar_symmetric :
  forall x xs ys,
    length (x :: xs) = length ys ->
    exists c1 c2,
      get_sample_covar (map Finite (x :: xs)) (map Finite ys) = Ok (Some c1)
      /\ get_sample_covar (map Finite ys) (map Finite (x :: xs)) = Ok (Some c2)
      /\ c1 == c2.
Proof.
  intros x xs [|y ys] Hlen; [discriminate|].
  exists (covar (x :: xs) (y :: ys)), (covar (y :: ys) (x :: xs)).
  split; [apply get_sample_covar_finite, Hlen|].
  split; [apply get_sample_covar_finite; symmetry; exact Hlen|].
  apply covar_sym, Hlen.
Qed.

Lemma get_sample_covar_symmetric_witness :
  exists c1 c2,
    get_sample_covar (map Finite [1; 2; 4]) (map Finite [3; 5; 4]) = Ok (Some c1)
    /\ get_sample_covar (map Finite [3; 5; 4]) (map Finite [1; 2; 4]) = Ok (Some c2)
    /\ c1 == c2.
Proof.
  apply (get_sample_covar_symmetric 1 [2; 4] [3; 5; 4]). reflexivity.
Defined.

(** X5: the sample covariance of a finite, non-empty sample with itself (its
    variance) is never negative. *)
Theorem get_sample_covar_self_nonneg :
  forall x xs,
    exists c,
      get_sample_covar (map Finite (x :: xs)) (map Finite (x :: xs)) = Ok (Some c)
      /\ 0 <= c.
Proof.
  intros x xs. exists (covar (x :: xs) (x :: xs)).
  split; [apply get_sample_covar_finite; reflexivity|apply covar_self_nonneg].
Qed.

(** *** Weighted averages *)

Lemma nansum_cons_some x a : nansum (Some x :: a) = x + nansum a.
Proof. reflexivity. Qed.

Lemma nansum_map_Some a : nansum (map Some a) == ColorCovar.np_sum a.
Proof.
  induction a as [|x a IH]; [reflexivity|].
  cbn [map]. rewrite nansum_cons_some, q_sum_cons, IH. reflexivity.
Qed.

Lemma nansum_repeat c n :
  nansum (repeat (Some c) n) == inject_Z (Z.of_nat n) * c.
Proof.
  induction n as [|n IH]; [cbn; ring|].
  cbn [repeat]. rewrite nansum_cons_some, IH, Nat2Z.inj_succ.
  unfold Z.succ. rewrite inject_Z_plus. change (inject_Z 1) with 1. ring.
Qed.

Lemma nansum_products vs : forall ws,
  nansum (zip_with nan_mul (map Some vs) (map Some ws))
  == ColorCovar.np_sum (zip_with Qmult vs ws).
Proof.
  induction vs as [|v vs IH]; intros [|w ws]; cbn [map zip_with];
    try reflexivity.
  cbn [nan_mul]. rewrite nansum_cons_some, q_sum_cons, IH. reflexivity.
Qed.

Lemma nansum_uniform_products c vs :
  nansum (zip_with nan_mul (map Some vs) (repeat (Some c) (length vs)))
  == c * ColorCovar.np_sum vs.
Proof.
  induction vs as [|v vs IH]; [cbn; ring|].
  cbn [map length repeat zip_with nan_mul].
  rewrite nansum_cons_some, q_sum_cons, IH. ring.
Qed.

Lemma nansum_uniform_deviations a c vs :
  nansum (zip_with (squared_deviation a) (map Some vs)
                   (repeat (Some c) (length vs)))
  == c * ColorCovar.np_sum (map (fun v => (v - a) ^ 2) vs).
Proof.
  induction vs as [|v vs IH]; [cbn; ring|].
  cbn [map length repeat zip_with squared_deviation option_map nan_mul].
  rewrite nansum_cons_some, q_sum_cons, IH. ring.
Qed.

Lemma broadcast_same {A} (a b : list A) :
  length a = length b -> broadcast a b = Ok (a, b).
Proof. intros H. unfold broadcast. rewrite H, Nat.eqb_refl. reflexivity. Qed.

Lemma Qeq_bool_false x y : ~ x == y -> Qeq_bool x y = false.
Proof.
  intros H. destruct (Qeq_bool x y) eqn:E; [|reflexivity].
  apply Qeq_bool_eq in E. contradiction.
Qed.

Lemma weighted_avg_same_length values weights :
  length values = length weights -> ~ nansum weights == 0 ->
  weighted_avg values weights
  = Ok (Some (nansum (zip_with nan_mul values weights) / nansum weights,
              nansum (zip_with
                        (squared_deviation
                           (nansum (zip_with nan_mul values weights)
                            / nansum weights))
                        values weights)
              / nansum weights)).
Proof.
  intros Hlen Hsum. unfold weighted_avg.
  rewrite (broadcast_same _ _ Hlen), (Qeq_bool_false _ _ Hsum). reflexivity.
Qed.

Lemma length_pos_Q {A} (x : A) (l : list A) :
  ~ inject_Z (Z.of_nat (length (x :: l))) == 0.
Proof.
  change 0 with (inject_Z 0). rewrite inject_Z_injective. cbn [length]. lia.
Qed.

(** X6: with one weight [c <> 0] for all of a non-empty array of numbers,
    [weighted_avg] returns the arithmetic mean and the mean squared deviation
    from it. *)
Theorem weighted_avg_uniform_weights :
  forall v vs c,
    ~ c == 0 ->
    exists average variance,
      weighted_avg (map Some (v :: vs)) (repeat (Some c) (length (v :: vs)))
      = Ok (Some (average, variance))
      /\ average == ColorCovar.np_mean (v :: vs)
      /\ variance
         == ColorCovar.np_mean (map (fun x => (x - average) ^ 2) (v :: vs)).
Proof.
  intros v vs c Hc.
  pose proof (length_pos_Q v vs) as Hn.
  assert (Hsum : ~ nansum (repeat (Some c) (length (v :: vs))) == 0).
  { rewrite nansum_repeat. intros H.
    apply Qmult_integral in H. destruct H; contradiction. }
  eexists. eexists. split.
  - apply weighted_avg_same_length; [|exact Hsum].
    rewrite length_map, repeat_length. reflexivity.
  - split.
    + rewrite nansum_uniform_products, nansum_repeat.
      unfold ColorCovar.np_mean. field. split; assumption.
    + rewrite nansum_uniform_deviations, nansum_repeat.
      unfold ColorCovar.np_mean. rewrite length_map. field. split; assumption.
Qed.

Lemma weighted_avg_uniform_weights_witness :
  exists average variance,
    weighted_avg (map Some [1; 2; 6]) (repeat (Some (1 # 2)) 3)
    = Ok (Some (average, variance))
    /\ average == ColorCovar.np_mean [1; 2; 6]
    /\ variance
       == ColorCovar.np_mean (map (fun x => (x - average) ^ 2) [1; 2; 6]).
Proof.
  apply (weighted_avg_uniform_weights 1 [2; 6] (1 # 2)).
  intros H. discriminate H.
Defined.

(** X7: a NaN is not treated alike in the two arrays.  An entry whose value
    is NaN adds nothing to the weighted sum but its weight still counts in
    the total weight; an entry whose weight is NaN is left out of both. *)
Theorem weighted_avg_nan_asymmetry :
  forall v w vs ws,
    length vs = length ws ->
    (~ w + ColorCovar.np_sum ws == 0 ->
     exists average variance,
       weighted_avg (None :: map Some vs) (Some w :: map Some ws)
       = Ok (Some (average, variance))
       /\ average
          == ColorCovar.np_sum (zip_with Qmult vs ws)
             / (w + ColorCovar.np_sum ws))
    /\ (~ ColorCovar.np_sum ws == 0 ->
        exists average variance,
          weighted_avg (Some v :: map Some vs) (None :: map Some ws)
          = Ok (Some (average, variance))
          /\ average
             == ColorCovar.np_sum (zip_with Qmult vs ws) / ColorCovar.np_sum ws).
Proof.
  intros v w vs ws Hlen. split; intros Hsum.
  - eexists. eexists. split.
    + apply weighted_avg_same_length.
      * cbn [length]. rewrite !length_map, Hlen. reflexivity.
      * rewrite nansum_cons_some, nansum_map_Some. exact Hsum.
    + cbn [zip_with nan_mul nansum fold_right].
      fold (nansum (zip_with nan_mul (map Some vs) (map Some ws))).
      fold (nansum (map Some ws)).
      rewrite nansum_products, nansum_map_Some. reflexivity.
  - eexists. eexists. split.
    + apply weighted_avg_same_length.
      * cbn [length]. rewrite !length_map, Hlen. reflexivity.
      * cbn [nansum fold_right]. fold (nansum (map Some ws)).
        rewrite nansum_map_Some. exact Hsum.
    + cbn [zip_with nan_mul nansum fold_right].
      fold (nansum (zip_with nan_mul (map Some vs) (map Some ws))).
      fold (nansum (map Some ws)).
      rewrite nansum_products, nansum_map_Some. reflexivity.
Qed.

Lemma weighted_avg_nan_asymmetry_witness :
  (exists average variance,
      weighted_avg (None :: map Some [4]) (Some 1 :: map Some [1])
      = Ok (Some (average, variance))
      /\ average == ColorCovar.np_sum (zip_with Qmult [4] [1])
                    / (1 + ColorCovar.np_sum [1]))
  /\ (exists average variance,
         weighted_avg (Some 9 :: map Some [4]) (None :: map Some [1])
         = Ok (Some (average, variance))
         /\ average == ColorCovar.np_sum (zip_with Qmult [4] [1])
                       / ColorCovar.np_sum [1]).
Proof.
  destruct (weighted_avg_nan_asymmetry 9 1 [4] [1] eq_refl) as [H1 H2].
  split; [apply H1|apply H2]; intros H; discriminate H.
Defined.

(** Entries that are NaN or not negative. *)
Lemma nansum_nonneg a :
  Forall (fun e => match e with Some x => 0 <= x | None => True end) a ->
  0 <= nansum a.
Proof.
  induction 1 as [|e a He _ IH]; [apply Qle_refl|].
  destruct e as [x|]; cbn [nansum fold_right]; fold (nansum a); Lqa.lra.
Qed.

Lemma squared_deviations_nonneg average vs : forall ws,
  Forall (fun e => match e with Some x => 0 <= x | None => True end) ws ->
  Forall (fun e => match e with Some x => 0 <= x | None => True end)
         (zip_with (squared_deviation average) vs ws).
Proof.
  induction vs as [|v vs IH]; intros ws Hws; [constructor|].
  destruct Hws as [|w ws Hw Hws]; [constructor|].
  cbn [zip_with]. constructor; [|apply IH, Hws].
  destruct v as [x|], w as [y|]; cbn; try exact I.
  set (d := x - average). Lqa.nra.
Qed.

Lemma Forall_repeat_intro {A} (P : A -> Prop) y n :
  P y -> Forall P (repeat y n).
Proof. intros Hy. induction n; cbn; constructor; assumption. Qed.

Lemma broadcast_weights {A} (P : A -> Prop) (a b a' b' : list A) :
  broadcast a b = Ok (a', b') -> Forall P b -> Forall P b'.
Proof.
  unfold broadcast. destruct (length a =? length b)%nat.
  - intros [= <- <-] H. exact H.
  - destruct a as [|x [|x' a]], b as [|y [|y' b]]; intros Heq H;
      try discriminate Heq; injection Heq as <- <-;
      try exact H;
      apply Forall_cons in H as [Hy _];
      repeat (constructor; [exact Hy|]);
      first [constructor|apply Forall_repeat_intro, Hy].
Qed.

(** X8: when no weight is negative (NaN aside), the variance that
    [weighted_avg] returns is not negative, whatever NaN the arrays hold. *)
Theorem weighted_avg_variance_nonneg :
  forall values weights average variance,
    Forall (fun e => match e with Some x => 0 <= x | None => True end) weights ->
    weighted_avg values weights = Ok (Some (average, variance)) ->
    0 <= variance.
Proof.
  intros values weights average variance Hw. unfold weighted_avg.
  destruct (broadcast values weights) as [[vs ws]|e] eqn:Hb; [|discriminate].
  destruct (Qeq_bool (nansum weights) 0); [discriminate|].
  intros [= <- <-].
  apply Qdiv_nonneg; [|apply nansum_nonneg, Hw].
  apply nansum_nonneg, squared_deviations_nonneg.
  apply (broadcast_weights _ _ _ _ _ Hb Hw).
Qed.

Lemma weighted_avg_variance_nonneg_witness :
  exists average variance,
    weighted_avg [Some 1; None; Some 5] [Some 2; Some 1; None]
    = Ok (Some (average, variance))
    /\ 0 <= variance.
Proof.
  eexists. eexists. split; [reflexivity|].
  eapply (weighted_avg_variance_nonneg [Some 1; None; Some 5]
            [Some 2; Some 1; None]).
  - forall_list; try exact I; discriminate.
  - reflexivity.
Defined.

End StatsFacts.

Module SkyRangeFacts.
Import Sky SkyTerm.
Local Open Scope R_scope.

Lemma distance_sky_haversine lon1 lat1 lon2 lat2 unit :
  distance_sky lon1 lat1 lon2 lat2 unit
  = if has_deg unit
    then np_rad2deg
           (2 * asin (sqrt (haversine (np_radians lon1) (np_radians lat1)
                                      (np_radians lon2) (np_radians lat2))))
    else 2 * asin (sqrt (haversine lon1 lat1 lon2 lat2)).
Proof. unfold distance_sky, haversine. destruct (has_deg unit); reflexivity. Qed.

Lemma sin_half_sqr x : sin (x / 2) ^ 2 = (1 - cos x) / 2.
Proof.
  pose proof (cos_2a_sin (x / 2)) as H.
  replace (2 * (x / 2)) with x in H by lra. lra.
Qed.

(** The term under the root lies between [0] and [1] for all coordinates, so
    that neither [np.sqrt] nor [np.arcsin] leaves its domain. *)
Lemma haversine_range l1 b1 l2 b2 : 0 <= haversine l1 b1 l2 b2 <= 1.
Proof.
  unfold haversine. rewrite (sin_half_sqr (b1 - b2)), cos_minus.
  pose proof (sin2_cos2 b1) as H1. pose proof (sin2_cos2 b2) as H2.
  unfold Rsqr in H1, H2.
  set (t := sin ((l1 - l2) / 2) ^ 2).
  assert (Ht : 0 <= t <= 1).
  { unfold t. pose proof (SIN_bound ((l1 - l2) / 2)) as Hs.
    set (s := sin ((l1 - l2) / 2)) in *. cbn [pow]. nra. }
  set (c1 := cos b1) in *. set (c2 := cos b2) in *.
  set (s1 := sin b1) in *. set (s2 := sin b2) in *.
  clearbody t c1 c2 s1 s2.
  assert (Ha : 0 <= t * (c1 + c2) ^ 2)
    by (apply Rmult_le_pos; [lra|apply pow2_ge_0]).
  assert (Hb : 0 <= (1 - t) * (c1 - c2) ^ 2)
    by (apply Rmult_le_pos; [lra|apply pow2_ge_0]).
  assert (Hc : 0 <= t * (c1 - c2) ^ 2)
    by (apply Rmult_le_pos; [lra|apply pow2_ge_0]).
  assert (Hd : 0 <= (1 - t) * (c1 + c2) ^ 2)
    by (apply Rmult_le_pos; [lra|apply pow2_ge_0]).
  pose proof (pow2_ge_0 (s1 - s2)) as He.
  pose proof (pow2_ge_0 (s1 + s2)) as Hf.
  cbn [pow] in *. split; lra.
Qed.

Lemma asin_unit_range y : 0 <= y <= 1 -> 0 <= asin y <= PI / 2.
Proof.
  intros Hy. pose proof (asin_bound y) as [Hlo Hhi]. split; [|exact Hhi].
  destruct (Rle_lt_dec 0 (asin y)) as [H|H]; [exact H|exfalso].
  assert (Hs : sin (asin y) < 0).
  { apply sin_lt_0_var; [|exact H]. pose proof PI_RGT_0. lra. }
  rewrite sin_asin in Hs by lra. lra.
Qed.

Lemma sqrt_unit_range x : 0 <= x <= 1 -> 0 <= sqrt x <= 1.
Proof.
  intros [H0 H1]. split; [apply sqrt_pos|].
  rewrite <- sqrt_1. apply sqrt_le_1_alt, H1.
Qed.

(** X9: for all coordinates the term under the square root of
    [distance_sky] lies in [[0, 1]], and the distance lies between [0] and
    half a turn ([PI] in radians, [180] in degrees). *)
Theorem distance_sky_range :
  forall lon1 lat1 lon2 lat2 unit,
    0 <= haversine lon1 lat1 lon2 lat2 <= 1
    /\ 0 <= distance_sky lon1 lat1 lon2 lat2 unit <= half_turn unit.
Proof.
  intros. split; [apply haversine_range|].
  rewrite distance_sky_haversine. unfold half_turn, np_rad2deg.
  pose proof PI_RGT_0 as Hpi.
  destruct (has_deg unit).
  - pose proof (asin_unit_range _ (sqrt_unit_range _
        (haversine_range (np_radians lon1) (np_radians lat1)
                         (np_radians lon2) (np_radians lat2)))) as [Hlo Hhi].
    set (a := asin _) in *. split.
    + apply Rmult_le_pos; [lra|]. apply Rlt_le, Rdiv_lt_0_compat; lra.
    + replace 180 with (PI * (180 / PI)) at 2 by (field; lra).
      apply Rmult_le_compat_r; [|lra].
      apply Rlt_le, Rdiv_lt_0_compat; lra.
  - pose proof (asin_unit_range _ (sqrt_unit_range _
        (haversine_range lon1 lat1 lon2 lat2))) as [Hlo Hhi].
    lra.
Qed.

Lemma sin_sqr_shift x : sin (x + PI) ^ 2 = sin x ^ 2.
Proof. rewrite neg_sin. ring. Qed.

(** X10: adding a full turn to a longitude ([360] in degrees, [2 * PI] in
    radians) does not change the distance. *)
Theorem distance_sky_full_turn :
  forall lon1 lat1 lon2 lat2 unit,
    distance_sky (lon1 + full_turn unit) lat1 lon2 lat2 unit
    = distance_sky lon1 lat1 lon2 lat2 unit.
Proof.
  intros. rewrite !distance_sky_haversine. unfold full_turn, haversine.
  pose proof PI_RGT_0 as Hpi.
  destruct (has_deg unit).
  - replace ((np_radians (lon1 + 360) - np_radians lon2) / 2)
      with ((np_radians lon1 - np_radians lon2) / 2 + PI)
      by (unfold np_radians; field; lra).
    rewrite sin_sqr_shift. reflexivity.
  - replace ((lon1 + 2 * PI - lon2) / 2) with ((lon1 - lon2) / 2 + PI) by lra.
    rewrite sin_sqr_shift. reflexivity.
Qed.

End SkyRangeFacts.

Module BatchFacts.
Import Mixture Components Fit FitCount.

(** X11: [gmm_components] never answers less than one component, also for a
    [max_components] below one; it divides by [n_per_component], so a zero
    there raises [ZeroDivisionError] for a vector, though not for [None]. *)
Theorem gmm_components_bounds :
  forall (d : list R) (max_components n_per_component : Z),
    (n_per_component <> 0%Z ->
     exists n,
       gmm_components (Some d) max_components n_per_component = Ok (Some n)
       /\ (1 <= n <= Z.max 1 max_components)%Z)
    /\ gmm_components (Some d) max_components 0 = Raise ZeroDivisionError
    /\ gmm_components (@None (list R)) max_components 0 = Ok None.
Proof.
  intros d mc npc. split; [|split; reflexivity].
  intros Hn. eexists. split.
  - apply ComponentsFacts.gmm_components_some, Hn.
  - unfold clamp. lia.
Qed.

Lemma gmm_components_bounds_witness :
  exists n,
    gmm_components (Some (repeat 0%R 50)) 0 20 = Ok (Some n)
    /\ (1 <= n <= Z.max 1 0)%Z.
Proof.
  apply (gmm_components_bounds (repeat 0%R 50) 0 20). discriminate.
Defined.

Section Batch.

Variable rng : Type.
Variable np_random_choice : rng -> nat -> nat -> list nat * rng.
Variable fit : Z -> list R -> result GaussianMixture.

(** What the two branches make of one entry whose fit succeeds. *)
Lemma map_zip_lookup {A B C} (f : A -> B -> result C) xs : forall ys cs,
  map_zip f xs ys = Ok cs ->
  length cs = Nat.min (length xs) (length ys)
  /\ forall i x y, xs !! i = Some x -> ys !! i = Some y ->
       exists c, f x y = Ok c /\ cs !! i = Some c.
Proof.
  induction xs as [|x xs IH]; intros ys cs H.
  - cbn in H. injection H as <-. split; [reflexivity|]. intros i x y [=].
  - destruct ys as [|y ys].
    + cbn in H. injection H as <-. split; [reflexivity|]. intros i x' y' _ [=].
    + cbn [map_zip] in H.
      destruct (f x y) as [c|e] eqn:Hf; [|discriminate].
      destruct (map_zip f xs ys) as [cs'|e] eqn:Hrec; [|discriminate].
      injection H as <-. destruct (IH ys cs' Hrec) as [Hlen Hall].
      split; [cbn; rewrite Hlen; reflexivity|].
      intros [|i] x' y' Hx Hy.
      * injection Hx as <-. injection Hy as <-. exists c. split; [exact Hf|reflexivity].
      * apply (Hall i x' y' Hx Hy).
Qed.

Lemma map_zip_total {A B C} (f : A -> B -> result C) xs : forall ys,
  (forall i x y, xs !! i = Some x -> ys !! i = Some y -> exists c, f x y = Ok c) ->
  exists cs, map_zip f xs ys = Ok cs.
Proof.
  induction xs as [|x xs IH]; intros ys H; [exists []; reflexivity|].
  destruct ys as [|y ys]; [exists []; reflexivity|].
  cbn [map_zip].
  destruct (H 0%nat x y eq_refl eq_refl) as [c ->].
  destruct (IH ys) as [cs ->].
  { intros i x' y' Hx Hy. apply (H (S i) x' y' Hx Hy). }
  exists (c :: cs). reflexivity.
Qed.

(** The first pair on which [f] raises decides the answer. *)
Lemma map_zip_raises {A B C} (f : A -> B -> result C) xs : forall ys i x y e,
  xs !! i = Some x -> ys !! i = Some y -> f x y = Raise e ->
  (forall j x' y', (j < i)%nat -> xs !! j = Some x' -> ys !! j = Some y' ->
                   exists c, f x' y' = Ok c) ->
  map_zip f xs ys = Raise e.
Proof.
  induction xs as [|x0 xs IH]; intros ys i x y e Hx Hy Hf Hbefore; [discriminate|].
  destruct ys as [|y0 ys]; [discriminate|].
  cbn [map_zip]. destruct i as [|i].
  - injection Hx as <-. injection Hy as <-. rewrite Hf. reflexivity.
  - destruct (Hbefore 0%nat x0 y0 ltac:(lia) eq_refl eq_refl) as [c ->].
    rewrite (IH ys i x y e Hx Hy Hf); [reflexivity|].
    intros j x' y' Hj Hx' Hy'. apply (Hbefore (S j) x' y'); [lia|assumption..].
Qed.

Lemma counts_lookup (ds : list (option (list R))) max_components i d :
  ds !! i = Some d ->
  map (fun d => match d with
                | None => None
                | Some v => Some (component_count max_components v)
                end) ds !! i
  = Some (match d with
          | None => None
          | Some v => Some (component_count max_components v)
          end).
Proof.
  intros H.
  change (map ?f ds) with (f <$> ds).
  rewrite list_lookup_fmap, H. reflexivity.
Qed.

Lemma mp_gmm_without_subsampling max_components parallel (w : world rng) :
  mp_gmm rng np_random_choice fit max_components parallel None w
  = (if uses_pool parallel (data w)
     then map_zip (fun d n => _mp_gmm fit d n) (data w)
            (map (fun d => match d with
                           | None => None
                           | Some v => Some (component_count max_components v)
                           end) (data w))
     else map_zip (fit_entry fit)
            (map (fun d => match d with
                           | None => None
                           | Some v => Some (component_count max_components v)
                           end) (data w))
            (data w), w).
Proof.
  unfold mp_gmm. rewrite ComponentsFacts.all_components_map.
  unfold uses_pool. destruct (_ && _); reflexivity.
Qed.

(** X12: without subsampling, and when every fit returns a model, [mp_gmm]
    returns one result per entry and leaves the list alone; but what it makes
    of a fit that did not converge depends on the branch: the list
    comprehension returns the model as it is, the pool of workers (more than
    100 entries and [parallel=True]) returns [None] in its place. *)
Theorem mp_gmm_unconverged_by_branch :
  forall max_components parallel (w : world rng) idx d g b,
    (forall k v, exists g', fit k v = Ok g') ->
    data w !! idx = Some (Some d) ->
    fit (component_count max_components d) d = Ok g ->
    converged_ g = Some b ->
    exists rs,
      mp_gmm rng np_random_choice fit max_components parallel None w
      = (Ok rs, w)
      /\ length rs = length (data w)
      /\ rs !! idx
         = Some (if uses_pool parallel (data w)
                 then (if b then Some g else None)
                 else Some g).
Proof.
  intros mc parallel w idx d g b Hfit Hd Hg Hb.
  rewrite mp_gmm_without_subsampling.
  pose proof (counts_lookup (data w) mc idx (Some d) Hd) as Hn.
  destruct (uses_pool parallel (data w)).
  - destruct (map_zip_total (fun d n => _mp_gmm fit d n) (data w)
                (map (fun d => match d with
                               | None => None
                               | Some v => Some (component_count mc v)
                               end) (data w))) as [rs Hrs].
    { intros i [x|] y Hx Hy; [|exists None; reflexivity].
      rewrite (counts_lookup _ mc i _ Hx) in Hy. injection Hy as <-.
      cbn [_mp_gmm]. destruct (Hfit (component_count mc x) x) as [g' ->].
      destruct (converged_ g') as [[|]|]; eexists; reflexivity. }
    exists rs. split; [rewrite Hrs; reflexivity|].
    destruct (map_zip_lookup _ _ _ _ Hrs) as [Hlen Hall].
    split; [rewrite Hlen, length_map; lia|].
    destruct (Hall idx _ _ Hd Hn) as (c & Hc & ->).
    cbn [_mp_gmm] in Hc. rewrite Hg, Hb in Hc.
    destruct b; injection Hc as <-; reflexivity.
  - destruct (map_zip_total (fit_entry fit)
                (map (fun d => match d with
                               | None => None
                               | Some v => Some (component_count mc v)
                               end) (data w)) (data w)) as [rs Hrs].
    { intros i x [y|] Hx Hy; [|exists None; destruct x; reflexivity].
      rewrite (counts_lookup _ mc i _ Hy) in Hx. injection Hx as <-.
      cbn [fit_entry]. destruct (Hfit (component_count mc y) y) as [g' ->].
      eexists; reflexivity. }
    exists rs. split; [rewrite Hrs; reflexivity|].
    destruct (map_zip_lookup _ _ _ _ Hrs) as [Hlen Hall].
    split; [rewrite Hlen, length_map; lia|].
    destruct (Hall idx _ _ Hn Hd) as (c & Hc & ->).
    cbn [fit_entry] in Hc. rewrite Hg in Hc. injection Hc as <-. reflexivity.
Qed.


End Batch.

Lemma mp_gmm_unconverged_by_branch_witness :
  exists rs,
    mp_gmm unit Inputs.first_indices MoreInputs.fit_unconverged 3 true None
           (World [Some [1%R]; None] tt)
    = (Ok rs, World [Some [1%R]; None] tt)
    /\ length rs = 2%nat
    /\ rs !! 0%nat = Some (Some MoreInputs.gmm_unconverged).
Proof.
  apply (mp_gmm_unconverged_by_branch unit Inputs.first_indices
           MoreInputs.fit_unconverged 3 true (World [Some [1%R]; None] tt)
           0%nat [1%R] MoreInputs.gmm_unconverged false).
  - intros k v. exists MoreInputs.gmm_unconverged. reflexivity.
  - reflexivity.
  - reflexivity.
  - reflexivity.
Defined.


Section LegacyBatch.

Variable fit : list R -> result GaussianMixture.

(** What the older worker makes of one vector. *)
Lemma legacy_worker_total d :
  (forall e, fit d = Raise e -> exists msg, e = ValueError msg) ->
  (forall g, fit d = Ok g -> converged_ g <> None) ->
  LegacyFit._mp_gmm fit d
  = Ok (match fit d with
        | Ok g => if converged_ g is Some true then Some g else None
        | Raise _ => None
        end).
Proof.
  intros He Hc. unfold LegacyFit._mp_gmm.
  destruct (fit d) as [g|e].
  - specialize (Hc g eq_refl). destruct (converged_ g) as [[|]|];
      [reflexivity|reflexivity|contradiction].
  - destruct (He e eq_refl) as [msg ->]. reflexivity.
Qed.

(** X14: the older [mp_gmm] of [utils.py] catches [ValueError]: when that is
    all a fit ever raises, the call returns one result per vector, the fitted
    model where the fit converged and NaN (here [None]) where it raised or
    did not converge. *)
Theorem legacy_mp_gmm_catches_value_errors :
  (forall d e, fit d = Raise e -> exists msg, e = ValueError msg) ->
  (forall d g, fit d = Ok g -> converged_ g <> None) ->
  forall data,
    LegacyFit.mp_gmm fit data
    = Ok (map (fun d =>
                 match fit d with
                 | Ok g => if converged_ g is Some true then Some g else None
                 | Raise _ => None
                 end) data).
Proof.
  intros He Hc data. induction data as [|d data IH]; [reflexivity|].
  cbn [LegacyFit.mp_gmm map].
  rewrite (legacy_worker_total d (He d) (Hc d)), IH. reflexivity.
Qed.

End LegacyBatch.

Lemma legacy_mp_gmm_catches_value_errors_witness :
  LegacyFit.mp_gmm MoreInputs.legacy_fit_two_points [[1%R; 2%R]; [4%R]]
  = Ok [Some Inputs.gmm_a; None].
Proof.
  apply (legacy_mp_gmm_catches_value_errors MoreInputs.legacy_fit_two_points).
  - intros [|x [|y d]] e H; cbn in H; try discriminate H;
      injection H as <-; eexists; reflexivity.
  - intros [|x [|y d]] g H; cbn in H; try discriminate H.
    injection H as <-. discriminate.
Defined.

End BatchFacts.

Module KdeSplitFacts.
Import Np NpFacts Kde KdeParts.
Local Open Scope nat_scope.

(** *** Splitting *)

Lemma sum_list_repeat x k : sum_list (repeat x k) = (k * x)%nat.
Proof. induction k as [|k IH]; [reflexivity|]. cbn. rewrite IH. lia. Qed.

Lemma sum_split_sizes len n :
  n <> 0%nat -> sum_list (split_sizes len n) = len.
Proof.
  intros Hn. unfold split_sizes.
  rewrite sum_list_with_app.
  fold (sum_list (repeat (S (len / n)) (len mod n))).
  fold (sum_list (repeat (len / n) (n - len mod n))).
  rewrite !sum_list_repeat.
  pose proof (Nat.div_mod_eq len n) as Hdm.
  pose proof (Nat.mod_upper_bound len n Hn) as Hlt.
  nia.
Qed.

Lemma length_split_sizes len n :
  n <> 0%nat -> length (split_sizes len n) = n.
Proof.
  intros Hn. unfold split_sizes. rewrite length_app, !repeat_length.
  pose proof (Nat.mod_upper_bound len n Hn). lia.
Qed.

Lemma split_sizes_even len n :
  Forall (fun k => k = (len / n)%nat \/ k = S (len / n)) (split_sizes len n).
Proof.
  unfold split_sizes. apply Forall_app. split; apply Forall_forall;
    intros k Hk; apply list_elem_of_In, repeat_spec in Hk; auto.
Qed.

Lemma cut_length a sizes : forall rest, length (cut a sizes rest) = length sizes.
Proof.
  induction sizes as [|k sizes IH]; intros rest; [reflexivity|].
  cbn [cut length]. rewrite IH. reflexivity.
Qed.

Lemma cut_shape0 a sizes : forall rest, map shape0 (cut a sizes rest) = sizes.
Proof.
  induction sizes as [|k sizes IH]; intros rest; [reflexivity|].
  cbn [cut map]. rewrite IH. reflexivity.
Qed.

Lemma cut_flat a sizes : forall rest,
  concat (map flat (cut a sizes rest))
  = take (sum_list sizes * row_size a) rest.
Proof.
  induction sizes as [|k sizes IH]; intros rest; [reflexivity|].
  cbn [cut map concat flat]. rewrite IH.
  rewrite take_take_drop. f_equal.
  change (sum_list (k :: sizes)) with (k + sum_list sizes).
  generalize (sum_list sizes) (row_size a). intros. nia.
Qed.

(** X15: for a number of sections that is not zero, [np.array_split] as
    [mp_kde] uses it cuts a well-shaped array into exactly that many chunks,
    whose lengths differ by at most one and add up to the length of the
    array, and whose data, concatenated in order, are the data of the
    array. *)
Theorem array_split_partition :
  forall a n,
    n <> 0%nat -> well_shaped a ->
    exists chunks,
      array_split a n = Ok chunks
      /\ length chunks = n
      /\ sum_list (map shape0 chunks) = shape0 a
      /\ Forall (fun c => shape0 c = (shape0 a / n)%nat
                          \/ shape0 c = S (shape0 a / n)) chunks
      /\ concat (map flat chunks) = flat a.
Proof.
  intros a n Hn [_ Hflat]. unfold array_split.
  destruct (Nat.eqb_spec n 0) as [|_]; [contradiction|].
  eexists. split; [reflexivity|].
  split; [rewrite cut_length; apply length_split_sizes, Hn|].
  split; [rewrite cut_shape0; apply sum_split_sizes, Hn|].
  split.
  - pose proof (split_sizes_even (shape0 a) n) as H.
    rewrite <- (cut_shape0 a (split_sizes (shape0 a) n) (flat a)) in H.
    apply Forall_map in H. exact H.
  - rewrite cut_flat, sum_split_sizes by exact Hn.
    apply take_ge. lia.
Qed.

Lemma array_split_partition_witness :
  exists chunks,
    array_split MoreInputs.column5 2 = Ok chunks
    /\ length chunks = 2
    /\ sum_list (map shape0 chunks) = 5
    /\ Forall (fun c => shape0 c = 2 \/ shape0 c = 3) chunks
    /\ concat (map flat chunks) = flat MoreInputs.column5.
Proof.
  apply (array_split_partition MoreInputs.column5 2).
  - discriminate.
  - split; reflexivity.
Defined.

Example array_split_column5 :
  array_split MoreInputs.column5 2
  = Ok [ {| shape := [3; 1]; flat := [1; 2; 3]%R |};
         {| shape := [2; 1]; flat := [4; 5]%R |} ].
Proof. reflexivity. Qed.

(** *** Workers *)

Lemma newaxis_shape0 a : shape0 (newaxis a) = shape0 a.
Proof. unfold newaxis. destruct (shape a) as [|n [|m l]] eqn:E; try reflexivity.
  unfold shape0. cbn [shape]. rewrite E. reflexivity. Qed.

Lemma newaxis_well_shaped a : well_shaped a -> well_shaped (newaxis a).
Proof.
  intros H. unfold newaxis.
  destruct (shape a) as [|n [|m l]] eqn:E; [exact H| |exact H].
  destruct H as [_ Hf]. unfold well_shaped, shape0, row_size in *.
  rewrite E in Hf. cbn [shape flat hd tail fold_right] in *.
  split; [reflexivity|lia].
Qed.

Lemma promoted_well_shaped grid : well_shaped grid -> well_shaped (promoted grid grid).
Proof.
  intros H. unfold promoted. destruct (ndim grid =? 1); [|exact H].
  apply newaxis_well_shaped, H.
Qed.

Lemma promoted_shape0 grid a : shape0 (promoted grid a) = shape0 a.
Proof. unfold promoted. destruct (ndim grid =? 1); [apply newaxis_shape0|reflexivity]. Qed.

Section Workers.

Variable fit_score_samples : string -> R -> ndarray -> ndarray -> list R.

(** What [mp_kde] does once its two checks have passed. *)
Lemma mp_kde_result cpu_count grid data bandwidth kernel norm absolute sampling :
  cpu_count <> 0 ->
  fst (mp_kde cpu_count fit_score_samples grid data bandwidth kernel norm
              absolute sampling)
  = if absolute && not_sampling sampling then Raise config_error
    else if negb (ndim grid =? ndim data) then Raise dimension_error
    else
      normalize norm
        (match absolute, sampling with
         | true, Some f =>
             map (fun x =>
                    (x * (INR (shape0 (promoted grid data))
                          / np_sum (kde_scores cpu_count fit_score_samples grid
                                               data bandwidth kernel) * f))%R)
                 (kde_scores cpu_count fit_score_samples grid data bandwidth
                             kernel)
         | _, _ =>
             kde_scores cpu_count fit_score_samples grid data bandwidth kernel
         end).
Proof.
  intros Hn. unfold mp_kde, kde_scores, promoted.
  destruct (absolute && not_sampling sampling); [reflexivity|].
  destruct (negb (ndim grid =? ndim data)); [reflexivity|].
  unfold array_split. destruct (Nat.eqb_spec cpu_count 0); [contradiction|].
  reflexivity.
Qed.

(** The scorer answers one value per row of the grid it is given, and the
    value of a row does not depend on the rows around it. *)
Hypothesis score_length : forall kernel bandwidth data grid,
  length (fit_score_samples kernel bandwidth data grid) = shape0 grid.

Hypothesis score_rows : forall kernel bandwidth data grid k,
  k <= shape0 grid ->
  fit_score_samples kernel bandwidth data grid
  = fit_score_samples kernel bandwidth data (rows_take k grid)
    ++ fit_score_samples kernel bandwidth data (rows_drop k grid).

Lemma cut_scores kernel bandwidth data a sizes : forall rest,
  concat (map (fit_score_samples kernel bandwidth data) (cut a sizes rest))
  = fit_score_samples kernel bandwidth data
      {| shape := sum_list sizes :: tail (shape a);
         flat := take (sum_list sizes * row_size a) rest |}.
Proof.
  induction sizes as [|k sizes IH]; intros rest.
  - cbn [cut map concat]. symmetry. apply nil_length_inv.
    rewrite score_length. reflexivity.
  - cbn [cut map concat]. rewrite IH.
    change (sum_list (k :: sizes)) with (k + sum_list sizes).
    generalize (sum_list sizes). intros total.
    rewrite (score_rows kernel bandwidth data
               {| shape := k + total :: tail (shape a);
                  flat := take ((k + total) * row_size a) rest |} k)
      by (cbn; lia).
    unfold rows_take, rows_drop, shape0.
    cbn [shape flat hd tail].
    change (row_size {| shape := k + total :: tail (shape a);
                        flat := take ((k + total) * row_size a) rest |})
      with (row_size a).
    rewrite take_take, take_drop_commute.
    generalize (row_size a). intros rs.
    rewrite Nat.min_l by (apply Nat.mul_le_mono_r; lia).
    replace (k + total - k) with total by lia.
    rewrite <- Nat.mul_add_distr_r. reflexivity.
Qed.

Lemma kde_scores_single cpu_count grid data bandwidth kernel :
  cpu_count <> 0 -> well_shaped grid ->
  kde_scores cpu_count fit_score_samples grid data bandwidth kernel
  = map exp (fit_score_samples kernel bandwidth (promoted grid data)
                               (promoted grid grid)).
Proof.
  intros Hn Hg. apply promoted_well_shaped in Hg. destruct Hg as [Hs Hf].
  unfold kde_scores, array_split.
  destruct (Nat.eqb_spec cpu_count 0); [contradiction|].
  unfold _mp_kde.
  rewrite <- (map_map (fit_score_samples kernel bandwidth (promoted grid data))
                      (map exp)).
  rewrite <- concat_map, cut_scores, sum_split_sizes by exact Hn.
  rewrite take_ge by lia. rewrite <- Hs.
  destruct (promoted grid grid); reflexivity.
Qed.


End Workers.

Lemma zero_score_length kernel bandwidth data grid :
  length (MoreInputs.zero_score kernel bandwidth data grid) = shape0 grid.
Proof. apply repeat_length. Qed.

Lemma zero_score_rows kernel bandwidth data grid k :
  k <= shape0 grid ->
  MoreInputs.zero_score kernel bandwidth data grid
  = MoreInputs.zero_score kernel bandwidth data (rows_take k grid)
    ++ MoreInputs.zero_score kernel bandwidth data (rows_drop k grid).
Proof.
  intros Hk. unfold MoreInputs.zero_score, rows_take, rows_drop, shape0.
  cbn [shape hd]. rewrite <- repeat_app. f_equal. unfold shape0 in Hk. lia.
Qed.


Section Totals.
Local Open Scope R_scope.

Variable fit_score_samples : string -> R -> ndarray -> ndarray -> list R.

(** X17: once the two checks have passed, and when the scores of the workers
    do not sum to zero: with [norm="sum"] (and [absolute=False]) the values
    returned sum to one; with [absolute=True], a sampling factor [f] and no
    normalisation they sum to the number of data points times [f]. *)
Theorem mp_kde_totals :
  forall cpu_count grid data bandwidth kernel,
    cpu_count <> 0%nat -> ndim grid = ndim data ->
    np_sum (kde_scores cpu_count fit_score_samples grid data bandwidth kernel)
    <> 0 ->
    (exists mp,
        fst (mp_kde cpu_count fit_score_samples grid data bandwidth kernel
                    (Some "sum"%string) false None) = Ok mp
        /\ np_sum mp = 1)
    /\ (forall f, f <> 0 ->
        exists mp,
          fst (mp_kde cpu_count fit_score_samples grid data bandwidth kernel
                      None true (Some f)) = Ok mp
          /\ np_sum mp = INR (shape0 data) * f).
Proof.
  intros cpu grid data bandwidth kernel Hn Hd Hs. split.
  - eexists. split.
    + rewrite mp_kde_result by exact Hn. cbn [andb].
      rewrite Hd, Nat.eqb_refl. cbn [negb]. reflexivity.
    + rewrite np_sum_divide. field. exact Hs.
  - intros f Hf. eexists. split.
    + rewrite mp_kde_result by exact Hn. cbn [andb not_sampling].
      destruct (Req_dec_T f 0) as [|_]; [contradiction|].
      rewrite Hd, Nat.eqb_refl. cbn [negb normalize]. reflexivity.
    + rewrite np_sum_scale, promoted_shape0. field. exact Hs.
Qed.

End Totals.

Lemma column5_scores :
  kde_scores 2 Inputs.flat_score MoreInputs.column5 MoreInputs.column5 1
             "gaussian"%string
  = [exp 0; exp 0; exp 0; exp 0; exp 0]%R.
Proof. reflexivity. Qed.

Lemma mp_kde_totals_witness :
  (exists mp,
      fst (mp_kde 2 Inputs.flat_score MoreInputs.column5 MoreInputs.column5 1
                  "gaussian"%string (Some "sum"%string) false None) = Ok mp
      /\ np_sum mp = 1%R)
  /\ (exists mp,
         fst (mp_kde 2 Inputs.flat_score MoreInputs.column5 MoreInputs.column5 1
                     "gaussian"%string None true (Some 3%R)) = Ok mp
         /\ np_sum mp = (INR 5 * 3)%R).
Proof.
  destruct (mp_kde_totals Inputs.flat_score 2 MoreInputs.column5
              MoreInputs.column5 1%R "gaussian"%string) as [H1 H2].
  - discriminate.
  - reflexivity.
  - rewrite column5_scores. rewrite exp_0.
    rewrite !np_sum_cons, np_sum_nil. lra.
  - split; [exact H1|]. apply H2. lra.
Defined.

End KdeSplitFacts.

Module MomentsFacts.
Import Mixture Np NpFacts Sample Combine Moments.
Local Open Scope R_scope.

(** A method other than ["weighted"] and ["integral"] makes both
    [gmm_expected_value] and [gmm_population_variance] raise the error that
    names the method, whatever the model. *)
Theorem unknown_method_raises :
  forall score_samples gmm method sampling,
    method <> "weighted"%string -> method <> "integral"%string ->
    gmm_expected_value score_samples gmm method sampling
    = Raise (unknown_method method)
    /\ gmm_population_variance score_samples gmm method sampling
       = Raise (unknown_method method).
Proof.
  intros score gmm method sampling Hw Hi.
  unfold gmm_expected_value, gmm_population_variance.
  destruct (String.eqb_spec method "weighted"); [contradiction|].
  destruct (String.eqb_spec method "integral"); [contradiction|].
  split; reflexivity.
Qed.

Lemma unknown_method_raises_witness :
  gmm_expected_value gaussian_score_samples Inputs.gmm_a "mean" 50
  = Raise (ValueError "Method mean not known. Use either 'weighted' or integral")
  /\ gmm_population_variance gaussian_score_samples Inputs.gmm_a "mean" 50
     = Raise (ValueError "Method mean not known. Use either 'weighted' or integral").
Proof.
  apply (unknown_method_raises gaussian_score_samples Inputs.gmm_a "mean" 50);
    discriminate.
Defined.

(** *** Products of arrays of one length *)

Lemma np_mul_same a b :
  length a = length b -> np_mul a b = Ok (zip_with Rmult a b).
Proof.
  intros H. unfold np_mul. rewrite (StatsFacts.broadcast_same a b H).
  reflexivity.
Qed.

Lemma np_sum_zip_nonneg ws xs :
  Forall (fun w => 0 <= w) ws -> Forall (fun x => 0 <= x) xs ->
  0 <= np_sum (zip_with Rmult ws xs).
Proof.
  intros Hw. revert xs. induction Hw as [|w ws Hw0 _ IH]; intros xs Hx;
    [cbn; lra|].
  destruct Hx as [|x xs Hx0 Hx]; [cbn; lra|].
  cbn [zip_with]. rewrite np_sum_cons.
  specialize (IH xs Hx). nra.
Qed.

(** The weighted squared deviations from any [mu], expanded. *)
Lemma np_sum_deviations mu ws : forall ms,
  length ws = length ms ->
  np_sum (zip_with (fun w m => w * (m - mu) ^ 2) ws ms)
  = np_sum (zip_with Rmult ws (np_square ms))
    - 2 * mu * np_sum (zip_with Rmult ws ms)
    + mu ^ 2 * np_sum ws.
Proof.
  induction ws as [|w ws IH]; intros [|m ms] Hlen; try discriminate.
  - cbn. lra.
  - cbn [zip_with np_square map]. rewrite !np_sum_cons.
    fold (np_square ms). rewrite (IH ms) by (cbn in Hlen; lia). ring.
Qed.

Lemma np_sum_deviations_nonneg mu ws : forall ms,
  Forall (fun w => 0 <= w) ws ->
  0 <= np_sum (zip_with (fun w m => w * (m - mu) ^ 2) ws ms).
Proof.
  induction ws as [|w ws IH]; intros ms Hw; [cbn; lra|].
  apply Forall_cons in Hw as [Hw0 Hw].
  destruct ms as [|m ms]; [cbn; lra|].
  cbn [zip_with]. rewrite np_sum_cons. specialize (IH ms Hw).
  pose proof (pow2_ge_0 (m - mu)). nra.
Qed.



(** *** The expected value of a combination *)

Lemma weighted_expected_value_aligned gmm :
  aligned gmm -> weighted_expected_value gmm = Ok (mean_of gmm).
Proof.
  intros [Hm _]. unfold weighted_expected_value.
  rewrite np_mul_same by exact Hm. reflexivity.
Qed.

Lemma np_sum_zip_scaled ms : forall ws c,
  np_sum (zip_with Rmult ms (map (fun x => x * c) ws))
  = np_sum (zip_with Rmult ms ws) * c.
Proof.
  induction ms as [|m ms IH]; intros [|w ws] c; cbn [map zip_with];
    rewrite ?np_sum_nil, ?np_sum_cons; try lra.
  rewrite IH. ring.
Qed.

Lemma np_sum_zip_divided ms : forall ws d,
  np_sum (zip_with Rmult ms (map (fun x => x / d) ws))
  = np_sum (zip_with Rmult ms ws) / d.
Proof.
  induction ms as [|m ms IH]; intros [|w ws] d; cbn [map zip_with];
    rewrite ?np_sum_nil, ?np_sum_cons; try lra.
  rewrite IH. lra.
Qed.

Lemma np_sum_zip_app (a b c d : list R) :
  length a = length c ->
  np_sum (zip_with Rmult (a ++ b) (c ++ d))
  = np_sum (zip_with Rmult a c) + np_sum (zip_with Rmult b d).
Proof.
  intros H. rewrite zip_with_app by exact H. apply np_sum_app.
Qed.

Lemma length_scaled_weights g w :
  length (scaled_weights g w) = length (weights_ g).
Proof. unfold scaled_weights. apply length_map. Qed.

Lemma combined_products gs : forall ws,
  Forall aligned gs ->
  np_sum (zip_with Rmult (concat (map means_ (take (length ws) gs)))
                   (concat (zip_with scaled_weights gs ws)))
  = np_sum (zip_with (fun g w => mean_of g * w) gs ws).
Proof.
  induction gs as [|g gs IH]; intros [|w ws] Ha; cbn [length take map concat zip_with];
    try reflexivity.
  apply Forall_cons in Ha as [[Hm _] Ha].
  rewrite np_sum_zip_app by (rewrite length_scaled_weights; exact Hm).
  rewrite np_sum_cons, (IH ws Ha).
  unfold scaled_weights at 1. rewrite np_sum_zip_scaled. reflexivity.
Qed.

Lemma combined_total gs : forall ws,
  Forall fitted gs -> length gs = length ws ->
  np_sum (concat (zip_with scaled_weights gs ws)) = np_sum ws.
Proof.
  induction gs as [|g gs IH]; intros [|w ws] Hf Hlen; try discriminate;
    [reflexivity|].
  apply Forall_cons in Hf as [Hg Hf].
  cbn [zip_with concat]. rewrite np_sum_app, np_sum_cons.
  rewrite CombineFacts.scaled_weights_sum by exact Hg.
  rewrite (IH ws Hf) by (cbn in Hlen; lia). reflexivity.
Qed.

(** X19: the expected value of a combination is the average of the expected
    values of its parts, weighted by the combination weights: for fitted
    models whose arrays have one length each and as many positive weights,
    it is [sum (W_i * E_i) / sum W_i]. *)
Theorem combine_gmms_expected_value :
  forall g0 gs w0 ws,
    Forall fitted (g0 :: gs) -> Forall aligned (g0 :: gs) ->
    Forall (fun w => 0 < w) (w0 :: ws) -> length gs = length ws ->
    exists g,
      combine_gmms (PyList (map PyGmm (g0 :: gs))) (Some (w0 :: ws)) = Ok g
      /\ weighted_expected_value g
         = Ok (np_sum (zip_with (fun g w => mean_of g * w) (g0 :: gs) (w0 :: ws))
               / np_sum (w0 :: ws)).
Proof.
  intros g0 gs w0 ws Hf Ha Hw Hlen.
  pose proof Hf as Hf'. pose proof Ha as Ha'.
  apply Forall_cons in Hf' as [Hf0 Hfs]. apply Forall_cons in Ha' as [[Hm0 _] Has].
  eexists. split.
  - apply CombineFacts.combine_gmms_ok.
    apply Forall_app. split; [apply Hf0|].
    apply CombineFacts.positive_covariances_take, Hfs.
  - unfold weighted_expected_value. cbn [means_ weights_].
    assert (Hlens : length (combined_means g0 gs ws)
                    = length (combined_weights g0 gs w0 ws)).
    { unfold combined_means, combined_weights.
      rewrite !length_app, length_scaled_weights, Hm0. f_equal.
      rewrite CombineFacts.zipped_weights_length.
      clear -Has. revert ws. induction Has as [|g l [Hg _] _ IH]; intros [|w ws];
        cbn [length take map concat]; try reflexivity.
      rewrite !length_app, Hg, IH. reflexivity. }
    rewrite np_mul_same by (rewrite length_map; exact Hlens).
    f_equal. rewrite np_sum_zip_divided. f_equal.
    + unfold combined_means, combined_weights.
      rewrite np_sum_zip_app by (rewrite length_scaled_weights; exact Hm0).
      rewrite combined_products by exact Has.
      cbn [zip_with]. rewrite np_sum_cons.
      unfold scaled_weights at 1. rewrite np_sum_zip_scaled. reflexivity.
    + unfold combined_weights.
      rewrite np_sum_app, CombineFacts.scaled_weights_sum by exact Hf0.
      rewrite combined_total by assumption. rewrite np_sum_cons. reflexivity.
Qed.

Lemma aligned_gmm_a : aligned Inputs.gmm_a.
Proof. split; reflexivity. Qed.

Lemma aligned_gmm_b : aligned Inputs.gmm_b.
Proof. split; reflexivity. Qed.

Lemma combine_gmms_expected_value_witness :
  exists g,
    combine_gmms (PyList (map PyGmm [Inputs.gmm_a; Inputs.gmm_b])) (Some [2; 3])
    = Ok g
    /\ weighted_expected_value g
       = Ok (np_sum (zip_with (fun g w => mean_of g * w)
                              [Inputs.gmm_a; Inputs.gmm_b] [2; 3])
             / np_sum [2; 3]).
Proof.
  apply (combine_gmms_expected_value Inputs.gmm_a [Inputs.gmm_b] 2 [3]).
  - forall_list; [apply CombineFacts.fitted_gmm_a|apply CombineFacts.fitted_gmm_b].
  - forall_list; [apply aligned_gmm_a|apply aligned_gmm_b].
  - forall_list; lra.
  - reflexivity.
Defined.

End MomentsFacts.

Module ScaleRunFacts.
Import Mixture Np NpFacts Scale.
Local Open Scope R_scope.

(** *** Running the steps of [gmm_scale] *)

Lemma bind_run {A B} (m : M A) (f : A -> M B) h a h' :
  m h = (Ok a, h') -> bind m f h = f a h'.
Proof. intros H. unfold bind. rewrite H. reflexivity. Qed.

Lemma bind_raise {A B} (m : M A) (f : A -> M B) h e h' :
  m h = (Raise e, h') -> bind m f h = (Raise e, h').
Proof. intros H. unfold bind. rewrite H. reflexivity. Qed.

Lemma fresh_from_run h l f a :
  h !! l = Some a -> fresh_from l f h = (Ok (length h), h ++ [f a]).
Proof. intros H. unfold fresh_from, bind, load, alloc. rewrite H. reflexivity. Qed.

Lemma fresh_from_result_run h l f a a' :
  h !! l = Some a -> f a = Ok a' ->
  fresh_from_result l f h = (Ok (length h), h ++ [a']).
Proof.
  intros H Hf. unfold fresh_from_result, bind, load, lift, alloc.
  rewrite H, Hf. reflexivity.
Qed.

Lemma fresh_from_result_raise h l f a e :
  h !! l = Some a -> f a = Raise e -> fresh_from_result l f h = (Raise e, h).
Proof.
  intros H Hf. unfold fresh_from_result, bind, load, lift.
  rewrite H, Hf. reflexivity.
Qed.

Lemma update_run h l f a :
  h !! l = Some a -> update l f h = (Ok tt, <[l := f a]> h).
Proof. intros H. unfold update. rewrite H. reflexivity. Qed.

(** The array allocated last, and an update of an array allocated before. *)
Lemma lookup_new (h : store) a rest : (h ++ a :: rest) !! length h = Some a.
Proof. apply list_lookup_middle. reflexivity. Qed.

Lemma lookup_old (h : store) rest l a :
  h !! l = Some a -> (h ++ rest) !! l = Some a.
Proof. intros H. apply lookup_app_l_Some, H. Qed.

Lemma insert_new (h : store) a b rest :
  <[length h := b]> (h ++ a :: rest) = h ++ b :: rest.
Proof.
  rewrite insert_app_r_alt by lia. rewrite Nat.sub_diag. reflexivity.
Qed.

Lemma positive_scaled c cs :
  c <> 0 -> Forall (fun x => 0 < x) cs ->
  Forall (fun x => 0 < x) (map (fun x => x / c ^ 2) cs).
Proof.
  intros Hc H. apply Forall_map. eapply Forall_impl; [exact H|].
  cbn beta. intros x Hx. apply Rdiv_lt_0_compat; [exact Hx|].
  pose proof (pow2_ge_0 c) as H0.
  assert (c ^ 2 <> 0) by (apply pow_nonzero, Hc). lra.
Qed.

(** The call with a shift and a scale, step by step: four new arrays are
    appended to the store, the weights are those of the input. *)
Lemma gmm_scale_run h gmm d c reverse params ms cs b :
  h !! means_at gmm = Some ms -> h !! covariances_at gmm = Some cs ->
  c <> 0 -> Forall (fun x => 0 < x) cs -> converged_attr gmm = Some b ->
  gmm_scale gmm (Some d) (Some c) reverse params h
  = (Ok {| init := Keywords (match params with
                             | None => get_params gmm
                             | Some p => p
                             end);
           weights_at := weights_at gmm;
           means_at := length h;
           covariances_at := S (length h);
           precisions_at := S (S (length h));
           precisions_cholesky_at := S (S (S (length h)));
           converged_attr := if b then Some b else None |},
     h ++ [ (if reverse
             then map (fun x => x * -1)
                      (map (fun x => x / c) (map (fun x => x + d) ms))
             else map (fun x => x / c) (map (fun x => x + d) ms));
            map (fun x => x / c ^ 2) cs;
            map Rinv (map (fun x => x / c ^ 2) cs);
            map sqrt (map Rinv (map (fun x => x / c ^ 2) cs)) ]).
Proof.
  intros Hm Hcs Hc Hpos Hb.
  destruct (linalg_inv_cholesky_ok _ (positive_scaled c cs Hc Hpos))
    as [Hinv Hchol].
  unfold gmm_scale.
  rewrite (bind_run _ _ h _ _ (fresh_from_run h _ _ ms Hm)).
  rewrite (bind_run _ _ _ _ _ (update_run _ _ _ _ (lookup_new h _ []))).
  rewrite insert_new.
  set (M1 := map (fun x => x / c) (map (fun x => x + d) ms)).
  rewrite (bind_run _ _ _ _ _
             (fresh_from_run _ _ _ cs (lookup_old h [M1] _ _ Hcs))).
  rewrite length_app. cbn [length]. rewrite Nat.add_1_r.
  rewrite <- (app_assoc h [M1]). cbn [app].
  set (C := map (fun x => x / c ^ 2) cs) in *.
  rewrite (bind_run _ _ _ _ _
             (fresh_from_result_run (h ++ [M1; C]) (S (length h)) linalg_inv C
                (map Rinv C)
                ltac:(rewrite (lookup_app_r h) by lia;
                      replace (S (length h) - length h)%nat with 1%nat by lia;
                      reflexivity) Hinv)).
  rewrite length_app. cbn [length].
  replace (length h + 2)%nat with (S (S (length h))) by lia.
  rewrite <- (app_assoc h [M1; C]). cbn [app].
  rewrite (bind_run _ _ _ _ _
             (fresh_from_result_run (h ++ [M1; C; map Rinv C])
                (S (S (length h))) linalg_cholesky (map Rinv C)
                (map sqrt (map Rinv C))
                ltac:(rewrite (lookup_app_r h) by lia;
                      replace (S (S (length h)) - length h)%nat with 2%nat by lia;
                      reflexivity) Hchol)).
  rewrite length_app. cbn [length].
  replace (length h + 3)%nat with (S (S (S (length h)))) by lia.
  rewrite <- (app_assoc h [M1; C; map Rinv C]). cbn [app].
  rewrite Hb.
  destruct reverse.
  - rewrite (bind_run _ _ _ _ _ (update_run _ _ _ _ (lookup_new h _ _))).
    rewrite insert_new. reflexivity.
  - reflexivity.
Qed.

Lemma map_ext_positive (f g : R -> R) cs :
  Forall (fun x => 0 < x) cs -> (forall x, 0 < x -> f x = g x) ->
  map f cs = map g cs.
Proof.
  intros H Hfg. induction H as [|x cs Hx _ IH]; [reflexivity|].
  cbn [map]. rewrite IH, (Hfg x Hx). reflexivity.
Qed.

Lemma scaled_precision c x : c <> 0 -> 0 < x -> / (x / c ^ 2) = c ^ 2 / x.
Proof. intros Hc Hx. field. split; lra. Qed.

Lemma scaled_cholesky c x :
  c <> 0 -> 0 < x -> sqrt (/ (x / c ^ 2)) = Rabs c / sqrt x.
Proof.
  intros Hc Hx. rewrite scaled_precision by assumption.
  rewrite sqrt_div_alt by exact Hx.
  rewrite <- Rsqr_pow2, sqrt_Rsqr_abs. reflexivity.
Qed.

(** X20: called with a shift [d] and a scale [c <> 0] on a converged or
    unconverged model with positive variances, [gmm_scale] returns a model
    whose means are [(m + d) / c] (negated when reversed), whose variances
    are [v / c^2], precisions [c^2 / v] and Cholesky factors [|c| / sqrt v];
    the weights are the very array of the input, not a copy; and every array
    the store held before the call is as it was. *)
Theorem gmm_scale_shift_scale_result :
  forall h gmm d c reverse params ms cs b,
    h !! means_at gmm = Some ms -> h !! covariances_at gmm = Some cs ->
    c <> 0 -> Forall (fun x => 0 < x) cs -> converged_attr gmm = Some b ->
    exists new h',
      gmm_scale gmm (Some d) (Some c) reverse params h = (Ok new, h')
      /\ weights_at new = weights_at gmm
      /\ h' !! means_at new
         = Some (map (fun m => if reverse then - ((m + d) / c) else (m + d) / c)
                     ms)
      /\ h' !! covariances_at new = Some (map (fun v => v / c ^ 2) cs)
      /\ h' !! precisions_at new = Some (map (fun v => c ^ 2 / v) cs)
      /\ h' !! precisions_cholesky_at new
         = Some (map (fun v => Rabs c / sqrt v) cs)
      /\ converged_attr new = (if b then Some true else None)
      /\ extends h h'.
Proof.
  intros h gmm d c reverse params ms cs b Hm Hcs Hc Hpos Hb.
  eexists. eexists. split; [apply (gmm_scale_run h gmm d c reverse params ms cs b);
                             assumption|].
  cbn [weights_at means_at covariances_at precisions_at precisions_cholesky_at
       converged_attr].
  split; [reflexivity|].
  split.
  { rewrite lookup_new. f_equal. destruct reverse; rewrite !map_map;
      apply map_ext; intros m; lra. }
  split.
  { rewrite (lookup_app_r h) by lia.
    replace (S (length h) - length h)%nat with 1%nat by lia. reflexivity. }
  split.
  { rewrite (lookup_app_r h) by lia.
    replace (S (S (length h)) - length h)%nat with 2%nat by lia.
    cbn [lookup list_lookup]. f_equal. rewrite map_map.
    apply map_ext_positive; [exact Hpos|].
    intros x Hx. apply scaled_precision; assumption. }
  split.
  { rewrite (lookup_app_r h) by lia.
    replace (S (S (S (length h))) - length h)%nat with 3%nat by lia.
    cbn [lookup list_lookup]. f_equal. rewrite !map_map.
    apply map_ext_positive; [exact Hpos|].
    intros x Hx. apply scaled_cholesky; assumption. }
  split; [destruct b; reflexivity|].
  split; [rewrite length_app; lia|].
  intros l Hl. apply lookup_app_l, Hl.
Qed.

Lemma gmm_scale_shift_scale_result_witness :
  exists new h',
    gmm_scale Inputs.model0 (Some 1) (Some 2) true None Inputs.store0
    = (Ok new, h')
    /\ weights_at new = weights_at Inputs.model0
    /\ h' !! means_at new
       = Some (map (fun m => if true then - ((m + 1) / 2) else (m + 1) / 2) [2])
    /\ h' !! covariances_at new = Some (map (fun v => v / 2 ^ 2) [1])
    /\ h' !! precisions_at new = Some (map (fun v => 2 ^ 2 / v) [1])
    /\ h' !! precisions_cholesky_at new
       = Some (map (fun v => Rabs 2 / sqrt v) [1])
    /\ converged_attr new = (if true then Some true else None)
    /\ extends Inputs.store0 h'.
Proof.
  apply (gmm_scale_shift_scale_result Inputs.store0 Inputs.model0 1 2 true None
           [2] [1] true).
  - reflexivity.
  - reflexivity.
  - lra.
  - forall_list; lra.
  - reflexivity.
Defined.

(** X21: scaling is undone by scaling back.  After [gmm_scale] with a shift
    [d] and a scale [c <> 0], a second call on the result with the shift
    [- d / c] and the scale [1 / c] returns a model with the means,
    variances and precisions of the model the first call was given, in
    arrays of its own; the arrays of that first model are untouched. *)
Theorem gmm_scale_round_trip :
  forall h gmm d c params ms cs,
    h !! means_at gmm = Some ms -> h !! covariances_at gmm = Some cs ->
    c <> 0 -> Forall (fun x => 0 < x) cs -> converged_attr gmm = Some true ->
    exists scaled h1 back h2,
      gmm_scale gmm (Some d) (Some c) false params h = (Ok scaled, h1)
      /\ gmm_scale scaled (Some (- d / c)) (Some (1 / c)) false params h1
         = (Ok back, h2)
      /\ h2 !! means_at back = Some ms
      /\ h2 !! covariances_at back = Some cs
      /\ h2 !! precisions_at back = Some (map Rinv cs)
      /\ h2 !! precisions_cholesky_at back = Some (map sqrt (map Rinv cs))
      /\ weights_at back = weights_at gmm
      /\ means_at back <> means_at gmm
      /\ h2 !! means_at gmm = Some ms
      /\ h2 !! covariances_at gmm = Some cs.
Proof.
  intros h gmm d c params ms cs Hm Hcs Hc Hpos Hb.
  assert (Hc' : 1 / c <> 0).
  { unfold Rdiv. rewrite Rmult_1_l. apply Rinv_neq_0_compat, Hc. }
  pose proof (gmm_scale_run h gmm d c false params ms cs true Hm Hcs Hc Hpos Hb)
    as Hrun1.
  set (M1 := map (fun x => x / c) (map (fun x => x + d) ms)) in *.
  set (C1 := map (fun x => x / c ^ 2) cs) in *.
  set (h1 := h ++ [M1; C1; map Rinv C1; map sqrt (map Rinv C1)]) in *.
  match type of Hrun1 with _ = (Ok ?g, _) => set (scaled := g) in * end.
  assert (Hm1 : h1 !! means_at scaled = Some M1) by apply lookup_new.
  assert (Hc1 : h1 !! covariances_at scaled = Some C1).
  { subst h1 scaled. cbn [covariances_at]. rewrite (lookup_app_r h) by lia.
    replace (S (length h) - length h)%nat with 1%nat by lia. reflexivity. }
  pose proof (gmm_scale_run h1 scaled (- d / c) (1 / c) false params M1 C1 true
                Hm1 Hc1 Hc' (positive_scaled c cs Hc Hpos) eq_refl) as Hrun2.
  assert (HM : map (fun x => x / (1 / c)) (map (fun x => x + - d / c) M1) = ms).
  { subst M1. rewrite !map_map. rewrite <- (map_id ms) at 2.
    apply map_ext. intros x. field. exact Hc. }
  assert (HC : map (fun x => x / (1 / c) ^ 2) C1 = cs).
  { subst C1. rewrite map_map. rewrite <- (map_id cs) at 2.
    apply map_ext. intros x. field. exact Hc. }
  rewrite HM, HC in Hrun2.
  eexists. eexists. eexists. eexists.
  split; [exact Hrun1|]. split; [exact Hrun2|].
  cbn [weights_at means_at covariances_at precisions_at precisions_cholesky_at].
  split; [apply lookup_new|].
  split.
  { rewrite (lookup_app_r h1) by lia.
    replace (S (length h1) - length h1)%nat with 1%nat by lia. reflexivity. }
  split.
  { rewrite (lookup_app_r h1) by lia.
    replace (S (S (length h1)) - length h1)%nat with 2%nat by lia. reflexivity. }
  split.
  { rewrite (lookup_app_r h1) by lia.
    replace (S (S (S (length h1))) - length h1)%nat with 3%nat by lia.
    reflexivity. }
  split; [reflexivity|].
  assert (Hlt : (means_at gmm < length h)%nat) by (apply lookup_lt_Some in Hm; exact Hm).
  split; [subst h1; rewrite length_app; lia|].
  split; apply lookup_old, lookup_old; assumption.
Qed.

Lemma gmm_scale_round_trip_witness :
  exists scaled h1 back h2,
    gmm_scale Inputs.model0 (Some 1) (Some 2) false None Inputs.store0
    = (Ok scaled, h1)
    /\ gmm_scale scaled (Some (- 1 / 2)) (Some (1 / 2)) false None h1
       = (Ok back, h2)
    /\ h2 !! means_at back = Some [2]
    /\ h2 !! covariances_at back = Some [1]
    /\ h2 !! precisions_at back = Some (map Rinv [1])
    /\ h2 !! precisions_cholesky_at back = Some (map sqrt (map Rinv [1]))
    /\ weights_at back = weights_at Inputs.model0
    /\ means_at back <> means_at Inputs.model0
    /\ h2 !! means_at Inputs.model0 = Some [2]
    /\ h2 !! covariances_at Inputs.model0 = Some [1].
Proof.
  apply (gmm_scale_round_trip Inputs.store0 Inputs.model0 1 2 None [2] [1]).
  - reflexivity.
  - reflexivity.
  - lra.
  - forall_list; lra.
  - reflexivity.
Defined.

(** *** The attribute [converged_] *)

(** What a returned model says about convergence. *)
Lemma gmm_scale_converged gmm shift scale reverse params h new h' :
  gmm_scale gmm shift scale reverse params h = (Ok new, h') ->
  converged_attr new
  = match converged_attr gmm with
    | Some true => Some true
    | _ => None
    end.
Proof.
  unfold gmm_scale, bind.
  repeat match goal with
         | |- context [match ?m ?s with (_, _) => _ end] =>
             lazymatch m with
             | context [converged_attr] => fail
             | _ => destruct (m s) as [[?|?] ?]; [|discriminate]
             end
         end.
  destruct (converged_attr gmm) as [[|]|]; cbn [ret lift];
    intros [= <- _]; reflexivity.
Qed.

(** A model without the attribute is never scaled. *)
Lemma gmm_scale_needs_converged gmm shift scale reverse params h :
  converged_attr gmm = None ->
  exists e, fst (gmm_scale gmm shift scale reverse params h) = Raise e.
Proof.
  intros Hc. unfold gmm_scale, bind, lift. rewrite Hc.
  repeat (cbv beta iota;
          match goal with
          | |- context [match ?m ?s with (_, _) => _ end] =>
              destruct (m s) as [[?|?] ?]; [|eexists; reflexivity]
          end).
  cbv beta iota. eexists; reflexivity.
Qed.

(** X22: a model that did not converge can be scaled once but not twice.
    The model [gmm_scale] returns for it has no attribute [converged_], so no
    later call of [gmm_scale] on that model returns, whatever its arguments;
    the plain call without shift, scale and reversal raises
    [AttributeError]. *)
Theorem gmm_scale_unconverged_once :
  forall gmm shift scale reverse params h scaled h1,
    converged_attr gmm = Some false ->
    gmm_scale gmm shift scale reverse params h = (Ok scaled, h1) ->
    converged_attr scaled = None
    /\ (forall shift' scale' reverse' params' h',
          exists e,
            fst (gmm_scale scaled shift' scale' reverse' params' h') = Raise e)
    /\ (forall params' h',
          fst (gmm_scale scaled None None false params' h')
          = Raise AttributeError).
Proof.
  intros gmm shift scale reverse params h scaled h1 Hc Hrun.
  pose proof (gmm_scale_converged _ _ _ _ _ _ _ _ Hrun) as Hs.
  rewrite Hc in Hs.
  split; [exact Hs|]. split.
  - intros. apply gmm_scale_needs_converged, Hs.
  - intros. unfold gmm_scale, bind, ret, lift. rewrite Hs. reflexivity.
Qed.

Lemma gmm_scale_unconverged_once_witness :
  exists scaled h1,
    gmm_scale MoreInputs.model_unconverged (Some 1) (Some 2) false None
              Inputs.store0 = (Ok scaled, h1)
    /\ converged_attr scaled = None
    /\ (forall shift' scale' reverse' params' h',
          exists e,
            fst (gmm_scale scaled shift' scale' reverse' params' h') = Raise e)
    /\ (forall params' h',
          fst (gmm_scale scaled None None false params' h')
          = Raise AttributeError).
Proof.
  eexists. eexists. split.
  - apply (gmm_scale_run Inputs.store0 MoreInputs.model_unconverged 1 2 false
             None [2] [1] false); try reflexivity; [lra|forall_list; lra].
  - eapply (gmm_scale_unconverged_once MoreInputs.model_unconverged (Some 1)
              (Some 2) false None Inputs.store0).
    + reflexivity.
    + apply (gmm_scale_run Inputs.store0 MoreInputs.model_unconverged 1 2 false
               None [2] [1] false); try reflexivity; [lra|forall_list; lra].
Defined.

(** *** A call that fails *)

Lemma linalg_cholesky_raise a :
  Exists (fun y => ~ 0 < y) a -> linalg_cholesky a = Raise LinAlgError.
Proof.
  intros H. unfold linalg_cholesky.
  replace (forallb _ a) with false; [reflexivity|].
  symmetry. induction H as [y a Hy|y a _ IH]; cbn [forallb].
  - destruct (Rlt_dec 0 y); [contradiction|reflexivity].
  - rewrite IH. apply andb_false_r.
Qed.

Lemma linalg_inv_cases a :
  linalg_inv a = Raise LinAlgError
  \/ (linalg_inv a = Ok (map Rinv a) /\ Forall (fun x => x <> 0) a).
Proof.
  unfold linalg_inv. destruct (forallb _ a) eqn:E; [right|left; reflexivity].
  split; [reflexivity|].
  induction a as [|x a IH]; [constructor|].
  cbn [forallb] in E. apply andb_true_iff in E as [Hx Ha].
  constructor; [|apply IH, Ha].
  destruct (Req_dec_T x 0); [discriminate|assumption].
Qed.

(** A stack holding a variance that is not positive is refused by the
    inversion or, when that passes, by the factorisation. *)
Lemma linalg_not_positive a :
  Exists (fun x => x <= 0) a ->
  linalg_inv a = Raise LinAlgError
  \/ (linalg_inv a = Ok (map Rinv a)
      /\ linalg_cholesky (map Rinv a) = Raise LinAlgError).
Proof.
  intros Hex. destruct (linalg_inv_cases a) as [H|[H Hnz]]; [left; exact H|].
  right. split; [exact H|]. apply linalg_cholesky_raise.
  clear H. induction Hex as [x a Hx|x a _ IH].
  - apply Forall_cons in Hnz as [Hx0 _]. cbn [map]. apply Exists_cons_hd.
    intros Hinv. apply Rinv_0_lt_compat in Hinv. rewrite Rinv_inv in Hinv. lra.
  - apply Forall_cons in Hnz as [_ Hnz]. cbn [map]. apply Exists_cons_tl, IH, Hnz.
Qed.

Lemma not_positive_scaled c cs :
  c <> 0 -> Exists (fun x => x <= 0) cs ->
  Exists (fun x => x <= 0) (map (fun x => x / c ^ 2) cs).
Proof.
  intros Hc H. induction H as [x cs Hx|x cs _ IH]; cbn [map].
  - apply Exists_cons_hd.
    pose proof (pow2_ge_0 c) as H0.
    assert (Hn : c ^ 2 <> 0) by (apply pow_nonzero, Hc).
    assert (Hp : 0 < / c ^ 2) by (apply Rinv_0_lt_compat; lra).
    unfold Rdiv. nra.
  - apply Exists_cons_tl, IH.
Qed.

(** X23: a call that fails may still have changed its input.  Without a
    shift, with a scale [c <> 0] and a variance that is not positive,
    [gmm_scale] raises [LinAlgError], and the means of the model it was
    given have already been divided by [c] in place. *)
Theorem gmm_scale_failure_changes_input :
  forall h gmm c reverse params ms cs,
    h !! means_at gmm = Some ms -> h !! covariances_at gmm = Some cs ->
    means_at gmm <> covariances_at gmm ->
    c <> 0 -> Exists (fun x => x <= 0) cs ->
    fst (gmm_scale gmm None (Some c) reverse params h) = Raise LinAlgError
    /\ snd (gmm_scale gmm None (Some c) reverse params h) !! means_at gmm
       = Some (map (fun x => x / c) ms).
Proof.
  intros h gmm c reverse params ms cs Hm Hcs Hne Hc Hex.
  pose proof (lookup_lt_Some _ _ _ Hm) as Hlt.
  unfold gmm_scale.
  rewrite (bind_run _ _ h (means_at gmm) h eq_refl).
  rewrite (bind_run _ _ _ _ _ (update_run _ _ _ _ Hm)).
  set (h1 := <[means_at gmm := map (fun x => x / c) ms]> h).
  assert (Hm1 : h1 !! means_at gmm = Some (map (fun x => x / c) ms))
    by (apply list_lookup_insert_eq, Hlt).
  assert (Hc1 : h1 !! covariances_at gmm = Some cs).
  { subst h1. rewrite list_lookup_insert_ne by exact Hne. exact Hcs. }
  rewrite (bind_run _ _ _ _ _ (fresh_from_run _ _ _ cs Hc1)).
  set (C := map (fun x => x / c ^ 2) cs).
  destruct (linalg_not_positive C (not_positive_scaled c cs Hc Hex))
    as [Hinv|[Hinv Hchol]].
  - rewrite (bind_raise _ _ _ _ _
               (fresh_from_result_raise _ _ _ C _ (lookup_new h1 C []) Hinv)).
    cbn [fst snd]. split; [reflexivity|]. apply lookup_old, Hm1.
  - rewrite (bind_run _ _ _ _ _
               (fresh_from_result_run _ _ _ C _ (lookup_new h1 C []) Hinv)).
    rewrite (bind_raise _ _ _ LinAlgError ((h1 ++ [C]) ++ [map Rinv C])).
    + cbn [fst snd]. split; [reflexivity|]. apply lookup_old, lookup_old, Hm1.
    + apply (fresh_from_result_raise _ _ _ (map Rinv C)); [|exact Hchol].
      apply lookup_new.
Qed.

Lemma gmm_scale_failure_changes_input_witness :
  fst (gmm_scale Inputs.model0 None (Some 2) false None MoreInputs.store_flat)
  = Raise LinAlgError
  /\ snd (gmm_scale Inputs.model0 None (Some 2) false None MoreInputs.store_flat)
       !! means_at Inputs.model0
     = Some (map (fun x => x / 2) [2]).
Proof.
  apply (gmm_scale_failure_changes_input MoreInputs.store_flat Inputs.model0 2
           false None [2] [0]).
  - reflexivity.
  - reflexivity.
  - discriminate.
  - lra.
  - apply Exists_cons_hd. lra.
Defined.

End ScaleRunFacts.

Module CombineEdgeFacts.
Import Mixture Np NpFacts Combine.
Local Open Scope R_scope.

Lemma count_true_le l :
  (count_true (map isinstance_gmm l) <= length l)%nat.
Proof.
  induction l as [|o l IH]; [reflexivity|].
  cbn [map count_true fold_right length]. fold (count_true (map isinstance_gmm l)).
  destruct (isinstance_gmm o); lia.
Qed.

Lemma count_true_other l :
  In PyOther l -> (count_true (map isinstance_gmm l) < length l)%nat.
Proof.
  induction l as [|o l IH]; [intros []|].
  cbn [map count_true fold_right length].
  fold (count_true (map isinstance_gmm l)).
  intros [->|Hin].
  - cbn [isinstance_gmm]. pose proof (count_true_le l). lia.
  - specialize (IH Hin). destruct (isinstance_gmm o); lia.
Qed.

(** X24: what [combine_gmms] refuses, whatever weights come with it: an
    argument that is not a list and a list holding anything but mixture
    models raise [ValueError]; the empty list passes both checks and raises
    [IndexError] at [gmms[0]]; and an empty list of weights raises
    [IndexError] at [weights[0]]. *)
Theorem combine_gmms_rejects :
  forall weights,
    combine_gmms PyNotList weights
    = Raise (ValueError "Models must be provided in a list")
    /\ (forall l, In PyOther l ->
          combine_gmms (PyList l) weights
          = Raise (ValueError "Must only supply GaussianMixture instances"))
    /\ combine_gmms (PyList []) weights = Raise IndexError
    /\ (forall g gs,
          combine_gmms (PyList (map PyGmm (g :: gs))) (Some []) = Raise IndexError).
Proof.
  intros weights. split; [reflexivity|]. split; [|split].
  - intros l Hin. unfold combine_gmms.
    pose proof (count_true_other l Hin) as Hlt.
    destruct (Nat.eqb_spec (count_true (map isinstance_gmm l)) (length l));
      [lia|reflexivity].
  - destruct weights; reflexivity.
  - intros g gs. unfold combine_gmms.
    rewrite CombineFacts.all_instances. reflexivity.
Qed.

Lemma combine_gmms_rejects_witness :
  combine_gmms (PyList [PyGmm Inputs.gmm_a; PyOther]) (Some [1; 1])
  = Raise (ValueError "Must only supply GaussianMixture instances").
Proof.
  apply (combine_gmms_rejects (Some [1; 1])). right. left. reflexivity.
Defined.

Lemma take_all_weights {A} (gs : list A) (ws extra : list R) :
  (length gs <= length ws)%nat ->
  take (length (ws ++ extra)) gs = take (length ws) gs.
Proof.
  intros H. rewrite !take_ge; [reflexivity|lia|rewrite length_app; lia].
Qed.

Lemma zip_with_surplus gs : forall ws extra : list R,
  (length gs <= length ws)%nat ->
  zip_with scaled_weights gs (ws ++ extra) = zip_with scaled_weights gs ws.
Proof.
  induction gs as [|g gs IH]; intros [|w ws] extra H; cbn [length] in H;
    try reflexivity; try lia.
  cbn [app zip_with]. rewrite IH by lia. reflexivity.
Qed.

(** X25: weights in surplus are ignored: with at least as many weights as
    models, any further weights change nothing, neither the result nor an
    error; in particular the weights of the result are normalised by the
    weights that have a model. *)
Theorem combine_gmms_surplus_weights :
  forall g0 gs w0 ws extra,
    (length gs <= length ws)%nat ->
    combine_gmms (PyList (map PyGmm (g0 :: gs))) (Some (w0 :: ws ++ extra))
    = combine_gmms (PyList (map PyGmm (g0 :: gs))) (Some (w0 :: ws)).
Proof.
  intros g0 gs w0 ws extra Hlen. unfold combine_gmms.
  rewrite CombineFacts.all_instances. cbn [negb map].
  rewrite !CombineFacts.build_components_eq.
  rewrite take_all_weights, zip_with_surplus by exact Hlen. reflexivity.
Qed.

Lemma combine_gmms_surplus_weights_witness :
  combine_gmms (PyList (map PyGmm [Inputs.gmm_a; Inputs.gmm_b]))
               (Some (2 :: [3] ++ [5; 7]))
  = combine_gmms (PyList (map PyGmm [Inputs.gmm_a; Inputs.gmm_b]))
                 (Some (2 :: [3])).
Proof.
  apply (combine_gmms_surplus_weights Inputs.gmm_a [Inputs.gmm_b] 2 [3] [5; 7]).
  cbn. lia.
Defined.

End CombineEdgeFacts.

Module MaxFacts.
Import Mixture Np NpFacts Sample Moments.
Local Open Scope R_scope.

(** *** The index [np.argmax] answers *)

Lemma argmax_from_spec l : forall pre bi bv,
  pre !! bi = Some bv -> Forall (fun y => y <= bv) pre ->
  exists v,
    (pre ++ l) !! argmax_from l (length pre) bi bv = Some v
    /\ Forall (fun y => y <= v) (pre ++ l).
Proof.
  induction l as [|x l IH]; intros pre bi bv Hb Hall; cbn [argmax_from].
  - exists bv. rewrite app_nil_r. split; assumption.
  - replace (pre ++ x :: l) with ((pre ++ [x]) ++ l)
      by (rewrite <- app_assoc; reflexivity).
    replace (S (length pre)) with (length (pre ++ [x]))
      by (rewrite length_app; cbn; lia).
    destruct (Rlt_dec bv x) as [Hlt|Hge].
    + apply IH.
      * apply list_lookup_middle. reflexivity.
      * apply Forall_app. split; [|constructor; [lra|constructor]].
        eapply Forall_impl; [exact Hall|]. cbn beta. intros y Hy. lra.
    + apply IH.
      * apply lookup_app_l_Some, Hb.
      * apply Forall_app. split; [exact Hall|]. constructor; [lra|constructor].
Qed.

Lemma np_argmax_spec y :
  y <> [] ->
  exists i v,
    np_argmax y = Ok i /\ y !! i = Some v /\ Forall (fun w => w <= v) y.
Proof.
  destruct y as [|x l]; [congruence|]. intros _.
  destruct (argmax_from_spec l [x] 0%nat x eq_refl) as (v & Hv & Hall).
  { constructor; [lra|constructor]. }
  exists (argmax_from l 1 0 x), v. split; [reflexivity|]. split; assumption.
Qed.

(** *** The points of [np.linspace] *)

Lemma np_linspace_point start stop num xs i x :
  np_linspace start stop num = Ok xs -> xs !! i = Some x ->
  (2 <= num)%Z -> start <= stop ->
  start <= x <= stop.
Proof.
  intros Hl Hx Hnum Hle. unfold np_linspace in Hl.
  destruct (Z.ltb_spec num 0); [lia|]. injection Hl as <-.
  rewrite list_lookup_fmap in Hx.
  destruct (seq 0 (Z.to_nat num) !! i) as [k|] eqn:Hk; [|discriminate].
  apply lookup_seq in Hk as [-> Hi]. cbn [fmap option_fmap option_map] in Hx.
  injection Hx as <-. cbn [Nat.add].
  set (n := Z.to_nat num) in *.
  assert (Hn : (2 <= n)%nat) by (subst n; lia).
  assert (Hpos : 0 < INR (n - 1)) by (apply lt_0_INR; lia).
  assert (Hi' : INR i <= INR (n - 1)) by (apply le_INR; lia).
  pose proof (pos_INR i) as Hi0.
  assert (Hfrac : 0 <= INR i / INR (n - 1) <= 1).
  { split.
    - apply Rmult_le_pos; [exact Hi0|]. apply Rlt_le, Rinv_0_lt_compat, Hpos.
    - apply Rmult_le_reg_r with (r := INR (n - 1)); [exact Hpos|].
      unfold Rdiv. rewrite Rmult_assoc, Rinv_l by lra. lra. }
  replace (INR i * ((stop - start) / INR (n - 1)))
    with ((stop - start) * (INR i / INR (n - 1))) by (field; lra).
  generalize dependent (INR i / INR (n - 1)). intros t Ht. nra.
Qed.

(** With the bounds [100] and [100000] of [gmm_max] the number of samples
    is at least [100], whatever was computed. *)
Lemma used_nsamples_default gmm kappa sampling :
  (100 <= py_int (used_nsamples gmm kappa sampling 100 100000))%Z.
Proof.
  assert (Hu : 100 <= used_nsamples gmm kappa sampling 100 100000).
  { unfold used_nsamples, set_min_max_samples.
    destruct (Rlt_dec _ 100); destruct (Rlt_dec 100000 _); lra. }
  unfold py_int. destruct (Rle_dec 0 _); [|lra].
  apply Zfloor_lub. exact Hu.
Qed.

Section Maximum.

Variable score_samples : GaussianMixture -> list R -> list R.

(** X26: for a model with at least one component and positive variances,
    and a scorer that answers one value per point, [gmm_max] returns one of
    the sampled points, the first at which the sampled density is largest;
    that point lies between the smallest [mean - sigma] and the largest
    [mean + sigma] of the components. *)
Theorem gmm_max_sampled_maximum :
  forall gmm sampling,
    sampleable gmm ->
    (forall xs, length (score_samples gmm xs) = length xs) ->
    exists x y i v yi,
      gmm_sample_xy score_samples gmm 1 sampling 100 100000 = Ok (x, y)
      /\ gmm_max score_samples gmm sampling = Ok v
      /\ np_argmax y = Ok i
      /\ x !! i = Some v /\ y !! i = Some yi
      /\ Forall (fun w => w <= yi) y
      /\ query_min gmm 1 <= v <= query_max gmm 1.
Proof.
  intros gmm sampling Hg Hscore.
  pose proof (used_nsamples_default gmm 1 sampling) as Hn.
  destruct (SampleFacts.gmm_sample_xy_ok score_samples gmm 1 sampling 100 100000
              (SampleFacts.sampleable_range_options gmm 1 Hg) ltac:(lia))
    as (x & Hrun & Hlin & Hlen).
  set (y := map exp (score_samples gmm x)) in *.
  assert (Hylen : length y = length x)
    by (subst y; rewrite length_map; apply Hscore).
  destruct (np_argmax_spec y) as (i & yi & Hi & Hyi & Hall).
  { intros Hy. rewrite Hy in Hylen. cbn in Hylen. lia. }
  destruct (lookup_lt_is_Some_2 x i) as [v Hv].
  { rewrite <- Hylen. apply lookup_lt_Some in Hyi. exact Hyi. }
  exists x, y, i, v, yi.
  split; [exact Hrun|].
  split; [unfold gmm_max, getitem; rewrite Hrun, Hi, Hv; reflexivity|].
  split; [exact Hi|]. split; [exact Hv|]. split; [exact Hyi|].
  split; [exact Hall|].
  destruct (SampleFacts.sampleable_span gmm 1 Hg) as [Hpos Hspan].
  apply (np_linspace_point _ _ _ x i v Hlin Hv); [lia|lra].
Qed.

End Maximum.

Lemma gmm_max_sampled_maximum_witness :
  exists x y i v yi,
    gmm_sample_xy gaussian_score_samples Inputs.gmm_a 1 50 100 100000 = Ok (x, y)
    /\ gmm_max gaussian_score_samples Inputs.gmm_a 50 = Ok v
    /\ np_argmax y = Ok i
    /\ x !! i = Some v /\ y !! i = Some yi
    /\ Forall (fun w => w <= yi) y
    /\ query_min Inputs.gmm_a 1 <= v <= query_max Inputs.gmm_a 1.
Proof.
  apply (gmm_max_sampled_maximum gaussian_score_samples Inputs.gmm_a 50).
  - apply SampleFacts.sampleable_gmm_a.
  - intros xs. apply length_map.
Defined.

End MaxFacts.

Module ScaleVersionsFacts.
Import Mixture Np NpFacts Scale ScaleRunFacts.
Local Open Scope R_scope.

(** The routine of [utils.py], step by step. *)
Lemma gmm_scale_legacy_run h gmm d c reverse params ms cs :
  h !! means_at gmm = Some ms -> h !! covariances_at gmm = Some cs ->
  c <> 0 -> Forall (fun x => 0 < x) cs ->
  gmm_scale_legacy gmm d c reverse params h
  = (Ok {| init := Positional (match params with
                               | None => get_params gmm
                               | Some p => p
                               end);
           weights_at := weights_at gmm;
           means_at := length h;
           covariances_at := S (length h);
           precisions_at := S (S (length h));
           precisions_cholesky_at := S (S (S (length h)));
           converged_attr := None |},
     h ++ [ (if reverse
             then map (fun x => x * -1)
                      (map (fun x => x / c) (map (fun x => x + d) ms))
             else map (fun x => x / c) (map (fun x => x + d) ms));
            map (fun x => x / c ^ 2) cs;
            map Rinv (map (fun x => x / c ^ 2) cs);
            map sqrt (map Rinv (map (fun x => x / c ^ 2) cs)) ]).
Proof.
  intros Hm Hcs Hc Hpos.
  destruct (linalg_inv_cholesky_ok _ (positive_scaled c cs Hc Hpos))
    as [Hinv Hchol].
  unfold gmm_scale_legacy.
  rewrite (bind_run _ _ h _ _ (fresh_from_run h _ _ ms Hm)).
  rewrite (bind_run _ _ _ _ _ (update_run _ _ _ _ (lookup_new h _ []))).
  rewrite insert_new.
  set (M1 := map (fun x => x / c) (map (fun x => x + d) ms)).
  set (M2 := if reverse then map (fun x => x * -1) M1 else M1).
  assert (Hrev : (if reverse then update (length h) (map (fun x => x * -1))
                  else ret tt) (h ++ [M1]) = (Ok tt, h ++ [M2])).
  { subst M2. destruct reverse; [|reflexivity].
    rewrite (update_run _ _ _ _ (lookup_new h _ [])), insert_new. reflexivity. }
  rewrite (bind_run _ _ _ _ _ Hrev).
  rewrite (bind_run _ _ _ _ _
             (fresh_from_run _ _ _ cs (lookup_old h [M2] _ _ Hcs))).
  rewrite length_app. cbn [length]. rewrite Nat.add_1_r.
  rewrite <- (app_assoc h [M2]). cbn [app].
  set (C := map (fun x => x / c ^ 2) cs) in *.
  rewrite (bind_run _ _ _ _ _
             (fresh_from_result_run (h ++ [M2; C]) (S (length h)) linalg_inv C
                (map Rinv C)
                ltac:(rewrite (lookup_app_r h) by lia;
                      replace (S (length h) - length h)%nat with 1%nat by lia;
                      reflexivity) Hinv)).
  rewrite length_app. cbn [length].
  replace (length h + 2)%nat with (S (S (length h))) by lia.
  rewrite <- (app_assoc h [M2; C]). cbn [app].
  rewrite (bind_run _ _ _ _ _
             (fresh_from_result_run (h ++ [M2; C; map Rinv C])
                (S (S (length h))) linalg_cholesky (map Rinv C)
                (map sqrt (map Rinv C))
                ltac:(rewrite (lookup_app_r h) by lia;
                      replace (S (S (length h)) - length h)%nat with 2%nat by lia;
                      reflexivity) Hchol)).
  rewrite length_app. cbn [length].
  replace (length h + 3)%nat with (S (S (S (length h)))) by lia.
  rewrite <- (app_assoc h [M2; C; map Rinv C]). cbn [app].
  subst M2. destruct reverse; reflexivity.
Qed.

(** X27: the two versions of [gmm_scale] agree where both apply.  With a
    shift, a scale [c <> 0] and positive variances, the routine of
    [utils.py] and the routine of [gmm.py] leave the same store and return
    models with the same five arrays; they differ in that the older one
    never sets [converged_] and hands the dictionary of parameters over as
    one positional argument where the newer one unpacks it into keywords. *)
Theorem gmm_scale_versions_agree :
  forall h gmm d c reverse params ms cs b,
    h !! means_at gmm = Some ms -> h !! covariances_at gmm = Some cs ->
    c <> 0 -> Forall (fun x => 0 < x) cs -> converged_attr gmm = Some b ->
    exists new old h',
      gmm_scale gmm (Some d) (Some c) reverse params h = (Ok new, h')
      /\ gmm_scale_legacy gmm d c reverse params h = (Ok old, h')
      /\ fitted_arrays h' new = fitted_arrays h' old
      /\ weights_at new = weights_at old
      /\ converged_attr old = None
      /\ (exists p, init new = Keywords p /\ init old = Positional p).
Proof.
  intros h gmm d c reverse params ms cs b Hm Hcs Hc Hpos Hb.
  eexists. eexists. eexists.
  split; [apply (gmm_scale_run h gmm d c reverse params ms cs b); assumption|].
  split; [apply (gmm_scale_legacy_run h gmm d c reverse params ms cs);
          assumption|].
  repeat split; try reflexivity. eexists. split; reflexivity.
Qed.

Lemma gmm_scale_versions_agree_witness :
  exists new old h',
    gmm_scale Inputs.model0 (Some 1) (Some 2) true None Inputs.store0
    = (Ok new, h')
    /\ gmm_scale_legacy Inputs.model0 1 2 true None Inputs.store0 = (Ok old, h')
    /\ fitted_arrays h' new = fitted_arrays h' old
    /\ weights_at new = weights_at old
    /\ converged_attr old = None
    /\ (exists p, init new = Keywords p /\ init old = Positional p).
Proof.
  apply (gmm_scale_versions_agree Inputs.store0 Inputs.model0 1 2 true None
           [2] [1] true).
  - reflexivity.
  - reflexivity.
  - lra.
  - forall_list; lra.
  - reflexivity.
Defined.

End ScaleVersionsFacts.

Module CentroidFacts.
Import Np NpFacts Sky Moments Centroid.
Local Open Scope R_scope.

(** *** The angle [np.arctan2] answers *)

Lemma np_arctan2_range y x : - PI < np_arctan2 y x <= PI.
Proof.
  pose proof PI_RGT_0 as Hpi. pose proof (atan_bound (y / x)) as Hb.
  unfold np_arctan2.
  destruct (Rlt_dec 0 x) as [Hx|Hx]; [lra|].
  destruct (Rlt_dec x 0) as [Hx'|Hx'].
  - destruct (Rle_dec 0 y) as [Hy|Hy].
    + assert (Hq : y / x <= 0).
      { unfold Rdiv. assert (/ x < 0) by (apply Rinv_lt_0_compat, Hx'). nra. }
      assert (atan (y / x) <= 0).
      { destruct Hq as [Hq|Hq].
        - apply atan_increasing in Hq. rewrite atan_0 in Hq. lra.
        - rewrite Hq, atan_0. lra. }
      lra.
    + assert (Hq : 0 < y / x).
      { unfold Rdiv. assert (/ x < 0) by (apply Rinv_lt_0_compat, Hx'). nra. }
      apply atan_increasing in Hq. rewrite atan_0 in Hq. lra.
  - destruct (Rlt_dec 0 y); [lra|]. destruct (Rlt_dec y 0); lra.
Qed.

Lemma tan_scaled r t : 0 < r -> cos t <> 0 -> r * sin t / (r * cos t) = tan t.
Proof. intros Hr Hc. unfold tan. field. split; lra. Qed.

(** The angle of a point given by its polar coordinates. *)
Lemma np_arctan2_polar r t :
  0 < r -> - PI < t <= PI -> np_arctan2 (r * sin t) (r * cos t) = t.
Proof.
  intros Hr [Hlo Hhi]. pose proof PI_RGT_0 as Hpi. unfold np_arctan2.
  destruct (Rlt_le_dec t (- (PI / 2))) as [H1|H1].
  - (* the third quadrant *)
    assert (Hc : cos t < 0).
    { rewrite <- cos_neg. apply cos_lt_0; lra. }
    assert (Hs : sin t < 0) by (apply sin_lt_0_var; lra).
    destruct (Rlt_dec 0 (r * cos t)); [nra|].
    destruct (Rlt_dec (r * cos t) 0); [|nra].
    destruct (Rle_dec 0 (r * sin t)); [nra|].
    rewrite tan_scaled by lra.
    assert (Hc' : cos t <> 0) by lra.
    rewrite <- (Rtrigo_facts.tan_pi_plus t Hc').
    rewrite atan_tan by lra. lra.
  - destruct (Req_dec_T t (- (PI / 2))) as [H2|H2].
    + subst t. rewrite cos_neg, sin_neg, cos_PI2, sin_PI2.
      rewrite Rmult_0_r.
      destruct (Rlt_dec 0 0); [lra|]. destruct (Rlt_dec 0 0); [lra|].
      destruct (Rlt_dec 0 (r * - (1))); [lra|].
      destruct (Rlt_dec (r * - (1)) 0); lra.
    + destruct (Rlt_le_dec t (PI / 2)) as [H3|H3].
      * assert (Hc : 0 < cos t) by (apply cos_gt_0; lra).
        destruct (Rlt_dec 0 (r * cos t)); [|nra].
        rewrite tan_scaled by lra. apply atan_tan. lra.
      * destruct (Req_dec_T t (PI / 2)) as [H4|H4].
        -- subst t. rewrite cos_PI2, sin_PI2, Rmult_0_r.
           destruct (Rlt_dec 0 0); [lra|]. destruct (Rlt_dec 0 0); [lra|].
           destruct (Rlt_dec 0 (r * 1)); lra.
        -- assert (Hc : cos t < 0) by (apply cos_lt_0; lra).
           assert (Hs : 0 <= sin t) by (apply sin_ge_0; lra).
           destruct (Rlt_dec 0 (r * cos t)); [nra|].
           destruct (Rlt_dec (r * cos t) 0); [|nra].
           destruct (Rle_dec 0 (r * sin t)); [|nra].
           rewrite tan_scaled by lra.
           assert (Hc' : cos (t - PI) <> 0).
           { replace (t - PI) with (- (PI - t)) by lra.
             rewrite cos_neg, Rtrigo_facts.cos_pi_minus. lra. }
           replace (tan t) with (tan (PI + (t - PI))) by (f_equal; lra).
           rewrite (Rtrigo_facts.tan_pi_plus _ Hc').
           rewrite atan_tan by lra. lra.
Qed.

(** *** The centroid of one point *)

Lemma single_point_length lon lat :
  centroid_length ((cos lat * cos lon + 0) / INR 1)
                  ((cos lat * sin lon + 0) / INR 1)
                  ((sin lat + 0) / INR 1) = 1.
Proof.
  unfold centroid_length. cbn [INR].
  replace (_ + _ + _) with
    ((cos lat)² * ((sin lon)² + (cos lon)²) + (sin lat)²)
    by (unfold Rsqr; field).
  rewrite sin2_cos2, Rmult_1_r, Rplus_comm, sin2_cos2. apply sqrt_1.
Qed.

(** The centroid of one point away from the poles, whose coordinates in
    radians are [rlon] and [rlat]. *)
Lemma centroid_single lon lat units :
  let deg := has_deg (lower units) in
  let rlon := if deg then np_radians lon else lon in
  let rlat := if deg then np_radians lat else lat in
  0 <= rlon < 2 * PI -> - (PI / 2) < rlat < PI / 2 ->
  centroid_sphere [lon] [lat] units
  = Ok (Some (if deg then (np_rad2deg rlon, np_rad2deg rlat)
              else (rlon, rlat))).
Proof.
  intros deg rlon rlat [Hl0 Hl1] [Hb0 Hb1]. pose proof PI_RGT_0 as Hpi.
  assert (Hcore :
    (if Req_dec_T (centroid_length ((cos rlat * cos rlon + 0) / INR 1)
                                   ((cos rlat * sin rlon + 0) / INR 1)
                                   ((sin rlat + 0) / INR 1)) 0
     then Ok None
     else
       let cenlen := centroid_length ((cos rlat * cos rlon + 0) / INR 1)
                                     ((cos rlat * sin rlon + 0) / INR 1)
                                     ((sin rlat + 0) / INR 1) in
       let outlon := np_arctan2 ((cos rlat * sin rlon + 0) / INR 1 / cenlen)
                                ((cos rlat * cos rlon + 0) / INR 1 / cenlen) in
       let outlon := if Rlt_dec outlon 0 then outlon + 2 * PI else outlon in
       let outlat := asin ((sin rlat + 0) / INR 1 / cenlen) in
       if deg then Ok (Some (np_rad2deg outlon, np_rad2deg outlat))
       else Ok (Some (outlon, outlat)))
    = Ok (Some (if deg then (np_rad2deg rlon, np_rad2deg rlat)
                else (rlon, rlat)))).
  { rewrite single_point_length.
    destruct (Req_dec_T 1 0) as [|_]; [lra|].
    cbv zeta. cbn [INR].
    assert (Hc : 0 < cos rlat) by (apply cos_gt_0; lra).
    replace ((cos rlat * sin rlon + 0) / 1 / 1) with (cos rlat * sin rlon)
      by field.
    replace ((cos rlat * cos rlon + 0) / 1 / 1) with (cos rlat * cos rlon)
      by field.
    replace ((sin rlat + 0) / 1 / 1) with (sin rlat) by field.
    rewrite asin_sin by lra.
    assert (Hlon : (if Rlt_dec (np_arctan2 (cos rlat * sin rlon)
                                           (cos rlat * cos rlon)) 0
                    then np_arctan2 (cos rlat * sin rlon) (cos rlat * cos rlon)
                         + 2 * PI
                    else np_arctan2 (cos rlat * sin rlon) (cos rlat * cos rlon))
                   = rlon).
    { destruct (Rle_dec rlon PI) as [Hle|Hgt].
      - rewrite np_arctan2_polar by lra.
        destruct (Rlt_dec rlon 0); [lra|reflexivity].
      - replace (sin rlon) with (sin (rlon - 2 * PI))
          by (rewrite <- (sin_period (rlon - 2 * PI) 1); f_equal; cbn [INR]; lra).
        replace (cos rlon) with (cos (rlon - 2 * PI))
          by (rewrite <- (cos_period (rlon - 2 * PI) 1); f_equal; cbn [INR]; lra).
        rewrite np_arctan2_polar by lra.
        destruct (Rlt_dec (rlon - 2 * PI) 0); lra. }
    rewrite Hlon. destruct deg; reflexivity. }
  unfold centroid_sphere. fold deg. subst rlon rlat.
  destruct deg; exact Hcore.
Qed.

Lemma np_degrees_radians x : np_rad2deg (np_radians x) = x.
Proof.
  unfold np_rad2deg, np_radians. pose proof PI_RGT_0. field. lra.
Qed.

(** X28: the centroid of one point is that point.  For a longitude in
    [[0, 2 PI)] and a latitude strictly between the poles, [centroid_sphere]
    of the single point returns its coordinates, in radians and (with
    [[0, 360)] and the poles at [-90] and [90]) in degrees, however the unit
    is capitalised. *)
Theorem centroid_sphere_single_point :
  forall lon lat,
    (0 <= lon < 2 * PI -> - (PI / 2) < lat < PI / 2 ->
     centroid_sphere [lon] [lat] "radian" = Ok (Some (lon, lat)))
    /\ (0 <= lon < 360 -> -90 < lat < 90 ->
        exists lon' lat',
          centroid_sphere [lon] [lat] "Degree" = Ok (Some (lon', lat'))
          /\ lon' = lon /\ lat' = lat).
Proof.
  intros lon lat. pose proof PI_RGT_0 as Hpi. split.
  - intros Hl Hb. apply (centroid_single lon lat "radian"); assumption.
  - intros [Hl0 Hl1] [Hb0 Hb1].
    exists (np_rad2deg (np_radians lon)), (np_rad2deg (np_radians lat)).
    split; [|split; apply np_degrees_radians].
    apply (centroid_single lon lat "Degree"); cbv zeta;
      change (has_deg (lower "Degree")) with true; cbv iota;
      unfold np_radians.
    + split.
      * apply Rmult_le_pos; [lra|]. apply Rlt_le, Rdiv_lt_0_compat; lra.
      * replace (2 * PI) with (360 * (PI / 180)) by field.
        apply Rmult_lt_compat_r; [apply Rdiv_lt_0_compat; lra|lra].
    + assert (Hk : 0 < PI / 180) by (apply Rdiv_lt_0_compat; lra).
      replace (PI / 2) with (90 * (PI / 180)) by field.
      split; nra.
Qed.

Lemma centroid_sphere_single_point_witness :
  centroid_sphere [1] [1 / 2] "radian" = Ok (Some (1, 1 / 2))
  /\ exists lon' lat',
       centroid_sphere [200] [-45] "Degree" = Ok (Some (lon', lat'))
       /\ lon' = 200 /\ lat' = -45.
Proof.
  pose proof PI_RGT_0 as Hpi. pose proof PI2_3_2 as H32.
  split.
  - apply (centroid_sphere_single_point 1 (1 / 2)); lra.
  - apply (centroid_sphere_single_point 200 (-45)); lra.
Defined.

(** X29: whenever [centroid_sphere] answers coordinates, the longitude lies
    in [[0, 2 PI)] and the latitude in [[-PI / 2, PI / 2]], or in [[0, 360)]
    and [[-90, 90]] for degrees. *)
Theorem centroid_sphere_range :
  forall lon lat units outlon outlat,
    centroid_sphere lon lat units = Ok (Some (outlon, outlat)) ->
    (0 <= outlon < if has_deg (lower units) then 360 else 2 * PI)
    /\ (- (if has_deg (lower units) then 90 else PI / 2) <= outlat
        <= if has_deg (lower units) then 90 else PI / 2).
Proof.
  intros lon lat units outlon outlat. pose proof PI_RGT_0 as Hpi.
  assert (Hk : 0 < 180 / PI) by (apply Rdiv_lt_0_compat; lra).
  unfold centroid_sphere.
  destruct (np_mul _ _) as [x|]; [|discriminate].
  destruct (np_mul _ _) as [y|]; [|discriminate].
  destruct (_ || _); [discriminate|].
  destruct (Req_dec_T _ 0); [discriminate|].
  cbv zeta.
  match goal with
  | |- context [np_arctan2 ?a ?b] =>
      pose proof (np_arctan2_range a b) as Ha; set (t := np_arctan2 a b) in *
  end.
  match goal with
  | |- context [asin ?a] => pose proof (asin_bound a) as Hs; set (s := asin a) in *
  end.
  assert (Ht : 0 <= (if Rlt_dec t 0 then t + 2 * PI else t) < 2 * PI)
    by (destruct (Rlt_dec t 0); lra).
  set (t' := if Rlt_dec t 0 then t + 2 * PI else t) in *.
  destruct (has_deg (lower units)); intros [= <- <-].
  - unfold np_rad2deg.
    replace 360 with (2 * PI * (180 / PI)) by (field; lra).
    replace 90 with (PI / 2 * (180 / PI)) by (field; lra).
    split; split; nra.
  - split; [exact Ht|exact Hs].
Qed.

Lemma centroid_sphere_range_witness :
  (0 <= 1 < if has_deg (lower "radian") then 360 else 2 * PI)
  /\ (- (if has_deg (lower "radian") then 90 else PI / 2) <= 1 / 2
      <= if has_deg (lower "radian") then 90 else PI / 2).
Proof.
  apply (centroid_sphere_range [1] [1 / 2] "radian" 1 (1 / 2)).
  pose proof PI_RGT_0 as Hpi. pose proof PI2_3_2 as H32.
  apply (centroid_single 1 (1 / 2) "radian"); cbv zeta;
    change (has_deg (lower "radian")) with false; cbv iota; lra.
Defined.

End CentroidFacts.
